(** * Music-label API and seed-data generator: a shallow embedding

    Two Python programs are embedded here.

    - [Archivos/APP.py], the Flask REST service.  Every handler is a
      function from the request and the server's environment (storage
      contents, outcome of the connection attempts) to a response and
      the new environment.
    - [Archivos/SEED_DATA.py], the data generator.  Its methods are
      computations in a state-and-exception monad over the generator
      object, the two seeded pseudo-random sources, the clock and the
      database session; the SQL statements it issues are recorded in
      order.

    PostgreSQL itself and the schema file are not part of the sources:
    the statements are kept as syntax, and their meaning is given by a
    relational model written from the specification's data model. *)

From Stdlib Require Import ZArith Lia Ascii String.
From stdpp Require Import gmap strings list fin_maps pretty.

Local Open Scope string_scope.
Local Open Scope Z_scope.
Local Open Scope list_scope.

(** ** Values exchanged with the storage and with the client *)

Inductive Val :=
| VNull
| VBool (b : bool)
| VInt (z : Z)
| VStr (s : string)
| VDate (day : Z)
| VDec (hundredths : Z).

#[global] Instance Val_eq_dec : EqDecision Val.
Proof. solve_decision. Defined.

(** Python truthiness of a scalar. *)
Definition truthy (v : Val) : bool :=
  match v with
  | VNull => false
  | VBool b => b
  | VInt z => negb (Z.eqb z 0)
  | VStr s => negb (String.eqb s "")
  | VDate _ => true
  | VDec h => negb (Z.eqb h 0)
  end.

Definition as_int (v : Val) : option Z :=
  match v with VInt z => Some z | _ => None end.

(** A row, a JSON object and a Python dict with string keys are all
    finite maps from names to scalars. *)
Abbreviation Row := (gmap string Val).

(** [d.get(k, default)] *)
Definition dict_get (d : Row) (k : string) (default : Val) : Val :=
  match d !! k with Some v => v | None => default end.

(** [all(field in data for field in fields)] *)
Definition has_all (d : Row) (fields : list string) : bool :=
  forallb (fun f => bool_decide (is_Some (d !! f))) fields.

(** * Archivos/APP.py *)
Module APP.

(** ** Storage *)

(** The tables the modelled handlers touch.  [artist], [album] and
    [producer] are keyed by their serial primary key; the key column is
    added back when a row is selected. *)
Record Store := {
  artist : gmap Z Row;
  album : gmap Z Row;
  producer : gmap Z Row;
  song : list Row;
  contract : list Row;
  artist_seq : Z
}.

(** The statements the handlers send, with their bound parameters. *)
Inductive Sql :=
| SelectArtist (artist_id : Z)
| SelectAlbum (album_id : Z)
| SelectProducer (producer_id : Z)
| InsertArtist (name genre contract_date contract_status biography nationality : Val)
| UpdateArtist (updates : list (string * Val)) (artist_id : Z)
| UpdateAlbum (updates : list (string * Val)) (album_id : Z)
| DeleteArtist (artist_id : Z)
| CountArtist
| CountAlbum
| CountSong
| CountHits
| SumStreams
| CountActiveArtists.

(** [query.strip().upper().startswith('SELECT')] *)
Definition is_select (q : Sql) : bool :=
  match q with
  | SelectArtist _ | SelectAlbum _ | SelectProducer _
  | CountArtist | CountAlbum | CountSong | CountHits | SumStreams
  | CountActiveArtists => true
  | InsertArtist _ _ _ _ _ _ | UpdateArtist _ _ | UpdateAlbum _ _
  | DeleteArtist _ => false
  end.

(** What a cursor holds after [cur.execute]. *)
Record Cursor := { fetchall : list Row; rowcount : Z }.

Definition fetchone (c : Cursor) : option Row := head (fetchall c).

(** [SET f1 = v1, f2 = v2, ...] applied to one row, left to right. *)
Definition apply_sets (updates : list (string * Val)) (r : Row) : Row :=
  foldl (fun acc fv => <[fv.1 := fv.2]> acc) r updates.

Definition artist_row (name genre contract_date contract_status biography nationality : Val) : Row :=
  <["name" := name]> (<["genre" := genre]> (<["contract_date" := contract_date]>
  (<["contract_status" := contract_status]> (<["biography" := biography]>
  (<["nationality" := nationality]> ∅))))).

Definition producer_name_of (s : Store) (r : Row) : Val :=
  match r !! "producer_id" with
  | Some (VInt p) =>
      match producer s !! p with
      | Some pr => dict_get pr "name" VNull
      | None => VNull
      end
  | _ => VNull
  end.

Definition is_hit_row (r : Row) : bool :=
  bool_decide (r !! "is_hit" = Some (VBool true)).

(** [SUM(col)]: NULL over no non-null value, the sum otherwise. *)
Definition sql_sum (col : list Val) : Val :=
  match omap as_int col with
  | [] => VNull
  | z :: zs => VInt (foldr Z.add 0 (z :: zs))
  end.

Definition active_contract_of (id : Z) (c : Row) : bool :=
  bool_decide (c !! "artist_id" = Some (VInt id)) &&
  bool_decide (c !! "status" = Some (VStr "active")).

(** [FROM artist a JOIN contract c ON a.artist_id = c.artist_id AND
    c.status = 'active']: one output row per matching pair, keeping
    [a.artist_id]. *)
Definition join_active (s : Store) : list Z :=
  flat_map (fun kv : Z * Row =>
              flat_map (fun c => if active_contract_of kv.1 c then [kv.1] else [])
                       (contract s))
           (map_to_list (artist s)).

(** [COUNT(DISTINCT x)] *)
Definition count_distinct (xs : list Z) : Z :=
  Z.of_nat (size (list_to_set xs : gset Z)).

Definition one_count (name : string) (n : Z) : Cursor :=
  {| fetchall := [ {[ name := VInt n ]} ]; rowcount := 1 |}.

Definition present {A} (o : option A) : Z :=
  match o with Some _ => 1 | None => 0 end.

(** Modelled from the spec: the relational meaning of each statement
    (PostgreSQL and the schema are outside the sources).  Serial keys
    come from [artist_seq]; a key that is already taken is a
    uniqueness violation ([None]). *)
Definition sql_apply (s : Store) (q : Sql) : option (Store * Cursor) :=
  match q with
  | SelectArtist id =>
      Some (s, {| fetchall := match artist s !! id with
                              | Some r => [ <["artist_id" := VInt id]> r ]
                              | None => []
                              end;
                  rowcount := present (artist s !! id) |})
  | SelectAlbum id =>
      Some (s, {| fetchall := match album s !! id with
                              | Some r => [ <["album_id" := VInt id]>
                                              (<["producer_name" := producer_name_of s r]> r) ]
                              | None => []
                              end;
                  rowcount := present (album s !! id) |})
  | SelectProducer id =>
      Some (s, {| fetchall := match producer s !! id with
                              | Some r => [ <["producer_id" := VInt id]> r ]
                              | None => []
                              end;
                  rowcount := present (producer s !! id) |})
  | InsertArtist n g d st b nat =>
      let id := artist_seq s in
      match artist s !! id with
      | Some _ => None
      | None =>
          Some ({| artist := <[id := artist_row n g d st b nat]> (artist s);
                   album := album s; producer := producer s; song := song s;
                   contract := contract s; artist_seq := id + 1 |},
                {| fetchall := [ {[ "artist_id" := VInt id ]} ]; rowcount := 1 |})
      end
  | UpdateArtist updates id =>
      Some ({| artist := alter (apply_sets updates) id (artist s);
               album := album s; producer := producer s; song := song s;
               contract := contract s; artist_seq := artist_seq s |},
            {| fetchall := []; rowcount := present (artist s !! id) |})
  | UpdateAlbum updates id =>
      Some ({| artist := artist s;
               album := alter (apply_sets updates) id (album s);
               producer := producer s; song := song s;
               contract := contract s; artist_seq := artist_seq s |},
            {| fetchall := []; rowcount := present (album s !! id) |})
  | DeleteArtist id =>
      Some ({| artist := delete id (artist s);
               album := album s; producer := producer s; song := song s;
               contract := contract s; artist_seq := artist_seq s |},
            {| fetchall := []; rowcount := present (artist s !! id) |})
  | CountArtist => Some (s, one_count "count" (Z.of_nat (size (artist s))))
  | CountAlbum => Some (s, one_count "count" (Z.of_nat (size (album s))))
  | CountSong => Some (s, one_count "count" (Z.of_nat (length (song s))))
  | CountHits =>
      Some (s, one_count "count" (Z.of_nat (length (filter (fun r => is_hit_row r = true) (song s)))))
  | SumStreams =>
      Some (s, {| fetchall := [ {[ "total" := sql_sum (map (fun r => dict_get r "streams_count" VNull) (song s)) ]} ];
                  rowcount := 1 |})
  | CountActiveArtists => Some (s, one_count "count" (count_distinct (join_active s)))
  end.

(** ** The server's environment *)

(** [up k] tells whether the [k]-th call of [psycopg2.connect] since the
    server started succeeds; [dials] counts the calls made so far. *)
Record Server := {
  store : Store;
  up : nat -> bool;
  dials : nat
}.

Definition with_store (sv : Server) (s : Store) : Server :=
  {| store := s; up := up sv; dials := dials sv |}.

Definition Response : Type := Row * Z.

Section Handlers.

(** Constraints, column types and triggers of the schema are not in the
    sources: [schema_rejects s q] is the error text when the storage
    refuses statement [q] in state [s] for such a reason. *)
Variable schema_rejects : Store -> Sql -> option string.

(** [cur.execute(query, params)]: the cursor and the new contents, or
    the text of the exception raised. *)
Definition cur_execute (s : Store) (q : Sql) : string + (Store * Cursor) :=
  match schema_rejects s q with
  | Some msg => inl msg
  | None =>
      match sql_apply s q with
      | Some r => inr r
      | None => inl "duplicate key value violates unique constraint"
      end
  end.

(** [get_db_connection]: [true] stands for a connection, [false] for
    [None]. *)
Definition get_db_connection (sv : Server) : bool * Server :=
  (up sv (dials sv), {| store := store sv; up := up sv; dials := S (dials sv) |}).

(** What [execute_query] returns. *)
Inductive QueryResult :=
| QNone
| QRow (r : Row)
| QRows (rs : list Row)
| QCount (n : Z).

Definition execute_query (q : Sql) (fetch_one : bool) (sv : Server) : QueryResult * Server :=
  let '(conn, sv) := get_db_connection sv in
  if negb conn then (QNone, sv)
  else
    match cur_execute (store sv) q with
    | inr (s', cur) =>
        if is_select q then
          if fetch_one then
            (match fetchone cur with Some r => QRow r | None => QNone end, sv)
          else (QRows (fetchall cur), sv)
        else (QCount (rowcount cur), with_store sv s')
    | inl _ => (QNone, sv)
    end.

Definition error (msg : string) : Row := {[ "error" := VStr msg ]}.

(** The handler registered for status 500: an exception that leaves a
    view function ([dict(result)] on a result that is neither a row nor
    [None]) ends there. *)
Definition internal_error : Response := (error "Error interno del servidor", 500).

Definition get_artist (artist_id : Z) (sv : Server) : Response * Server :=
  let '(result, sv) := execute_query (SelectArtist artist_id) true sv in
  match result with
  | QNone => ((error "Artista no encontrado", 404), sv)
  | QRow r => ((r, 200), sv)
  | _ => (internal_error, sv)
  end.

Definition get_album (album_id : Z) (sv : Server) : Response * Server :=
  let '(result, sv) := execute_query (SelectAlbum album_id) true sv in
  match result with
  | QNone => ((error "Álbum no encontrado", 404), sv)
  | QRow r => ((r, 200), sv)
  | _ => (internal_error, sv)
  end.

Definition get_producer (producer_id : Z) (sv : Server) : Response * Server :=
  let '(result, sv) := execute_query (SelectProducer producer_id) true sv in
  match result with
  | QNone => ((error "Productor no encontrado", 404), sv)
  | QRow r => ((r, 200), sv)
  | _ => (internal_error, sv)
  end.

Definition artist_required_fields : list string :=
  ["name"; "genre"; "contract_date"; "nationality"].

(** The INSERT of [create_artist] with its [params] tuple; [data[k]] of
    a required field is read after the presence check. *)
Definition insert_artist_query (data : Row) : Sql :=
  InsertArtist (dict_get data "name" VNull)
               (dict_get data "genre" VNull)
               (dict_get data "contract_date" VNull)
               (dict_get data "contract_status" (VStr "active"))
               (dict_get data "biography" (VStr ""))
               (dict_get data "nationality" VNull).

(** [conn.commit()] comes before [result['artist_id']] is read: an
    exception raised while the answer is built finds the insertion
    committed, and [conn.rollback()] undoes nothing. *)
Definition create_artist (data : Row) (sv : Server) : Response * Server :=
  if negb (has_all data artist_required_fields) then
    ((error "Campos requeridos faltantes", 400), sv)
  else
    let query := insert_artist_query data in
    let '(conn, sv) := get_db_connection sv in
    if negb conn then ((error "Error de conexión", 500), sv)
    else
      match cur_execute (store sv) query with
      | inr (s', cur) =>
          match fetchone cur with
          | Some result =>
              match result !! "artist_id" with
              | Some id =>
                  ((<["artist_id" := id]> {[ "message" := VStr "Artista creado exitosamente" ]}, 201),
                   with_store sv s')
              | None => ((error "'artist_id'", 400), with_store sv s')
              end
          | None =>
              ((error "'NoneType' object is not subscriptable", 400), with_store sv s')
          end
      | inl msg => ((error msg, 400), sv)
      end.

(** The loop over [allowed_fields] that builds [updates] and [params]:
    the pair (column, bound value) for each allowed field present in
    [data], in the order of [allowed_fields]. *)
Definition collect_updates (allowed_fields : list string) (data : Row) : list (string * Val) :=
  foldl (fun updates field =>
           match data !! field with
           | Some v => updates ++ [(field, v)]
           | None => updates
           end) [] allowed_fields.

Definition artist_allowed_fields : list string :=
  ["name"; "genre"; "contract_status"; "biography"; "nationality"].

Definition album_allowed_fields : list string :=
  ["title"; "status"; "genre"; "label_name"].

Definition update_artist (artist_id : Z) (data : Row) (sv : Server) : Response * Server :=
  let updates := collect_updates artist_allowed_fields data in
  match updates with
  | [] => ((error "No hay campos para actualizar", 400), sv)
  | _ =>
      let query := UpdateArtist updates artist_id in
      let '(conn, sv) := get_db_connection sv in
      if negb conn then ((error "Error de conexión", 500), sv)
      else
        match cur_execute (store sv) query with
        | inr (s', _) =>
            (({[ "message" := VStr "Artista actualizado exitosamente" ]}, 200), with_store sv s')
        | inl msg => ((error msg, 400), sv)
        end
  end.

Definition update_album (album_id : Z) (data : Row) (sv : Server) : Response * Server :=
  let updates := collect_updates album_allowed_fields data in
  match updates with
  | [] => ((error "No hay campos para actualizar", 400), sv)
  | _ =>
      let query := UpdateAlbum updates album_id in
      let '(conn, sv) := get_db_connection sv in
      if negb conn then ((error "Error de conexión", 500), sv)
      else
        match cur_execute (store sv) query with
        | inr (s', _) =>
            (({[ "message" := VStr "Álbum actualizado exitosamente" ]}, 200), with_store sv s')
        | inl msg => ((error msg, 400), sv)
        end
  end.

Definition delete_artist (artist_id : Z) (sv : Server) : Response * Server :=
  let query := DeleteArtist artist_id in
  let '(conn, sv) := get_db_connection sv in
  if negb conn then ((error "Error de conexión", 500), sv)
  else
    match cur_execute (store sv) query with
    | inr (s', _) =>
        (({[ "message" := VStr "Artista eliminado exitosamente" ]}, 200), with_store sv s')
    | inl msg => ((error msg, 400), sv)
    end.

(** [result['count'] if result else 0]; [execute_query] is called with
    [fetch_one=True] on a SELECT, so [result] is a row or [None]. *)
Definition count_or_zero (result : QueryResult) : Val :=
  match result with
  | QRow r => if bool_decide (r = ∅) then VInt 0 else dict_get r "count" VNull
  | _ => VInt 0
  end.

(** [result['total'] if result and result['total'] else 0] *)
Definition total_or_zero (result : QueryResult) : Val :=
  match result with
  | QRow r =>
      if bool_decide (r = ∅) then VInt 0
      else if truthy (dict_get r "total" VNull) then dict_get r "total" VNull
      else VInt 0
  | _ => VInt 0
  end.

Definition get_stats (sv : Server) : Response * Server :=
  let '(r1, sv) := execute_query CountArtist true sv in
  let '(r2, sv) := execute_query CountAlbum true sv in
  let '(r3, sv) := execute_query CountSong true sv in
  let '(r4, sv) := execute_query CountHits true sv in
  let '(r5, sv) := execute_query SumStreams true sv in
  let '(r6, sv) := execute_query CountActiveArtists true sv in
  ((<["active_artists" := count_or_zero r6]>
    (<["total_streams" := total_or_zero r5]>
    (<["total_hits" := count_or_zero r4]>
    (<["total_songs" := count_or_zero r3]>
    (<["total_albums" := count_or_zero r2]>
    (<["total_artists" := count_or_zero r1]> ∅))))), 200), sv).

End Handlers.

(** ** Vocabulary of the statements about the handlers *)

(** The server after one more connection attempt. *)
Definition dialed (sv : Server) : Server :=
  {| store := store sv; up := up sv; dials := S (dials sv) |}.





Definition artist_table_only (s s' : Store) : Prop :=
  album s' = album s /\ producer s' = producer s /\ song s' = song s /\
  contract s' = contract s /\ artist_seq s' = artist_seq s.


(** The two aggregates of [/api/stats] as the specification words them:
    the sum of [streams_count] over the song rows, and the number of
    artists with at least one contract whose status is "active". *)
Definition streams_of (r : Row) : Z :=
  match r !! "streams_count" with Some (VInt z) => z | _ => 0 end.

Definition sum_of_streams (s : Store) : Z :=
  foldr Z.add 0 (streams_of <$> song s).

Definition has_active_contract (s : Store) (id : Z) : Prop :=
  Exists (fun c : Row => c !! "artist_id" = Some (VInt id) /\
                         c !! "status" = Some (VStr "active")) (contract s).

Definition artists_with_active_contract (s : Store) : gset Z :=
  filter (has_active_contract s) (dom (artist s)).

(** Stores and servers to run the handlers on. *)
Definition empty_store : Store :=
  {| artist := ∅; album := ∅; producer := ∅; song := []; contract := []; artist_seq := 1 |}.

Definition accepts_all : Store -> Sql -> option string := fun _ _ => None.

Definition online (s : Store) : Server :=
  {| store := s; up := fun _ => true; dials := 0 |}.

Definition offline (s : Store) : Server :=
  {| store := s; up := fun _ => false; dials := 0 |}.

(** The body of the specification's POST scenario, and a PUT payload
    with allowed and other fields. *)
Definition new_artist_body : Row :=
  <["name" := VStr "X"]> (<["genre" := VStr "rock"]>
  (<["contract_date" := VStr "2020-01-01"]> (<["nationality" := VStr "Spain"]> ∅))).

Definition put_body : Row :=
  <["genre" := VStr "jazz"]> (<["contract_date" := VStr "1999-01-01"]>
  (<["release_date" := VStr "1999-01-01"]> (<["producer_id" := VInt 5]>
  (<["shoe_size" := VInt 42]> ∅)))).

Definition demo_store : Store :=
  {| artist := {[ 7 := artist_row (VStr "Ana") (VStr "pop") (VStr "2019-05-01")
                                  (VStr "active") (VStr "") (VStr "Chile") ]};
     album := {[ 3 := <["title" := VStr "Uno"]> (<["release_date" := VStr "2021-01-01"]>
                      (<["producer_id" := VInt 1]> (<["status" := VStr "draft"]>
                      (<["genre" := VStr "pop"]> (<["label_name" := VStr "L"]> ∅))))) ]};
     producer := {[ 1 := {[ "name" := VStr "Pau" ]} ]};
     song := [ <["album_id" := VInt 3]> (<["song_id" := VInt 1]> (<["streams_count" := VInt 40]> ∅));
               <["album_id" := VInt 3]> (<["song_id" := VInt 2]> (<["streams_count" := VInt 2]> ∅)) ];
     contract := [ <["artist_id" := VInt 7]> {[ "status" := VStr "active" ]};
                   <["artist_id" := VInt 7]> {[ "status" := VStr "active" ]};
                   <["artist_id" := VInt 9]> {[ "status" := VStr "expired" ]} ];
     artist_seq := 8 |}.

End APP.

(** * Archivos/SEED_DATA.py *)
Module SEED_DATA.

(** ** Statements sent by the generator *)

Inductive Table :=
| t_song_distribution | t_artist_album | t_contract | t_recording_session
| t_song | t_album | t_engineer | t_manager | t_staff
| t_distribution | t_studio | t_producer | t_artist.

#[global] Instance Table_eq_dec : EqDecision Table.
Proof. solve_decision. Defined.

(** [Insert t params] is the one [INSERT INTO t (...) VALUES (...)] text
    the generator has for table [t], with its bound parameters in the
    order of the source; the clause that ends the text depends on the
    table only ([returning], [on_conflict_do_nothing]). *)
Inductive Stmt :=
| Truncate (t : Table)
| DisableTrigger
| EnableTrigger
| Insert (t : Table) (params : list Val)
| SelectRandomSong.

#[global] Instance Stmt_eq_dec : EqDecision Stmt.
Proof. solve_decision. Defined.

Definition returning (t : Table) : bool :=
  match t with
  | t_artist | t_producer | t_studio | t_album | t_staff | t_distribution => true
  | _ => false
  end.

Definition on_conflict_do_nothing (t : Table) : bool :=
  match t with
  | t_song | t_song_distribution | t_contract | t_artist_album => true
  | _ => false
  end.

(** What the session answers to [cur.execute] followed by
    [conn.commit]: an exception, no result set ([cur.description] is
    [None]), or the rows of [cur.fetchall()]. *)
Inductive Reply :=
| Failed
| NoResult
| Rows (rows : list (list Val)).

(** The calls of the Faker instance. *)
Inductive Fake :=
| fake_name
| fake_word
| fake_paragraph (nb_sentences : nat)
| fake_email
| fake_phone_number
| fake_company.

(** ** What the script runs on

    The pseudo-random generators behind [random] and [Faker] (both
    seeded with 42 when the module is loaded) and the database session
    are libraries and services outside the sources.  They enter as two
    interfaces: [Rng] is the joint state of the two seeded generators,
    [DB] the state of the database as seen through the one connection. *)
Class Seeds := {
  Rng : Type;
  (** [random._randbelow(n)] *)
  randbelow : Z -> Rng -> Z * Rng;
  randbelow_lt : forall n r, 0 < n -> 0 <= (randbelow n r).1 < n;
  (** [round(random.uniform(a, b), 2)], in hundredths *)
  uniform2 : Z -> Z -> Rng -> Z * Rng;
  (** a call of the Faker instance that yields text *)
  fake_text : Fake -> Rng -> string * Rng;
  (** [fake.date_between(start_date='-<years>y')], given today's date *)
  fake_date_between : Z -> Z -> Rng -> Z * Rng
}.

Class Session := {
  DB : Type;
  db_exec : Stmt -> DB -> Reply * DB
}.

Inductive Exn :=
| OperationalError   (* psycopg2.connect failed *)
| DatabaseError      (* a statement failed *)
| NoConnection       (* a statement without an open connection: AttributeError
                        on None, psycopg2.InterfaceError once closed *)
| IndexError
| TypeError
| ValueError.

#[global] Instance Exn_eq_dec : EqDecision Exn.
Proof. solve_decision. Defined.

Section Generator.

Context `{Seeds} `{Session}.

(** The attributes of a [DataGenerator] object; [connected] stands for
    [self.conn] and [self.cur] being set and open. *)
Record DataGenerator := {
  connected : bool;
  artist_ids : list Val;
  producer_ids : list Val;
  studio_ids : list Val;
  album_ids : list Val;
  distribution_ids : list Val;
  staff_ids : list Val;
  engineer_ids : list Val;
  manager_ids : list Val
}.

(** [DataGenerator.__init__] *)
Definition init : DataGenerator :=
  {| connected := false; artist_ids := []; producer_ids := []; studio_ids := [];
     album_ids := []; distribution_ids := []; staff_ids := [];
     engineer_ids := []; manager_ids := [] |}.

(** Everything a run reads or changes: the object, the seeded
    generators, the date of the run (a run is taken not to cross
    midnight), whether the server accepts connections, the database,
    and the statements issued so far (oldest first). *)
Record World := {
  self : DataGenerator;
  rng : Rng;
  today : Z;
  reachable : bool;
  db : DB;
  issued : list Stmt
}.

Definition set_self (g : DataGenerator) (w : World) : World :=
  {| self := g; rng := rng w; today := today w; reachable := reachable w;
     db := db w; issued := issued w |}.

Definition set_rng (r : Rng) (w : World) : World :=
  {| self := self w; rng := r; today := today w; reachable := reachable w;
     db := db w; issued := issued w |}.

Definition set_db (d : DB) (w : World) : World :=
  {| self := self w; rng := rng w; today := today w; reachable := reachable w;
     db := d; issued := issued w |}.

Definition log_stmt (q : Stmt) (w : World) : World :=
  {| self := self w; rng := rng w; today := today w; reachable := reachable w;
     db := db w; issued := issued w ++ [q] |}.

(** ** Computations: state and exceptions *)

Definition M (A : Type) : Type := World -> (Exn + A) * World.

Definition ret {A} (a : A) : M A := fun w => (inr a, w).

Definition bind {A B} (m : M A) (k : A -> M B) : M B :=
  fun w =>
    match m w with
    | (inr a, w') => k a w'
    | (inl e, w') => (inl e, w')
    end.

Definition raise {A} (e : Exn) : M A := fun w => (inl e, w).

(** [try: m  except: handler]; what [m] did before raising stays done. *)
Definition try_except {A} (m : M A) (handler : Exn -> M A) : M A :=
  fun w =>
    match m w with
    | (inr a, w') => (inr a, w')
    | (inl e, w') => handler e w'
    end.

(** [try: m  finally: f] *)
Definition try_finally {A} (m : M A) (f : M unit) : M A :=
  fun w =>
    match m w with
    | (r, w') =>
        match f w' with
        | (inr _, w'') => (r, w'')
        | (inl e, w'') => (inl e, w'')
        end
    end.

Definition get {A} (f : World -> A) : M A := fun w => (inr (f w), w).

Definition modify (f : World -> World) : M unit := fun w => (inr tt, f w).

#[global] Instance M_ret : MRet M := @ret.
#[global] Instance M_bind : MBind M := fun A B k m => bind m k.

(** [for x in xs: body(x)] *)
Fixpoint for_each {A} (xs : list A) (body : A -> M unit) : M unit :=
  match xs with
  | [] => ret tt
  | x :: rest => bind (body x) (fun _ => for_each rest body)
  end.

(** [range(a, b)] and [range(b)] *)
Definition range (a b : nat) : list nat := seq a (b - a).

(** [xs[i]] *)
Definition index {A} (xs : list A) (i : nat) : M A :=
  match xs !! i with
  | Some x => ret x
  | None => raise IndexError
  end.

(** ** The seeded sources *)

Definition draw {A} (f : Rng -> A * Rng) : M A :=
  fun w => let '(a, r) := f (rng w) in (inr a, set_rng r w).

(** [random.choice(xs)] *)
Definition random_choice {A} (xs : list A) : M A :=
  match xs with
  | [] => raise IndexError
  | _ => bind (draw (randbelow (Z.of_nat (length xs)))) (fun i => index xs (Z.to_nat i))
  end.

(** [random.randint(a, b)] *)
Definition random_randint (a b : Z) : M Z :=
  bind (draw (randbelow (b - a + 1))) (fun i => ret (a + i)).

(** [round(random.uniform(a, b), 2)] *)
Definition random_uniform2 (a b : Z) : M Val :=
  bind (draw (uniform2 a b)) (fun h => ret (VDec h)).

Definition fake (f : Fake) : M string := draw (fake_text f).

(** [fake.date_between(start_date='-<years>y')] *)
Definition date_between (years : Z) : M Z :=
  bind (get today) (fun now => draw (fake_date_between years now)).

(** ** Text helpers *)

Definition upper_ascii (c : ascii) : ascii :=
  let n := nat_of_ascii c in
  if (andb (97 <=? n) (n <=? 122))%nat then ascii_of_nat (n - 32) else c.

Definition lower_ascii (c : ascii) : ascii :=
  let n := nat_of_ascii c in
  if (andb (65 <=? n) (n <=? 90))%nat then ascii_of_nat (n + 32) else c.

(** The accented letters of the words of the es_ES locale (à to þ and
    their capitals À to Þ) are two bytes in UTF-8, the first of which
    is 195; the case is in the second byte. *)
Definition upper_accented (c : ascii) : ascii :=
  let n := nat_of_ascii c in
  if (andb (andb (160 <=? n) (n <=? 190)) (negb (n =? 183)))%nat
  then ascii_of_nat (n - 32) else c.

Definition lower_accented (c : ascii) : ascii :=
  let n := nat_of_ascii c in
  if (andb (andb (128 <=? n) (n <=? 158)) (negb (n =? 151)))%nat
  then ascii_of_nat (n + 32) else c.

Fixpoint lower (s : string) : string :=
  match s with
  | EmptyString => EmptyString
  | String c rest =>
      if (nat_of_ascii c =? 195)%nat then
        match rest with
        | EmptyString => String c EmptyString
        | String c2 rest2 => String c (String (lower_accented c2) (lower rest2))
        end
      else String (lower_ascii c) (lower rest)
  end.

(** [s.capitalize()], on ASCII letters and on the accented letters
    from à to þ. *)
Definition capitalize (s : string) : string :=
  match s with
  | EmptyString => EmptyString
  | String c rest =>
      if (nat_of_ascii c =? 195)%nat then
        match rest with
        | EmptyString => String c EmptyString
        | String c2 rest2 => String c (String (upper_accented c2) (lower rest2))
        end
      else String (upper_ascii c) (lower rest)
  end.

(** [f"{n:02d}"] for a natural number *)
Definition fmt02 (n : Z) : string :=
  if n <? 10 then String.append "0" (pretty n) else pretty n.

(** ** Methods of [DataGenerator] *)

Definition connect : M unit :=
  fun w =>
    if reachable w then
      (inr tt, set_self {| connected := true;
                           artist_ids := artist_ids (self w);
                           producer_ids := producer_ids (self w);
                           studio_ids := studio_ids (self w);
                           album_ids := album_ids (self w);
                           distribution_ids := distribution_ids (self w);
                           staff_ids := staff_ids (self w);
                           engineer_ids := engineer_ids (self w);
                           manager_ids := manager_ids (self w) |} w)
    else (inl OperationalError, w).

(** [disconnect] closes the cursor and the connection that are set;
    the id pools stay. *)
Definition disconnect : M unit :=
  fun w =>
    if connected (self w) then
      (inr tt, set_self {| connected := false;
                           artist_ids := artist_ids (self w);
                           producer_ids := producer_ids (self w);
                           studio_ids := studio_ids (self w);
                           album_ids := album_ids (self w);
                           distribution_ids := distribution_ids (self w);
                           staff_ids := staff_ids (self w);
                           engineer_ids := engineer_ids (self w);
                           manager_ids := manager_ids (self w) |} w)
    else (inr tt, w).

(** Without an open connection [self.cur.execute] raises, and so
    does [self.conn.rollback()] in the handler, before anything is
    sent: [self.cur] and [self.conn] are [None] or closed. *)
Definition execute_query (query : Stmt) : M (option (list (list Val))) :=
  fun w =>
    if connected (self w) then
      let w := log_stmt query w in
      match db_exec query (db w) with
      | (Failed, d) => (inl DatabaseError, set_db d w)
      | (NoResult, d) => (inr None, set_db d w)
      | (Rows rows, d) => (inr (Some rows), set_db d w)
      end
    else (inl NoConnection, w).

(** [result[0][0]] *)
Definition first_cell (result : option (list (list Val))) : M Val :=
  match result with
  | None => raise TypeError
  | Some [] => raise IndexError
  | Some ([] :: _) => raise IndexError
  | Some ((v :: _) :: _) => ret v
  end.

Definition tables : list Table :=
  [t_song_distribution; t_artist_album; t_contract; t_recording_session;
   t_song; t_album; t_engineer; t_manager; t_staff;
   t_distribution; t_studio; t_producer; t_artist].

Definition clean_database : M unit :=
  try_except
    (for_each tables (fun table => bind (execute_query (Truncate table)) (fun _ => ret tt)))
    (fun _ => ret tt).

Definition genres : list string :=
  ["pop"; "rock"; "hip-hop"; "jazz"; "classical"; "electronic"; "reggae";
   "country"; "folk"; "other"].

Definition three_states (third : string) : list string := ["active"; "inactive"; third].

Definition push_artist_id (v : Val) : M unit :=
  modify (fun w => set_self
    {| connected := connected (self w);
       artist_ids := artist_ids (self w) ++ [v];
       producer_ids := producer_ids (self w); studio_ids := studio_ids (self w);
       album_ids := album_ids (self w); distribution_ids := distribution_ids (self w);
       staff_ids := staff_ids (self w); engineer_ids := engineer_ids (self w);
       manager_ids := manager_ids (self w) |} w).

Definition push_producer_id (v : Val) : M unit :=
  modify (fun w => set_self
    {| connected := connected (self w);
       artist_ids := artist_ids (self w);
       producer_ids := producer_ids (self w) ++ [v]; studio_ids := studio_ids (self w);
       album_ids := album_ids (self w); distribution_ids := distribution_ids (self w);
       staff_ids := staff_ids (self w); engineer_ids := engineer_ids (self w);
       manager_ids := manager_ids (self w) |} w).

Definition push_studio_id (v : Val) : M unit :=
  modify (fun w => set_self
    {| connected := connected (self w);
       artist_ids := artist_ids (self w);
       producer_ids := producer_ids (self w); studio_ids := studio_ids (self w) ++ [v];
       album_ids := album_ids (self w); distribution_ids := distribution_ids (self w);
       staff_ids := staff_ids (self w); engineer_ids := engineer_ids (self w);
       manager_ids := manager_ids (self w) |} w).

Definition push_album_id (v : Val) : M unit :=
  modify (fun w => set_self
    {| connected := connected (self w);
       artist_ids := artist_ids (self w);
       producer_ids := producer_ids (self w); studio_ids := studio_ids (self w);
       album_ids := album_ids (self w) ++ [v]; distribution_ids := distribution_ids (self w);
       staff_ids := staff_ids (self w); engineer_ids := engineer_ids (self w);
       manager_ids := manager_ids (self w) |} w).

Definition push_distribution_id (v : Val) : M unit :=
  modify (fun w => set_self
    {| connected := connected (self w);
       artist_ids := artist_ids (self w);
       producer_ids := producer_ids (self w); studio_ids := studio_ids (self w);
       album_ids := album_ids (self w); distribution_ids := distribution_ids (self w) ++ [v];
       staff_ids := staff_ids (self w); engineer_ids := engineer_ids (self w);
       manager_ids := manager_ids (self w) |} w).

Definition push_staff_id (v : Val) : M unit :=
  modify (fun w => set_self
    {| connected := connected (self w);
       artist_ids := artist_ids (self w);
       producer_ids := producer_ids (self w); studio_ids := studio_ids (self w);
       album_ids := album_ids (self w); distribution_ids := distribution_ids (self w);
       staff_ids := staff_ids (self w) ++ [v]; engineer_ids := engineer_ids (self w);
       manager_ids := manager_ids (self w) |} w).

Definition push_engineer_id (v : Val) : M unit :=
  modify (fun w => set_self
    {| connected := connected (self w);
       artist_ids := artist_ids (self w);
       producer_ids := producer_ids (self w); studio_ids := studio_ids (self w);
       album_ids := album_ids (self w); distribution_ids := distribution_ids (self w);
       staff_ids := staff_ids (self w); engineer_ids := engineer_ids (self w) ++ [v];
       manager_ids := manager_ids (self w) |} w).

Definition push_manager_id (v : Val) : M unit :=
  modify (fun w => set_self
    {| connected := connected (self w);
       artist_ids := artist_ids (self w);
       producer_ids := producer_ids (self w); studio_ids := studio_ids (self w);
       album_ids := album_ids (self w); distribution_ids := distribution_ids (self w);
       staff_ids := staff_ids (self w); engineer_ids := engineer_ids (self w);
       manager_ids := manager_ids (self w) ++ [v] |} w).

Definition generate_artists (count : nat) : M unit :=
  let nationalities :=
    ["España"; "Estados Unidos"; "Reino Unido"; "Francia"; "Alemania";
     "Italia"; "Japón"; "Brasil"; "Canadá"; "Australia"] in
  for_each (range 0 count) (fun i =>
    name ← fake fake_name;
    genre ← random_choice genres;
    contract_date ← date_between 5;
    contract_status ← random_choice (three_states "suspended");
    biography ← fake (fake_paragraph 3);
    nationality ← random_choice nationalities;
    result ← execute_query
      (Insert t_artist [VStr name; VStr genre; VDate contract_date;
                        VStr contract_status; VStr biography; VStr nationality]);
    id ← first_cell result;
    push_artist_id id).

Definition generate_producers (count : nat) : M unit :=
  let specialties :=
    ["Pop"; "Rock"; "Hip-Hop"; "Jazz"; "Electronic"; "Classical"; "Reggae"; "Country"] in
  for_each (range 0 count) (fun i =>
    name ← fake fake_name;
    specialty ← random_choice specialties;
    years_experience ← random_randint 1 40;
    email ← fake fake_email;
    phone ← fake fake_phone_number;
    result ← execute_query
      (Insert t_producer [VStr name; VStr specialty; VInt years_experience;
                          VStr email; VStr phone]);
    id ← first_cell result;
    push_producer_id id).

Definition generate_studios (count : nat) : M unit :=
  let locations :=
    ["Madrid"; "Barcelona"; "Valencia"; "Sevilla"; "Bilbao"; "Málaga"; "Murcia";
     "Palma"; "Las Palmas"; "Alicante"] in
  let equipment_list :=
    ["SSL 4000E, Neve 1073, Telefunken U47";
     "Neve 8088, API 2500, Manley ELOP";
     "Studer A800, Ampex ATR102, Otari MX80";
     "ProTools HDX, Avid S6, Euphonix MC Mix";
     "Yamaha CL5, Allen & Heath dLive, DiGiCo SD7"] in
  for_each (range 0 count) (fun i =>
    word ← fake fake_word;
    let name := String.append "Studio "
                  (String.append (capitalize word)
                     (String.append " " (pretty (i + 1)%nat))) in
    location ← random_choice locations;
    capacity ← random_randint 4 30;
    equipment ← random_choice equipment_list;
    hourly_rate ← random_uniform2 50 300;
    result ← execute_query
      (Insert t_studio [VStr name; VStr location; VInt capacity; VStr equipment; hourly_rate]);
    id ← first_cell result;
    push_studio_id id).

(** [f"{fake.word().capitalize()} {fake.word().capitalize()}"] *)
Definition two_words : M string :=
  w1 ← fake fake_word;
  w2 ← fake fake_word;
  mret (String.append (capitalize w1) (String.append " " (capitalize w2))).

Definition generate_albums (count : nat) : M unit :=
  let statuses := ["draft"; "released"; "archived"] in
  for_each (range 0 count) (fun i =>
    title ← two_words;
    release_date ← date_between 3;
    ids ← get (fun w => producer_ids (self w));
    producer_id ← random_choice ids;
    status ← random_choice statuses;
    genre ← random_choice genres;
    label_name ← fake fake_company;
    result ← execute_query
      (Insert t_album [VStr title; VDate release_date; producer_id; VStr status;
                       VStr genre; VStr label_name]);
    id ← first_cell result;
    push_album_id id).

(** The body of the loop of [generate_songs], under its own name for
    the statements about single iterations. *)
Definition song_body (i : nat) : M unit :=
  ids ← get (fun w => album_ids (self w));
  album_id ← random_choice ids;
  song_id ← random_randint 1 20;
  title ← two_words;
  duration ← random_randint 120 420;
  composer ← fake fake_name;
  streams_count ← random_randint 0 10000000;
  let is_hit := 1000000 <=? streams_count in
  try_except
    (execute_query
       (Insert t_song [album_id; VInt song_id; VStr title; VInt duration;
                       VStr composer; VInt streams_count; VBool is_hit]) ;;
     mret tt)
    (fun _ => mret tt).

(** The local counter [inserted_count] only feeds the log line and is
    left out, like the log lines themselves. *)
Definition generate_songs (count : nat) : M unit :=
  try_except (execute_query DisableTrigger ;; mret tt) (fun _ => mret tt) ;;
  for_each (range 0 count) song_body ;;
  try_except (execute_query EnableTrigger ;; mret tt) (fun _ => mret tt).

Definition generate_recording_sessions (count : nat) : M unit :=
  for_each (range 0 count) (fun i =>
    a_ids ← get (fun w => artist_ids (self w));
    artist_id ← random_choice a_ids;
    p_ids ← get (fun w => producer_ids (self w));
    producer_id ← random_choice p_ids;
    s_ids ← get (fun w => studio_ids (self w));
    studio_id ← random_choice s_ids;
    session_date ← date_between 2;
    hh ← random_randint 9 18;
    mm ← random_randint 0 59;
    let start_time := String.append (fmt02 hh) (String.append ":" (String.append (fmt02 mm) ":00")) in
    duration_hours ← random_uniform2 1 8;
    try_except
      (execute_query
         (Insert t_recording_session
                 [artist_id; producer_id; studio_id; VDate session_date;
                  VStr start_time; duration_hours; VInt 0]) ;;
       mret tt)
      (fun _ => mret tt)).

Definition generate_staff (count : nat) : M unit :=
  let departments :=
    ["Ingeniería"; "Producción"; "Administración"; "Marketing"; "Distribución"; "Legal"] in
  for_each (range 0 count) (fun i =>
    name ← fake fake_name;
    salary ← random_uniform2 20000 80000;
    department ← random_choice departments;
    hire_date ← date_between 10;
    result ← execute_query
      (Insert t_staff [VStr name; salary; VStr department; VDate hire_date]);
    id ← first_cell result;
    push_staff_id id).

Definition certifications : list string :=
  ["Certified Audio Engineer"; "Pro Tools Certified"; "Neve Certified";
   "SSL Certified"; "Dolby Certified"].

(** The body of the loop of [generate_engineers]. *)
Definition engineer_body (i : nat) : M unit :=
  staff ← get (fun w => staff_ids (self w));
  engineer_id ← index staff i;
  certification ← random_choice certifications;
  technical_skills ← fake (fake_paragraph 2);
  s_ids ← get (fun w => studio_ids (self w));
  studio_id ← random_choice s_ids;
  try_except
    (execute_query
       (Insert t_engineer [engineer_id; VStr certification; VStr technical_skills; studio_id]) ;;
     push_engineer_id engineer_id)
    (fun _ => mret tt).

Definition generate_engineers (count : nat) : M unit :=
  n ← get (fun w => length (staff_ids (self w)));
  for_each (range 0 (count `min` n)) engineer_body.

(** The body of the loop of [generate_managers]. *)
Definition manager_body (i : nat) : M unit :=
  staff ← get (fun w => staff_ids (self w));
  manager_id ← index staff i;
  commission_percentage ← random_uniform2 5 25;
  artists_managed ← random_randint 1 10;
  try_except
    (execute_query
       (Insert t_manager [manager_id; commission_percentage; VInt artists_managed]) ;;
     push_manager_id manager_id)
    (fun _ => mret tt).

Definition generate_managers (count : nat) : M unit :=
  n ← get (fun w => length (staff_ids (self w)));
  for_each (range count ((count + 10) `min` n)) manager_body.

Definition generate_distributions (count : nat) : M unit :=
  let platforms :=
    ["Spotify"; "Apple Music"; "YouTube Music"; "Amazon Music"; "Tidal";
     "Deezer"; "SoundCloud"; "Bandcamp"; "Beatport"; "iTunes"] in
  for_each (take count platforms) (fun platform =>
    commission_percentage ← random_uniform2 15 50;
    agreement_status ← random_choice (three_states "pending");
    try_except
      (result ← execute_query
         (Insert t_distribution [VStr platform; commission_percentage; VStr agreement_status]);
       id ← first_cell result;
       push_distribution_id id)
      (fun _ => mret tt)).

(** [album_id, song_id = result[0]] *)
Definition unpack_pair (row : list Val) : M (Val * Val) :=
  match row with
  | [a; b] => mret (a, b)
  | _ => raise ValueError
  end.

Definition generate_song_distributions (count : nat) : M unit :=
  for_each (range 0 count) (fun i =>
    try_except
      (result ← execute_query SelectRandomSong;
       match result with
       | Some (row :: _) =>
           '(album_id, song_id) ← unpack_pair row;
           d_ids ← get (fun w => distribution_ids (self w));
           distribution_id ← random_choice d_ids;
           publish_date ← date_between 2;
           status ← random_choice (three_states "pending");
           execute_query
             (Insert t_song_distribution
                     [song_id; album_id; distribution_id; VDate publish_date; VStr status]) ;;
           mret tt
       | _ => mret tt
       end)
      (fun _ => mret tt)).

Definition generate_contracts (count : nat) : M unit :=
  n ← get (fun w => length (artist_ids (self w)));
  for_each (range 0 (count `min` n)) (fun i =>
    artists ← get (fun w => artist_ids (self w));
    artist_id ← index artists i;
    start_date ← date_between 5;
    days ← random_randint 365 1825;
    let end_date := start_date + days in
    royalty_percentage ← random_uniform2 5 25;
    contract_terms ← fake (fake_paragraph 3);
    now ← get today;
    let status := if now <=? end_date then "active" else "expired" in
    try_except
      (execute_query
         (Insert t_contract [artist_id; VDate start_date; VDate end_date;
                             royalty_percentage; VStr contract_terms; VStr status]) ;;
       mret tt)
      (fun _ => mret tt)).

Definition generate_artist_albums (count : nat) : M unit :=
  for_each (range 0 count) (fun i =>
    try_except
      (a_ids ← get (fun w => artist_ids (self w));
       artist_id ← random_choice a_ids;
       b_ids ← get (fun w => album_ids (self w));
       album_id ← random_choice b_ids;
       role ← random_choice ["featured"; "collaborator"; "featured artist"; "guest"];
       execute_query (Insert t_artist_album [artist_id; album_id; VStr role]) ;;
       mret tt)
      (fun _ => mret tt)).

Definition generate_all : M unit :=
  try_finally
    (try_except
       (connect ;;
        clean_database ;;
        generate_artists 60 ;;
        generate_producers 50 ;;
        generate_studios 20 ;;
        generate_albums 100 ;;
        generate_songs 500 ;;
        generate_recording_sessions 150 ;;
        generate_staff 40 ;;
        generate_engineers 15 ;;
        generate_managers 10 ;;
        generate_distributions 10 ;;
        generate_song_distributions 300 ;;
        generate_contracts 50 ;;
        generate_artist_albums 150)
       (fun _ => mret tt))
    disconnect.

End Generator.

(** ** Something to run the script on

    A small linear congruential generator stands in for the Mersenne
    Twister and for Faker's word lists; both streams start from the
    seed.  It serves to run the script on concrete inputs: the
    statements about every run are made for every instance of [Seeds]. *)

Record Seeded := { py_random : Z; faker : Z }.

Definition lcg (s : Z) : Z := (1103515245 * s + 12345) mod 2147483648.

(** [Faker.seed(42)] and [random.seed(42)] *)
Definition seed42 : Seeded := {| py_random := 42; faker := 42 |}.

Definition lcg_randbelow (n : Z) (r : Seeded) : Z * Seeded :=
  let s := lcg (py_random r) in
  ((s / 16) mod n, {| py_random := s; faker := faker r |}).

Definition lcg_uniform2 (a b : Z) (r : Seeded) : Z * Seeded :=
  let s := lcg (py_random r) in
  (100 * a + (s / 65536) mod (100 * (b - a) + 1), {| py_random := s; faker := faker r |}).

Definition fake_label (f : Fake) : string :=
  match f with
  | fake_name => "name"
  | fake_word => "word"
  | fake_paragraph _ => "paragraph"
  | fake_email => "email"
  | fake_phone_number => "phone"
  | fake_company => "company"
  end.

Definition lcg_fake_text (f : Fake) (r : Seeded) : string * Seeded :=
  let s := lcg (faker r) in
  (String.append (fake_label f) (pretty (s / 65536)), {| py_random := py_random r; faker := s |}).

Definition lcg_date_between (years now : Z) (r : Seeded) : Z * Seeded :=
  let s := lcg (faker r) in
  (now - (s / 65536) mod (365 * years + 1), {| py_random := py_random r; faker := s |}).

(** Modelled from the spec: a PostgreSQL session over the label's
    schema, as far as the generator can observe it (the server and the
    schema file are outside the sources).  Identity columns count from
    1 and are handed out by [RETURNING]; [song] has the composite key
    (album_id, song_id) and ignores a second insert of a key;
    [hit_trigger] is the state of [trg_check_hit_distributions];
    [pg_random] feeds [ORDER BY RANDOM()] and is the server's own
    source, which the script never seeds; [pg_fails k] makes the [k]-th
    statement of the session fail (lost connection, lock timeout,
    missing object). *)
Record PG := {
  serial : Table -> Z;
  song_keys : list (Val * Val);
  hit_trigger : bool;
  pg_random : nat -> nat;
  pg_fails : nat -> bool;
  pg_clock : nat
}.

Definition tick (d : PG) : PG :=
  {| serial := serial d; song_keys := song_keys d; hit_trigger := hit_trigger d;
     pg_random := pg_random d; pg_fails := pg_fails d; pg_clock := S (pg_clock d) |}.

Definition set_trigger (b : bool) (d : PG) : PG :=
  {| serial := serial d; song_keys := song_keys d; hit_trigger := b;
     pg_random := pg_random d; pg_fails := pg_fails d; pg_clock := pg_clock d |}.

Definition set_song_keys (ks : list (Val * Val)) (d : PG) : PG :=
  {| serial := serial d; song_keys := ks; hit_trigger := hit_trigger d;
     pg_random := pg_random d; pg_fails := pg_fails d; pg_clock := pg_clock d |}.

Definition set_serial (t : Table) (z : Z) (d : PG) : PG :=
  {| serial := fun t' => if decide (t' = t) then z else serial d t';
     song_keys := song_keys d; hit_trigger := hit_trigger d;
     pg_random := pg_random d; pg_fails := pg_fails d; pg_clock := pg_clock d |}.

Definition set_pg_random (f : nat -> nat) (d : PG) : PG :=
  {| serial := serial d; song_keys := song_keys d; hit_trigger := hit_trigger d;
     pg_random := f; pg_fails := pg_fails d; pg_clock := pg_clock d |}.

(** Tables emptied along with [t] by [TRUNCATE t CASCADE] that the
    model keeps rows of. *)
Definition truncates_song (t : Table) : bool :=
  match t with
  | t_song | t_album | t_producer => true
  | _ => false
  end.

Definition pg_exec (q : Stmt) (d : PG) : Reply * PG :=
  if pg_fails d (pg_clock d) then (Failed, tick d)
  else
    match q with
    | Truncate t =>
        let d := set_serial t 1 d in
        (NoResult, tick (if truncates_song t then set_song_keys [] d else d))
    | DisableTrigger => (NoResult, tick (set_trigger false d))
    | EnableTrigger => (NoResult, tick (set_trigger true d))
    | Insert t params =>
        if returning t then
          (Rows [[VInt (serial d t)]], tick (set_serial t (serial d t + 1) d))
        else
          match t, params with
          | t_song, album_id :: song_id :: _ =>
              if bool_decide ((album_id, song_id) ∈ song_keys d) then (NoResult, tick d)
              else (NoResult, tick (set_song_keys (song_keys d ++ [(album_id, song_id)]) d))
          | _, _ => (NoResult, tick d)
          end
    | SelectRandomSong =>
        match song_keys d with
        | [] => (Rows [], tick d)
        | k :: ks =>
            let key := nth (pg_random d (pg_clock d) mod length (k :: ks))%nat (k :: ks) k in
            (Rows [[key.1; key.2]], tick d)
        end
    end.

Definition lcg_seeds : Seeds := {|
  Rng := Seeded;
  randbelow := lcg_randbelow;
  randbelow_lt := fun n r Hn => Z.mod_pos_bound (lcg (py_random r) / 16) n Hn;
  uniform2 := lcg_uniform2;
  fake_text := lcg_fake_text;
  fake_date_between := lcg_date_between
|}.

Definition pg : Session := {| DB := PG; db_exec := pg_exec |}.

(** An empty schema right after creation. *)
Definition fresh_pg (random_source : nat -> nat) (fails : nat -> bool) : PG :=
  {| serial := fun _ => 1; song_keys := []; hit_trigger := true;
     pg_random := random_source; pg_fails := fails; pg_clock := 0%nat |}.

(** The state in which [generator.generate_all()] starts when the
    script is run on day [now]. *)
Definition start (now : Z) (d : PG) : @World lcg_seeds pg :=
  @Build_World lcg_seeds pg init seed42 now true d [].

(** The whole script on day [now] against database [d]: the statements
    it sends, in order. *)
Definition script (now : Z) (d : PG) : list Stmt :=
  issued (@generate_all lcg_seeds pg (start now d)).2.

Definition no_failure : nat -> bool := fun _ => false.

(** Only the statement number [n] of the session fails. *)
Definition fails_at (n : nat) : nat -> bool := fun k => Nat.eqb k n.

(** Two sources for [RANDOM()]. *)
Definition random_a : nat -> nat := fun k => k.

Definition random_b : nat -> nat := fun k => S k.

(** ** Vocabulary of the statements about the generator *)

Definition inserts_into (t : Table) (q : Stmt) : bool :=
  match q with
  | Insert t' _ => bool_decide (t' = t)
  | _ => false
  end.

(** Positions in a record of statements at which a row of [t] is
    inserted, and the first bound parameter of those inserts. *)
Definition positions (t : Table) (trace : list Stmt) : list nat :=
  (fun iq => iq.1) <$> filter (fun iq => inserts_into t iq.2 = true) (imap pair trace).

Definition attempted (t : Table) (trace : list Stmt) : list Val :=
  omap (fun q => match q with
                 | Insert t' (v :: _) => if decide (t' = t) then Some v else None
                 | _ => None
                 end) trace.

(** The place of the [generate_...] call for each table in the body of
    [generate_all], counted from 1. *)
Definition step_of (t : Table) : nat :=
  match t with
  | t_artist => 1 | t_producer => 2 | t_studio => 3 | t_album => 4 | t_song => 5
  | t_recording_session => 6 | t_staff => 7 | t_engineer => 8 | t_manager => 9
  | t_distribution => 10 | t_song_distribution => 11 | t_contract => 12
  | t_artist_album => 13
  end.

(** The call of [generate_all] that sends a statement; [clean_database]
    is call 0. *)
Definition phase (q : Stmt) : nat :=
  match q with
  | Truncate _ => 0
  | DisableTrigger | EnableTrigger => 5
  | Insert t _ => step_of t
  | SelectRandomSong => 11
  end.

(** The tables whose keys the rows of [t] carry: the id pools (or, for
    [t_song_distribution], the table) the generating method reads. *)
Definition references (t : Table) : list Table :=
  match t with
  | t_album => [t_producer]
  | t_song => [t_album]
  | t_recording_session => [t_artist; t_producer; t_studio]
  | t_engineer => [t_staff; t_studio]
  | t_manager => [t_staff]
  | t_song_distribution => [t_song; t_distribution]
  | t_contract => [t_artist]
  | t_artist_album => [t_artist; t_album]
  | _ => []
  end.

(** The statement of a loop iteration over index [i] inserts into [t]
    with the [i]-th staff id as its first parameter. *)
Definition staff_insert (t : Table) (staff : list Val) (i : nat) (q : Stmt) : Prop :=
  exists id rest, staff !! i = Some id /\ q = Insert t (id :: rest).

(** Every insertion into [t1] comes before every insertion into [t2]. *)
Definition all_before (t1 t2 : Table) (trace : list Stmt) : Prop :=
  forall i j p1 p2,
    trace !! i = Some (Insert t1 p1) -> trace !! j = Some (Insert t2 p2) -> (i < j)%nat.

Definition phase_sorted (l : list Stmt) : Prop :=
  forall i j a b, l !! i = Some a -> l !! j = Some b -> (i <= j)%nat -> (phase a <= phase b)%nat.

(** A statement with the song of a [song_distribution] row blanked. *)
Definition erase_song_pick (q : Stmt) : Stmt :=
  match q with
  | Insert t_song_distribution (_ :: _ :: rest) =>
      Insert t_song_distribution (VNull :: VNull :: rest)
  | _ => q
  end.

(** Two sessions that agree on everything but the source of
    [RANDOM()]. *)
Definition same_but_random (d1 d2 : PG) : Prop :=
  serial d1 = serial d2 /\ song_keys d1 = song_keys d2 /\
  hit_trigger d1 = hit_trigger d2 /\ pg_fails d1 = pg_fails d2 /\
  pg_clock d1 = pg_clock d2.

Definition res_rel {A} (RA : A -> A -> Prop) (r1 r2 : Exn + A) : Prop :=
  match r1, r2 with
  | inl e1, inl e2 => e1 = e2
  | inr a1, inr a2 => RA a1 a2
  | _, _ => False
  end.

(** Two answers to the random-song query: both empty, or one row of two
    cells each. *)
Definition pick_rel (r1 r2 : option (list (list Val))) : Prop :=
  (r1 = Some [] /\ r2 = Some []) \/
  (exists a1 s1 a2 s2, r1 = Some [[a1; s1]] /\ r2 = Some [[a2; s2]]).

Section Vocabulary.

Context `{Seeds} `{Session}.

(** The statements sent between two states of a run. *)
Definition emitted (w w' : World) : list Stmt := drop (length (issued w)) (issued w').

Definition run_stmts (qs : list Stmt) (d : DB) : DB :=
  foldl (fun d q => (db_exec q d).2) d qs.

(** [m] only adds statements satisfying [P] to the record, and the
    database is what those statements made of it. *)
Definition emits {A} (P : Stmt -> Prop) (m : M A) : Prop :=
  forall w, exists l,
    issued (m w).2 = issued w ++ l /\ Forall P l /\ db (m w).2 = run_stmts l (db w).

Definition emits_within {A} (lo hi : nat) (m : M A) : Prop :=
  forall w, exists l,
    issued (m w).2 = issued w ++ l /\
    Forall (fun q => (lo <= phase q <= hi)%nat) l /\ phase_sorted l.

(** One iteration of a loop that attempts one insert: the statement
    and what became of the database. *)
Definition one_insert (w w' : World) (q : Stmt) : Prop :=
  issued w' = issued w ++ [q] /\ db w' = (db_exec q (db w)).2.

(** One iteration of the song loop: the object is untouched and one
    song insert went to the database. *)
Definition song_step (w w' : World) : Prop :=
  self w' = self w /\
  exists q, inserts_into t_song q = true /\
            issued w' = issued w ++ [q] /\ db w' = (db_exec q (db w)).2.

End Vocabulary.

Section PgVocabulary.

Context `{Seeds}.

(** Two runs against [pg] that may differ in the source of [RANDOM()]
    and in the songs picked with it, and in nothing else. *)
Definition sim (w1 w2 : @World _ pg) : Prop :=
  self w1 = self w2 /\ rng w1 = rng w2 /\ today w1 = today w2 /\
  reachable w1 = reachable w2 /\ same_but_random (db w1) (db w2) /\
  erase_song_pick <$> issued w1 = erase_song_pick <$> issued w2.

Definition rel {A} (RA : A -> A -> Prop) (m1 m2 : @M _ pg A) : Prop :=
  forall w1 w2, sim w1 w2 ->
    res_rel RA (m1 w1).1 (m2 w2).1 /\ sim (m1 w1).2 (m2 w2).2.

Definition stable {A} (m : @M _ pg A) : Prop := rel eq m m.

(** The same state with another source behind [RANDOM()]. *)
Definition with_random (f : nat -> nat) (w : @World _ pg) : @World _ pg :=
  @set_db _ pg (set_pg_random f (db w)) w.

End PgVocabulary.

(** A generator that already holds staff and studio ids, connected to
    [d]. *)
Definition staffed_world (staff studios : list Val) (d : PG) : @World lcg_seeds pg :=
  @Build_World lcg_seeds pg
    {| connected := true; artist_ids := []; producer_ids := []; studio_ids := studios;
       album_ids := []; distribution_ids := []; staff_ids := staff;
       engineer_ids := []; manager_ids := [] |}
    seed42 739000 true d [].

(** A generator that already holds album ids, connected to [d]. *)
Definition songs_world (albums : list Val) (d : PG) : @World lcg_seeds pg :=
  @Build_World lcg_seeds pg
    {| connected := true; artist_ids := []; producer_ids := []; studio_ids := [];
       album_ids := albums; distribution_ids := []; staff_ids := [];
       engineer_ids := []; manager_ids := [] |}
    seed42 739000 true d [].

End SEED_DATA.

(** * Archivos/APP.py: the list, creation and health routes *)
Module APP_routes.

Import APP.

(** The statements of these routes with their bound parameters.
    [ListSongs] carries the bound [album_id] when the text has the
    WHERE clause. *)
Inductive Query :=
| ListArtists
| ListAlbums
| ListSongs (album_id : option string)
| ListHitSongs
| ListProducers
| InsertAlbum (title release_date producer_id status genre label_name : Val)
| InsertSong (album_id song_id title duration composer streams_count is_hit : Val).

(** [query.strip().upper().startswith('SELECT')] *)
Definition is_select (q : Query) : bool :=
  match q with
  | ListArtists | ListAlbums | ListSongs _ | ListHitSongs | ListProducers => true
  | InsertAlbum _ _ _ _ _ _ | InsertSong _ _ _ _ _ _ _ => false
  end.

(** The body of an answer: a JSON object or an array of objects. *)
Inductive Json :=
| JObject (r : Row)
| JArray (rs : list Row).

Definition Answer : Type := Json * Z.

Section Routes.

(** [cur.execute(query, params)] on the statements above: the cursor
    and the new contents, or the text of the exception raised.  What
    PostgreSQL answers to them is outside the sources and is left
    open. *)
Variable cur_execute : Store -> Query -> string + (Store * Cursor).

(** [execute_query], on the statements of these routes. *)
Definition execute_query (q : Query) (fetch_one : bool) (sv : Server) : QueryResult * Server :=
  let '(conn, sv) := get_db_connection sv in
  if negb conn then (QNone, sv)
  else
    match cur_execute (store sv) q with
    | inr (s', cur) =>
        if is_select q then
          if fetch_one then
            (match fetchone cur with Some r => QRow r | None => QNone end, sv)
          else (QRows (fetchall cur), sv)
        else (QCount (rowcount cur), with_store sv s')
    | inl _ => (QNone, sv)
    end.

(** [jsonify([dict(row) for row in result])] after the [None] check;
    a result that is not a list of rows ends in the handler for
    status 500. *)
Definition listing (failure : string) (result : QueryResult) : Answer :=
  match result with
  | QNone => (JObject (error failure), 500)
  | QRows rs => (JArray rs, 200)
  | _ => (JObject (error "Error interno del servidor"), 500)
  end.

Definition get_artists (sv : Server) : Answer * Server :=
  let '(result, sv) := execute_query ListArtists false sv in
  (listing "Error al obtener artistas" result, sv).

Definition get_albums (sv : Server) : Answer * Server :=
  let '(result, sv) := execute_query ListAlbums false sv in
  (listing "Error al obtener álbumes" result, sv).

(** [album_id] is [request.args.get('album_id')]: the text of the
    query-string parameter, or [None]; the empty text is falsy. *)
Definition get_songs (album_id : option string) (sv : Server) : Answer * Server :=
  let params :=
    match album_id with
    | Some s => if String.eqb s "" then None else Some s
    | None => None
    end in
  let '(result, sv) := execute_query (ListSongs params) false sv in
  (listing "Error al obtener canciones" result, sv).

Definition get_hit_songs (sv : Server) : Answer * Server :=
  let '(result, sv) := execute_query ListHitSongs false sv in
  (listing "Error al obtener canciones hit" result, sv).

Definition get_producers (sv : Server) : Answer * Server :=
  let '(result, sv) := execute_query ListProducers false sv in
  (listing "Error al obtener productores" result, sv).

Definition album_required_fields : list string :=
  ["title"; "release_date"; "producer_id"; "genre"].

Definition insert_album_query (data : Row) : Query :=
  InsertAlbum (dict_get data "title" VNull)
              (dict_get data "release_date" VNull)
              (dict_get data "producer_id" VNull)
              (dict_get data "status" (VStr "draft"))
              (dict_get data "genre" VNull)
              (dict_get data "label_name" (VStr "")).

(** [conn.commit()] comes before the answer is built from [result]:
    an exception raised while building it finds nothing left to roll
    back. *)
Definition create_album (data : Row) (sv : Server) : Response * Server :=
  if negb (has_all data album_required_fields) then
    ((error "Campos requeridos faltantes", 400), sv)
  else
    let query := insert_album_query data in
    let '(conn, sv) := get_db_connection sv in
    if negb conn then ((error "Error de conexión", 500), sv)
    else
      match cur_execute (store sv) query with
      | inr (s', cur) =>
          let result := fetchone cur in
          let sv := with_store sv s' in
          match result with
          | Some result =>
              match result !! "album_id" with
              | Some id =>
                  ((<["album_id" := id]> {[ "message" := VStr "Álbum creado exitosamente" ]}, 201),
                   sv)
              | None => ((error "'album_id'", 400), sv)
              end
          | None => ((error "'NoneType' object is not subscriptable", 400), sv)
          end
      | inl msg => ((error msg, 400), sv)
      end.

Definition song_required_fields : list string :=
  ["album_id"; "song_id"; "title"; "duration"; "composer"].

Definition insert_song_query (data : Row) : Query :=
  InsertSong (dict_get data "album_id" VNull)
             (dict_get data "song_id" VNull)
             (dict_get data "title" VNull)
             (dict_get data "duration" VNull)
             (dict_get data "composer" VNull)
             (dict_get data "streams_count" (VInt 0))
             (dict_get data "is_hit" (VBool false)).

Definition create_song (data : Row) (sv : Server) : Response * Server :=
  if negb (has_all data song_required_fields) then
    ((error "Campos requeridos faltantes", 400), sv)
  else
    let query := insert_song_query data in
    let '(conn, sv) := get_db_connection sv in
    if negb conn then ((error "Error de conexión", 500), sv)
    else
      match cur_execute (store sv) query with
      | inr (s', cur) =>
          let result := fetchone cur in
          let sv := with_store sv s' in
          match result with
          | Some result =>
              match result !! "song_id", result !! "album_id" with
              | Some song_id, Some album_id =>
                  ((<["song_id" := song_id]>
                    (<["album_id" := album_id]>
                     {[ "message" := VStr "Canción creada exitosamente" ]}), 201), sv)
              | None, _ => ((error "'song_id'", 400), sv)
              | Some _, None => ((error "'album_id'", 400), sv)
              end
          | None => ((error "'NoneType' object is not subscriptable", 400), sv)
          end
      | inl msg => ((error msg, 400), sv)
      end.

Definition health (sv : Server) : Response * Server :=
  let '(conn, sv) := get_db_connection sv in
  if conn then
    ((<["status" := VStr "healthy"]> {[ "database" := VStr "connected" ]}, 200), sv)
  else
    ((<["status" := VStr "unhealthy"]> {[ "database" := VStr "disconnected" ]}, 500), sv).

End Routes.

(** ** Vocabulary of the statements about the routes *)

(** What a write handler may do to the server: the storage changes only
    when the answer has status [ok], and at most one connection is
    attempted. *)
Definition unchanged_unless (ok : Z) (sv : Server) (out : Response * Server) : Prop :=
  (out.1.2 <> ok -> store out.2 = store sv) /\
  up out.2 = up sv /\
  (dials sv <= dials out.2 <= S (dials sv))%nat.

(** The [k]-th connection attempt from now fails, or the storage
    refuses [q]: [execute_query] returns [None]. *)
Definition query_fails (schema_rejects : Store -> Sql -> option string)
    (sv : Server) (k : nat) (q : Sql) : Prop :=
  up sv (dials sv + k)%nat = false \/ schema_rejects (store sv) q <> None.

(** What a list route answers for statement [q]: one connection
    attempt and the storage as it was; the route's error with status
    500 when the connection or the statement fails; the rows of the
    cursor, however many, with status 200 otherwise. *)
Definition lists (cur_execute : Store -> Query -> string + (Store * Cursor))
    (q : Query) (failure : string) (sv : Server) (out : Answer * Server) : Prop :=
  out.2 = dialed sv /\
  (up sv (dials sv) = false -> out.1 = (JObject (error failure), 500)) /\
  (forall msg, up sv (dials sv) = true -> cur_execute (store sv) q = inl msg ->
     out.1 = (JObject (error failure), 500)) /\
  (forall s' cur, up sv (dials sv) = true -> cur_execute (store sv) q = inr (s', cur) ->
     out.1 = (JArray (fetchall cur), 200)).

(** Rows that were stored before are stored afterwards, unchanged. *)
Definition keeps_rows (before after : gmap Z Row) : Prop :=
  forall k row, before !! k = Some row -> after !! k = Some row.

(** A storage that answers every statement of the list routes with the
    given rows and refuses the insertions. *)
Definition answers_with (rows : list Row) : Store -> Query -> string + (Store * Cursor) :=
  fun s q =>
    if is_select q then inr (s, {| fetchall := rows; rowcount := Z.of_nat (length rows) |})
    else inl "permission denied".

(** A storage that accepts an insertion without handing back a row. *)
Definition returns_nothing : Store -> Query -> string + (Store * Cursor) :=
  fun s q =>
    inr ({| artist := artist s; album := album s; producer := producer s;
            song := song s ++ [∅]; contract := contract s; artist_seq := artist_seq s |},
         {| fetchall := []; rowcount := 1 |}).

(** A payload without any field the routes know. *)
Definition unknown_body : Row := {[ "shoe_size" := VInt 42 ]}.

(** A schema that refuses every statement. *)
Definition rejects_all : Store -> Sql -> option string :=
  fun _ _ => Some "permission denied".

Definition new_album_body : Row :=
  <["title" := VStr "Uno"]> (<["release_date" := VStr "2021-01-01"]>
  (<["producer_id" := VInt 1]> (<["genre" := VStr "pop"]> ∅))).

Definition new_song_body : Row :=
  <["album_id" := VInt 3]> (<["song_id" := VInt 1]> (<["title" := VStr "T"]>
  (<["duration" := VInt 200]> (<["composer" := VStr "C"]> ∅)))).

End APP_routes.

(** * Vocabulary of the further statements about the generator *)
Module SEED_vocabulary.

Import SEED_DATA.

(** The attribute of the generator object that collects the keys of
    table [t]. *)
Definition pool_of (t : Table) (g : DataGenerator) : list Val :=
  match t with
  | t_artist => artist_ids g
  | t_producer => producer_ids g
  | t_studio => studio_ids g
  | t_album => album_ids g
  | t_distribution => distribution_ids g
  | t_staff => staff_ids g
  | t_engineer => engineer_ids g
  | t_manager => manager_ids g
  | _ => []
  end.

(** The bound parameters of an insertion into [t] that the generator
    takes from an id pool, each with the table the pool belongs to; the
    positions are those of the column lists in the statement texts. *)
Definition foreign_keys (t : Table) (params : list Val) : list (Table * Val) :=
  match t with
  | t_album => [(t_producer, nth 2 params VNull)]
  | t_song => [(t_album, nth 0 params VNull)]
  | t_recording_session =>
      [(t_artist, nth 0 params VNull); (t_producer, nth 1 params VNull);
       (t_studio, nth 2 params VNull)]
  | t_engineer => [(t_staff, nth 0 params VNull); (t_studio, nth 3 params VNull)]
  | t_manager => [(t_staff, nth 0 params VNull)]
  | t_song_distribution => [(t_distribution, nth 2 params VNull)]
  | t_contract => [(t_artist, nth 0 params VNull)]
  | t_artist_album => [(t_artist, nth 0 params VNull); (t_album, nth 1 params VNull)]
  | _ => []
  end.

(** Every key that [q] takes from a pool is in that pool of [g]. *)
Definition keys_in_pools (g : DataGenerator) (q : Stmt) : Prop :=
  match q with
  | Insert t params => Forall (fun tv => tv.2 ∈ pool_of tv.1 g) (foreign_keys t params)
  | _ => True
  end.

(** An insertion into [song] as [generate_songs] builds it. *)
Definition song_row_ok (q : Stmt) : Prop :=
  match q with
  | Insert t_song params =>
      exists album_id song_id title duration composer streams_count,
        params = [album_id; VInt song_id; VStr title; VInt duration; VStr composer;
                  VInt streams_count; VBool (1000000 <=? streams_count)] /\
        1 <= song_id <= 20 /\ 120 <= duration <= 420 /\ 0 <= streams_count <= 10000000
  | _ => True
  end.

(** An insertion into [contract] as [generate_contracts] builds it on
    day [now]. *)
Definition contract_row_ok (now : Z) (q : Stmt) : Prop :=
  match q with
  | Insert t_contract params =>
      exists artist_id start_date end_date royalty terms,
        params = [artist_id; VDate start_date; VDate end_date; royalty; VStr terms;
                  VStr (if now <=? end_date then "active" else "expired")] /\
        365 <= end_date - start_date <= 1825
  | _ => True
  end.

(** The values [generate_all] draws for the columns with a fixed set of
    values or a fixed range, by table. *)
Definition column_domains_ok (q : Stmt) : Prop :=
  match q with
  | Insert t_artist params =>
      exists name genre contract_date contract_status biography nationality,
        params = [VStr name; VStr genre; VDate contract_date; VStr contract_status;
                  VStr biography; VStr nationality] /\
        genre ∈ genres /\ contract_status ∈ ["active"; "inactive"; "suspended"]
  | Insert t_producer params =>
      exists name specialty years_experience email phone,
        params = [VStr name; VStr specialty; VInt years_experience; VStr email; VStr phone] /\
        1 <= years_experience <= 40
  | Insert t_studio params =>
      exists name location capacity equipment hourly_rate,
        params = [VStr name; VStr location; VInt capacity; VStr equipment; hourly_rate] /\
        4 <= capacity <= 30
  | Insert t_album params =>
      exists title release_date producer_id status genre label_name,
        params = [VStr title; VDate release_date; producer_id; VStr status; VStr genre;
                  VStr label_name] /\
        status ∈ ["draft"; "released"; "archived"] /\ genre ∈ genres
  | Insert t_recording_session params =>
      exists artist_id producer_id studio_id session_date start_time duration_hours,
        params = [artist_id; producer_id; studio_id; VDate session_date; VStr start_time;
                  duration_hours; VInt 0]
  | Insert t_manager params =>
      exists manager_id commission_percentage artists_managed,
        params = [manager_id; commission_percentage; VInt artists_managed] /\
        1 <= artists_managed <= 10
  | Insert t_distribution params =>
      exists platform commission_percentage agreement_status,
        params = [VStr platform; commission_percentage; VStr agreement_status] /\
        agreement_status ∈ ["active"; "inactive"; "pending"]
  | Insert t_song_distribution params =>
      exists song_id album_id distribution_id publish_date status,
        params = [song_id; album_id; distribution_id; VDate publish_date; VStr status] /\
        status ∈ ["active"; "inactive"; "pending"]
  | Insert t_artist_album params =>
      exists artist_id album_id role,
        params = [artist_id; album_id; VStr role] /\
        role ∈ ["featured"; "collaborator"; "featured artist"; "guest"]
  | _ => True
  end.

Section Logic.

Context `{Seeds} `{Session}.

(** From [w] to [w'] every id pool was only appended to, and the date
    is the same. *)
Definition grows (w w' : World) : Prop :=
  today w' = today w /\
  forall t, pool_of t (self w) `prefix_of` pool_of t (self w').

(** A condition on the state that survives appending to the pools. *)
Definition lasting (C : World -> Prop) : Prop :=
  forall w w', grows w w' -> C w -> C w'.

(** [a] was read by [f] from an earlier state, in which [C] held. *)
Definition known {A} (C : World -> Prop) (f : World -> A) (w : World) (a : A) : Prop :=
  exists w0, grows w0 w /\ C w0 /\ a = f w0.

(** Started where [Pre] holds, [m] only appends to the pools, the
    statements it sends satisfy [P] in the state it ends in, a result
    it returns satisfies [Q] there, and an exception it raises
    satisfies [E]. *)
Definition triple {A} (Pre : World -> Prop) (P : World -> Stmt -> Prop) (E : Exn -> Prop)
    (m : M A) (Q : World -> A -> Prop) : Prop :=
  forall w, Pre w ->
    grows w (m w).2 /\
    (exists l, issued (m w).2 = issued w ++ l /\ Forall (P (m w).2) l) /\
    match (m w).1 with
    | inr a => Q (m w).2 a
    | inl e => E e
    end.

(** [m] may be started anywhere and may raise anything; every
    statement it sends satisfies [P] in the state it ends in. *)
Definition sends {A} (P : World -> Stmt -> Prop) (m : M A) : Prop :=
  triple (fun _ => True) P (fun _ => True) m (fun _ _ => True).

(** The answers of the session to the statements [qs], sent in order
    from [d]. *)
Fixpoint replies (qs : list Stmt) (d : DB) : list Reply :=
  match qs with
  | [] => []
  | q :: rest => (db_exec q d).1 :: replies rest (db_exec q d).2
  end.

End Logic.

(** What the generator appends to the pool of [t] when statement [q]
    is answered [r]: the key handed back by [RETURNING], or, for
    [engineer] and [manager], the staff id of a row the session did not
    refuse. *)
Definition recorded (t : Table) (q : Stmt) (r : Reply) : option Val :=
  match q with
  | Insert t' params =>
      if decide (t' = t) then
        if returning t then
          match r with
          | Rows ((v :: _) :: _) => Some v
          | _ => None
          end
        else
          match t, r with
          | (t_engineer | t_manager), (NoResult | Rows _) => head params
          | _, _ => None
          end
      else None
  | _ => None
  end.

Section Provenance.

Context `{Seeds} `{Session}.

(** The statements of [qs] that go out when they are sent in order
    from [d] and the first failure ends the sending. *)
Fixpoint until_failure (qs : list Stmt) (d : DB) : list Stmt :=
  match qs with
  | [] => []
  | q :: rest =>
      match db_exec q d with
      | (Failed, _) => [q]
      | (_, d') => q :: until_failure rest d'
      end
  end.

(** What the statements [qs], sent in order from [d], add to the pool
    of [t]. *)
Definition recorded_all (t : Table) (qs : list Stmt) (d : DB) : list Val :=
  omap (fun qr => recorded t qr.1 qr.2) (zip qs (replies qs d)).

(** From [w] to [w'] statements were sent, the database is what they
    made of it, and every pool grew by what they added to it. *)
Definition tracked (w w' : World) : Prop :=
  exists l, issued w' = issued w ++ l /\ db w' = run_stmts l (db w) /\
            forall t, pool_of t (self w') = pool_of t (self w) ++ recorded_all t l (db w).

Definition tracks {A} (m : M A) : Prop := forall w, tracked w (m w).2.

(** [push v] appends [v] to the pool of [t] and does nothing else. *)
Definition pushes (t : Table) (push : Val -> M unit) : Prop :=
  forall v w, exists w',
    push v w = (inr tt, w') /\ issued w' = issued w /\ db w' = db w /\
    connected (self w') = connected (self w) /\
    pool_of t (self w') = pool_of t (self w) ++ [v] /\
    forall t', t' <> t -> pool_of t' (self w') = pool_of t' (self w).

(** How a step that inserts [n] rows into [t] one by one, each time
    keeping the key handed back, may end: with [n] statements sent and
    [n] keys kept, or with an exception right after the statement that
    brought no key. *)
Definition all_or_stopped (t : Table) (n : nat) (w : World) (out : (Exn + unit) * World) : Prop :=
  exists new l,
    pool_of t (self out.2) = pool_of t (self w) ++ new /\
    issued out.2 = issued w ++ l /\
    Forall (fun q => inserts_into t q = true) l /\
    match out.1 with
    | inr _ => length new = n /\ length l = n
    | inl _ => (length new < n)%nat /\ length l = S (length new)
    end.

(** [m] sends nothing and leaves the object and the database alone. *)
Definition silent {A} (m : M A) : Prop :=
  forall w, issued (m w).2 = issued w /\ db (m w).2 = db w /\ self (m w).2 = self w.

(** [m] does so on a generator without open connection. *)
Definition idle {A} (m : M A) : Prop :=
  forall w, connected (self w) = false ->
    issued (m w).2 = issued w /\ db (m w).2 = db w /\ self (m w).2 = self w.

(** The calls that follow [connect] in [generate_all], each with the
    count [n]. *)
Definition steps (n : nat) : list (M unit) :=
  [clean_database; generate_artists n; generate_producers n; generate_studios n;
   generate_albums n; generate_songs n; generate_recording_sessions n; generate_staff n;
   generate_engineers n; generate_managers n; generate_distributions n;
   generate_song_distributions n; generate_contracts n; generate_artist_albums n].

End Provenance.

Section Picks.

Context `{Session}.

(** The statements of [generate_song_distributions], sent in order
    from [d]: each SELECT of a random song is followed by at most one
    insertion into [song_distribution], and that insertion carries the
    song the SELECT returned, its two columns in the order (song_id,
    album_id) of the INSERT. *)
Fixpoint picks_ok (qs : list Stmt) (d : DB) : Prop :=
  match qs with
  | [] => True
  | SelectRandomSong :: rest =>
      let r := (db_exec SelectRandomSong d).1 in
      let d1 := (db_exec SelectRandomSong d).2 in
      match rest with
      | Insert t_song_distribution params :: rest' =>
          (exists album_id song_id more others,
             r = Rows ([album_id; song_id] :: more) /\
             params = song_id :: album_id :: others) /\
          picks_ok rest' (db_exec (Insert t_song_distribution params) d1).2
      | _ => picks_ok rest d1
      end
  | _ => False
  end.

End Picks.

(** The platforms of [generate_distributions], in the order of the
    source. *)
Definition platforms : list string :=
  ["Spotify"; "Apple Music"; "YouTube Music"; "Amazon Music"; "Tidal";
   "Deezer"; "SoundCloud"; "Bandcamp"; "Beatport"; "iTunes"].

(** A generator that holds ids of artists, producers and studios,
    connected to [d]. *)
Definition booked_world (artists producers studios : list Val) (d : PG) : @World lcg_seeds pg :=
  @Build_World lcg_seeds pg
    {| connected := true; artist_ids := artists; producer_ids := producers;
       studio_ids := studios; album_ids := []; distribution_ids := []; staff_ids := [];
       engineer_ids := []; manager_ids := [] |}
    seed42 739000 true d [].

(** The state right after [connect] when the script is run on day
    [now]. *)
Definition connected_start (now : Z) (d : PG) : @World lcg_seeds pg :=
  (@connect lcg_seeds pg (start now d)).2.

(** The script started while the server is down. *)
Definition start_offline (now : Z) (d : PG) : @World lcg_seeds pg :=
  @Build_World lcg_seeds pg init seed42 now false d [].

(** A generator that still holds a connection to [d] while the server
    no longer accepts new ones. *)
Definition stranded (now : Z) (d : PG) : @World lcg_seeds pg :=
  @Build_World lcg_seeds pg
    {| connected := true; artist_ids := []; producer_ids := []; studio_ids := [];
       album_ids := []; distribution_ids := []; staff_ids := [];
       engineer_ids := []; manager_ids := [] |}
    seed42 now false d [].

End SEED_vocabulary.

(** * Facts about the API service *)
Module APP_facts.

Import APP.

Section HandlerFacts.

Variable schema_rejects : Store -> Sql -> option string.

(** ** The update loop *)

Lemma collect_updates_omap allowed (data : Row) :
  collect_updates allowed data = omap (fun f => (f,.) <$> data !! f) allowed.
Proof.
  unfold collect_updates.
  enough (forall acc, foldl (fun updates field =>
           match data !! field with
           | Some v => updates ++ [(field, v)]
           | None => updates
           end) acc allowed = acc ++ omap (fun f => (f,.) <$> data !! f) allowed) as E
    by apply (E []).
  induction allowed as [|f fs IH]; intros acc; simpl.
  - by rewrite app_nil_r.
  - rewrite IH. destruct (data !! f); simpl; [by rewrite <- app_assoc | done].
Qed.

Lemma apply_sets_frame us (r : Row) col :
  col ∉ us.*1 -> apply_sets us r !! col = r !! col.
Proof.
  revert r. induction us as [|[f v] us IH]; intros r Hn; [done|].
  simpl in *. change (apply_sets us (<[f:=v]> r) !! col = r !! col).
  apply not_elem_of_cons in Hn as [Hne Hn].
  rewrite IH by done. by apply lookup_insert_ne.
Qed.

Lemma apply_sets_written us (r : Row) col v :
  NoDup us.*1 -> (col, v) ∈ us -> apply_sets us r !! col = Some v.
Proof.
  revert r. induction us as [|[f x] us IH]; intros r Hnd Hin; [by apply elem_of_nil in Hin|].
  simpl in *. change (apply_sets us (<[f:=x]> r) !! col = Some v).
  apply NoDup_cons in Hnd as [Hf Hnd].
  apply elem_of_cons in Hin as [Heq|Hin].
  - simplify_eq. rewrite apply_sets_frame by done. apply lookup_insert_eq.
  - by apply IH.
Qed.

Lemma collect_updates_fst allowed (data : Row) col :
  col ∈ (collect_updates allowed data).*1 <-> col ∈ allowed /\ is_Some (data !! col).
Proof.
  rewrite collect_updates_omap. induction allowed as [|f fs IH]; simpl.
  - split; [intros Hin | intros [Hin _]]; by apply elem_of_nil in Hin.
  - destruct (data !! f) as [v|] eqn:E; simpl.
    + rewrite elem_of_cons, IH, elem_of_cons. split.
      * intros [->|[? ?]]; eauto.
      * intros [[->|?] ?]; eauto.
    + rewrite IH, elem_of_cons. split.
      * intros [? ?]; eauto.
      * intros [[->|?] [x ?]]; [congruence | eauto].
Qed.

Lemma collect_updates_elem allowed (data : Row) col v :
  (col, v) ∈ collect_updates allowed data <-> col ∈ allowed /\ data !! col = Some v.
Proof.
  rewrite collect_updates_omap, list_elem_of_omap. split.
  - intros (f & Hf & E). destruct (data !! f) eqn:D; simpl in E; [|done].
    by simplify_eq.
  - intros [Hin E]. exists col. by rewrite E.
Qed.

Lemma collect_updates_NoDup allowed (data : Row) :
  NoDup allowed -> NoDup (collect_updates allowed data).*1.
Proof.
  rewrite collect_updates_omap. induction 1 as [|f fs Hf Hnd IH]; simpl; [constructor|].
  destruct (data !! f) as [v|] eqn:E; simpl; [|done].
  constructor; [|done].
  intros Hin. apply Hf.
  pose proof (collect_updates_fst fs data f) as C. rewrite collect_updates_omap in C.
  by apply C in Hin as [? _].
Qed.

Lemma artist_allowed_NoDup : NoDup artist_allowed_fields.
Proof.
  apply NoDup_ListNoDup. unfold artist_allowed_fields.
  repeat constructor; simpl; intuition discriminate.
Qed.

Lemma album_allowed_NoDup : NoDup album_allowed_fields.
Proof.
  apply NoDup_ListNoDup. unfold album_allowed_fields.
  repeat constructor; simpl; intuition discriminate.
Qed.








Lemma alter_absent {A} (f : A -> A) (k : Z) (m : gmap Z A) :
  m !! k = None -> alter f k m = m.
Proof.
  intros E. apply map_eq. intros j. destruct (decide (j = k)) as [->|Hne].
  - by rewrite lookup_alter_eq, E.
  - by rewrite lookup_alter_ne.
Qed.

Lemma store_eta (s : Store) :
  {| artist := artist s; album := album s; producer := producer s; song := song s;
     contract := contract s; artist_seq := artist_seq s |} = s.
Proof. by destruct s. Qed.

(** ** The handlers, path by path *)

Lemma update_artist_run (id : Z) (data : Row) (sv : Server) :
  update_artist schema_rejects id data sv =
  let updates := collect_updates artist_allowed_fields data in
  if bool_decide (updates = []) then ((error "No hay campos para actualizar", 400), sv)
  else if negb (up sv (dials sv)) then ((error "Error de conexión", 500), dialed sv)
  else match schema_rejects (store sv) (UpdateArtist updates id) with
       | Some msg => ((error msg, 400), dialed sv)
       | None =>
           (({[ "message" := VStr "Artista actualizado exitosamente" ]}, 200),
            with_store (dialed sv)
              {| artist := alter (apply_sets updates) id (artist (store sv));
                 album := album (store sv); producer := producer (store sv);
                 song := song (store sv); contract := contract (store sv);
                 artist_seq := artist_seq (store sv) |})
       end.
Proof.
  unfold update_artist, get_db_connection, cur_execute, dialed. simpl.
  destruct (collect_updates artist_allowed_fields data) as [|u us]; [done|].
  rewrite bool_decide_eq_false_2 by done.
  destruct (up sv (dials sv)); simpl; [|done].
  by destruct (schema_rejects _ _).
Qed.

Lemma update_album_run (id : Z) (data : Row) (sv : Server) :
  update_album schema_rejects id data sv =
  let updates := collect_updates album_allowed_fields data in
  if bool_decide (updates = []) then ((error "No hay campos para actualizar", 400), sv)
  else if negb (up sv (dials sv)) then ((error "Error de conexión", 500), dialed sv)
  else match schema_rejects (store sv) (UpdateAlbum updates id) with
       | Some msg => ((error msg, 400), dialed sv)
       | None =>
           (({[ "message" := VStr "Álbum actualizado exitosamente" ]}, 200),
            with_store (dialed sv)
              {| artist := artist (store sv);
                 album := alter (apply_sets updates) id (album (store sv));
                 producer := producer (store sv);
                 song := song (store sv); contract := contract (store sv);
                 artist_seq := artist_seq (store sv) |})
       end.
Proof.
  unfold update_album, get_db_connection, cur_execute, dialed. simpl.
  destruct (collect_updates album_allowed_fields data) as [|u us]; [done|].
  rewrite bool_decide_eq_false_2 by done.
  destruct (up sv (dials sv)); simpl; [|done].
  by destruct (schema_rejects _ _).
Qed.

Lemma get_artist_absent (id : Z) (sv : Server) :
  artist (store sv) !! id = None ->
  get_artist schema_rejects id sv = ((error "Artista no encontrado", 404), dialed sv).
Proof.
  intros E. unfold get_artist, execute_query, get_db_connection, cur_execute, dialed. simpl.
  destruct (up sv (dials sv)); simpl; [|done].
  destruct (schema_rejects _ _); [done|]. simpl. unfold fetchone. simpl. by rewrite E.
Qed.

Lemma get_album_absent (id : Z) (sv : Server) :
  album (store sv) !! id = None ->
  get_album schema_rejects id sv = ((error "Álbum no encontrado", 404), dialed sv).
Proof.
  intros E. unfold get_album, execute_query, get_db_connection, cur_execute, dialed. simpl.
  destruct (up sv (dials sv)); simpl; [|done].
  destruct (schema_rejects _ _); [done|]. simpl. unfold fetchone. simpl. by rewrite E.
Qed.

Lemma get_artist_present (id : Z) (row : Row) (sv : Server) :
  artist (store sv) !! id = Some row ->
  up sv (dials sv) = true ->
  schema_rejects (store sv) (SelectArtist id) = None ->
  get_artist schema_rejects id sv = ((<["artist_id" := VInt id]> row, 200), dialed sv).
Proof.
  intros E Hup Hok. unfold get_artist, execute_query, get_db_connection, cur_execute. simpl.
  rewrite Hup. simpl. rewrite Hok. simpl. unfold fetchone. simpl. by rewrite E.
Qed.

Lemma execute_query_select (q : Sql) (sv : Server) :
  is_select q = true ->
  exists r, execute_query schema_rejects q true sv = (r, dialed sv) /\
    (up sv (dials sv) = true -> schema_rejects (store sv) q = None ->
     forall cur, sql_apply (store sv) q = Some (store sv, cur) ->
     r = match fetchone cur with Some row => QRow row | None => QNone end).
Proof.
  intros Hsel. unfold execute_query, get_db_connection, cur_execute, dialed. simpl.
  destruct (up sv (dials sv)); simpl.
  - destruct (schema_rejects _ _) as [msg|].
    + eexists. split; [done|]. done.
    + destruct (sql_apply (store sv) q) as [[s' cur]|] eqn:E.
      * rewrite Hsel. eexists. split; [done|]. intros _ _ cur' ?. by simplify_eq.
      * eexists. split; [done|]. intros _ _ cur' ?. done.
  - eexists. split; [done|]. done.
Qed.

(** ** The aggregates of /api/stats *)

Lemma sum_omap_streams (songs : list Row) :
  foldr Z.add 0 (omap as_int (map (fun r => dict_get r "streams_count" VNull) songs))
  = foldr Z.add 0 (streams_of <$> songs).
Proof.
  induction songs as [|r rs IH]; [done|].
  cbn [map fmap list_fmap omap list_omap foldr].
  fold (omap as_int (map (fun r => dict_get r "streams_count" VNull) rs)).
  fold (streams_of <$> rs).
  unfold dict_get at 1, streams_of at 1.
  destruct (r !! "streams_count") as [[]|]; simpl; rewrite IH; lia.
Qed.

Lemma total_or_zero_sum (songs : list Row) :
  total_or_zero
    (QRow {[ "total" := sql_sum (map (fun r => dict_get r "streams_count" VNull) songs) ]})
  = VInt (foldr Z.add 0 (streams_of <$> songs)).
Proof.
  unfold total_or_zero. rewrite bool_decide_eq_false_2 by apply map_non_empty_singleton.
  unfold dict_get. rewrite lookup_singleton_eq.
  rewrite <- sum_omap_streams. unfold sql_sum.
  destruct (omap as_int _) as [|z zs]; [done|].
  unfold truthy. destruct (Z.eqb_spec (foldr Z.add 0 (z :: zs)) 0) as [->|]; done.
Qed.

Lemma join_active_set (s : Store) :
  list_to_set (join_active s) = artists_with_active_contract s.
Proof.
  apply set_eq. intros x. unfold artists_with_active_contract, join_active.
  rewrite elem_of_list_to_set, elem_of_filter, elem_of_dom, list_elem_of_In, in_flat_map.
  unfold has_active_contract. rewrite Exists_exists. split.
  - intros ([k row] & Hkv & Hin). simpl in Hin.
    apply in_flat_map in Hin as (c & Hc & Hx).
    destruct (active_contract_of k c) eqn:A; [|by destruct Hx].
    destruct Hx as [<-|[]].
    apply list_elem_of_In, elem_of_map_to_list in Hkv.
    unfold active_contract_of in A. apply andb_prop in A as [A1 A2].
    apply bool_decide_eq_true in A1, A2.
    split; [|by eexists]. exists c. by rewrite list_elem_of_In.
  - intros [(c & Hc & A1 & A2) [row Hrow]].
    exists (x, row). split; [by apply list_elem_of_In, elem_of_map_to_list|].
    simpl. apply in_flat_map. exists c. split; [by apply list_elem_of_In|].
    unfold active_contract_of. rewrite !bool_decide_eq_true_2 by done. by left.
Qed.

(** ** The claims about the handlers *)

(** C5. POST /api/artists with a body that has name, genre,
    contract_date and nationality, sent while the storage is reachable
    and accepts the row (the next serial key being free), is answered
    201 with the new artist_id; the row stored under that key carries
    the body's required fields, contract_status "active" when the body
    has no contract_status and biography "" when it has no biography
    (the body's own values otherwise), and a following
    GET /api/artists/{artist_id} returns that row. *)
Theorem create_artist_applies_defaults (data : Row) (sv : Server) :
  has_all data artist_required_fields = true ->
  up sv (dials sv) = true ->
  schema_rejects (store sv) (insert_artist_query data) = None ->
  artist (store sv) !! artist_seq (store sv) = None ->
  let id := artist_seq (store sv) in
  let '(resp, sv') := create_artist schema_rejects data sv in
  resp = (<["artist_id" := VInt id]> {[ "message" := VStr "Artista creado exitosamente" ]}, 201) /\
  exists row,
    artist (store sv') !! id = Some row /\
    (data !! "contract_status" = None -> row !! "contract_status" = Some (VStr "active")) /\
    (data !! "biography" = None -> row !! "biography" = Some (VStr "")) /\
    (forall v, data !! "contract_status" = Some v -> row !! "contract_status" = Some v) /\
    (forall v, data !! "biography" = Some v -> row !! "biography" = Some v) /\
    (forall f, f ∈ artist_required_fields -> row !! f = data !! f) /\
    (up sv' (dials sv') = true ->
     schema_rejects (store sv') (SelectArtist id) = None ->
     (get_artist schema_rejects id sv').1 = (<["artist_id" := VInt id]> row, 200)).
Proof.
  intros Hall Hup Hok Hfree. cbv zeta.
  unfold create_artist. rewrite Hall. cbn [negb].
  unfold get_db_connection, cur_execute. cbn [store up dials].
  rewrite Hup. cbn [negb]. rewrite Hok.
  unfold insert_artist_query. cbn [sql_apply]. rewrite Hfree. unfold fetchone. simpl.
  rewrite lookup_singleton_eq. split; [done|].
  eexists. split; [apply lookup_insert_eq|].
  unfold artist_row, dict_get.
  repeat split.
  - intros ->. by simplify_map_eq.
  - intros ->. by simplify_map_eq.
  - intros v ->. by simplify_map_eq.
  - intros v ->. by simplify_map_eq.
  - intros f Hf. unfold has_all, artist_required_fields in *. simpl in Hall.
    repeat (apply andb_prop in Hall as [? Hall]).
    repeat match goal with
           | H : bool_decide _ = true |- _ => apply bool_decide_eq_true in H as [? ?]
           end.
    repeat (apply elem_of_cons in Hf as [->|Hf]); [..|by apply elem_of_nil in Hf];
      simplify_map_eq; done.
  - intros Hup' Hok'. erewrite get_artist_present; [done| |done|done].
    apply lookup_insert_eq.
Qed.


(** C7, amended. DELETE /api/artists/{id}, sent while the storage is
    reachable and accepts the statement, is answered 200 with the
    message "Artista eliminado exitosamente" whether or not the id
    exists; afterwards no row is stored under [id], every other row and
    table is as before, and GET /api/artists/{id} answers 404; when no
    row had that id the storage is unchanged.  The answer carries no
    count of affected rows. *)
Theorem delete_artist_removes_row (id : Z) (sv : Server) :
  up sv (dials sv) = true ->
  schema_rejects (store sv) (DeleteArtist id) = None ->
  let '(resp, sv') := delete_artist schema_rejects id sv in
  resp = ({[ "message" := VStr "Artista eliminado exitosamente" ]}, 200) /\
  artist (store sv') !! id = None /\
  (forall k, k <> id -> artist (store sv') !! k = artist (store sv) !! k) /\
  artist_table_only (store sv) (store sv') /\
  (get_artist schema_rejects id sv').1 = (error "Artista no encontrado", 404) /\
  (artist (store sv) !! id = None -> store sv' = store sv).
Proof.
  intros Hup Hok. unfold delete_artist, get_db_connection, cur_execute. simpl.
  rewrite Hup. simpl. rewrite Hok. simpl.
  repeat split.
  - apply lookup_delete_eq.
  - intros k Hk. by apply lookup_delete_ne.
  - rewrite get_artist_absent; [done|]. simpl. apply lookup_delete_eq.
  - intros E. rewrite delete_id by done. apply store_eta.
Qed.

(** C8. Whatever the storage holds, when the two aggregate queries of
    GET /api/stats reach the storage and are accepted, the answer is
    200, its total_streams is the sum of streams_count over all song
    rows (0 when there is no song), and its active_artists is the
    number of distinct artists that have at least one contract whose
    status is "active"; the storage is left as it was. *)
Theorem stats_aggregates (sv : Server) :
  up sv (dials sv + 4)%nat = true ->
  up sv (dials sv + 5)%nat = true ->
  schema_rejects (store sv) SumStreams = None ->
  schema_rejects (store sv) CountActiveArtists = None ->
  let '(resp, sv') := get_stats schema_rejects sv in
  resp.2 = 200 /\
  resp.1 !! "total_streams" = Some (VInt (sum_of_streams (store sv))) /\
  (song (store sv) = [] -> resp.1 !! "total_streams" = Some (VInt 0)) /\
  resp.1 !! "active_artists"
    = Some (VInt (Z.of_nat (size (artists_with_active_contract (store sv))))) /\
  store sv' = store sv.
Proof.
  intros Hup4 Hup5 Hok4 Hok5. unfold get_stats.
  destruct (execute_query_select CountArtist sv eq_refl) as (r1 & -> & _).
  destruct (execute_query_select CountAlbum (dialed sv) eq_refl) as (r2 & -> & _).
  destruct (execute_query_select CountSong (dialed (dialed sv)) eq_refl) as (r3 & -> & _).
  destruct (execute_query_select CountHits (dialed (dialed (dialed sv))) eq_refl)
    as (r4 & -> & _).
  destruct (execute_query_select SumStreams (dialed (dialed (dialed (dialed sv)))) eq_refl)
    as (r5 & -> & H5).
  destruct (execute_query_select CountActiveArtists
              (dialed (dialed (dialed (dialed (dialed sv))))) eq_refl) as (r6 & -> & H6).
  simpl in H5, H6.
  replace (S (S (S (S (dials sv))))) with (dials sv + 4)%nat in H5 by lia.
  replace (S (S (S (S (S (dials sv)))))) with (dials sv + 5)%nat in H6 by lia.
  specialize (H5 Hup4 Hok4 _ eq_refl). specialize (H6 Hup5 Hok5 _ eq_refl).
  unfold fetchone in H5, H6. simpl in H5, H6. subst r5 r6.
  assert (total_or_zero
            (QRow {[ "total" := sql_sum (map (fun r => dict_get r "streams_count" VNull)
                                             (song (store sv))) ]})
          = VInt (sum_of_streams (store sv))) as Htot by apply total_or_zero_sum.
  cbn [fst snd]. repeat split.
  - rewrite lookup_insert_ne by done. rewrite lookup_insert_eq. by rewrite Htot.
  - intros Hnil. rewrite lookup_insert_ne by done. rewrite lookup_insert_eq, Htot.
    unfold sum_of_streams. by rewrite Hnil.
  - rewrite lookup_insert_eq. f_equal. unfold count_or_zero.
    rewrite bool_decide_eq_false_2 by apply map_non_empty_singleton.
    unfold dict_get. rewrite lookup_singleton_eq. unfold count_distinct.
    by rewrite join_active_set.
Qed.

(** C10. PUT /api/artists/{id} and PUT /api/albums/{id} never answer
    404.  With at least one allow-listed field in the payload, the
    storage reachable and the statement accepted, a PUT on an id that
    has no row is answered with the 200 success message and changes
    nothing in the storage, while GET on the same id answers 404. *)
Theorem update_never_reports_not_found (id : Z) (data : Row) (sv : Server) :
  (update_artist schema_rejects id data sv).1.2 <> 404 /\
  (update_album schema_rejects id data sv).1.2 <> 404 /\
  (collect_updates artist_allowed_fields data <> [] ->
   up sv (dials sv) = true ->
   schema_rejects (store sv) (UpdateArtist (collect_updates artist_allowed_fields data) id) = None ->
   artist (store sv) !! id = None ->
   update_artist schema_rejects id data sv =
     (({[ "message" := VStr "Artista actualizado exitosamente" ]}, 200), dialed sv) /\
   (get_artist schema_rejects id sv).1.2 = 404) /\
  (collect_updates album_allowed_fields data <> [] ->
   up sv (dials sv) = true ->
   schema_rejects (store sv) (UpdateAlbum (collect_updates album_allowed_fields data) id) = None ->
   album (store sv) !! id = None ->
   update_album schema_rejects id data sv =
     (({[ "message" := VStr "Álbum actualizado exitosamente" ]}, 200), dialed sv) /\
   (get_album schema_rejects id sv).1.2 = 404).
Proof.
  rewrite update_artist_run, update_album_run. cbv zeta.
  split; [|split; [|split]].
  - case_bool_decide; [done|]. destruct (up sv (dials sv)); simpl; [|done].
    by destruct (schema_rejects _ _).
  - case_bool_decide; [done|]. destruct (up sv (dials sv)); simpl; [|done].
    by destruct (schema_rejects _ _).
  - intros Hsome Hup Hok Habs. split; [|by rewrite get_artist_absent].
    rewrite bool_decide_eq_false_2 by done. rewrite Hup, Hok. simpl.
    rewrite alter_absent by done. unfold with_store, dialed. simpl. by rewrite store_eta.
  - intros Hsome Hup Hok Habs. split; [|by rewrite get_album_absent].
    rewrite bool_decide_eq_false_2 by done. rewrite Hup, Hok. simpl.
    rewrite alter_absent by done. unfold with_store, dialed. simpl. by rewrite store_eta.
Qed.

(** C1. A GET by id (artist, album or producer) sent while the storage
    is unreachable, or whose query the storage refuses, is answered
    with the not-found answer (404 and the "no encontrado" message of
    the resource), the same answer as for an id that has no row; no GET
    by id is ever answered with status 500. *)
Theorem get_by_id_failure_reported_as_not_found (id : Z) (sv : Server) :
  (up sv (dials sv) = false \/ schema_rejects (store sv) (SelectArtist id) <> None ->
   (get_artist schema_rejects id sv).1 = (error "Artista no encontrado", 404)) /\
  (up sv (dials sv) = false \/ schema_rejects (store sv) (SelectAlbum id) <> None ->
   (get_album schema_rejects id sv).1 = (error "Álbum no encontrado", 404)) /\
  (up sv (dials sv) = false \/ schema_rejects (store sv) (SelectProducer id) <> None ->
   (get_producer schema_rejects id sv).1 = (error "Productor no encontrado", 404)) /\
  (get_artist schema_rejects id sv).1.2 <> 500 /\
  (get_album schema_rejects id sv).1.2 <> 500 /\
  (get_producer schema_rejects id sv).1.2 <> 500.
Proof.
  unfold get_artist, get_album, get_producer, execute_query, get_db_connection,
    cur_execute, fetchone.
  cbn [store up dials negb].
  destruct (up sv (dials sv)); cbn [negb fst snd].
  - destruct (schema_rejects (store sv) (SelectArtist id)),
             (schema_rejects (store sv) (SelectAlbum id)),
             (schema_rejects (store sv) (SelectProducer id));
      cbn [sql_apply is_select fetchall fst snd];
      destruct (artist (store sv) !! id), (album (store sv) !! id),
               (producer (store sv) !! id);
      cbn [head fst snd]; repeat split; try done; intros [?|?]; done.
  - repeat split; done.
Qed.

End HandlerFacts.

(** ** The handlers on concrete requests *)

(** GET /api/artists/7 for the stored artist 7 with the storage down
    is answered exactly as GET /api/artists/8 for the missing id 8 with
    the storage up; with the storage up artist 7 is found. *)
Lemma get_by_id_failure_reported_as_not_found_witness :
  up (offline demo_store) (dials (offline demo_store)) = false /\
  artist demo_store !! 7 <> None /\
  artist demo_store !! 8 = None /\
  (get_artist accepts_all 7 (offline demo_store)).1 = (error "Artista no encontrado", 404) /\
  (get_album accepts_all 3 (offline demo_store)).1 = (error "Álbum no encontrado", 404) /\
  (get_producer accepts_all 1 (offline demo_store)).1
    = (error "Productor no encontrado", 404) /\
  (get_artist accepts_all 7 (offline demo_store)).1
    = (get_artist accepts_all 8 (online demo_store)).1 /\
  (get_artist accepts_all 7 (online demo_store)).1.2 = 200.
Proof.
  assert (up (offline demo_store) (dials (offline demo_store)) = false) as Hdown
    by reflexivity.
  split; [exact Hdown|]. split; [compute_done|]. split; [compute_done|].
  split; [exact (proj1 (get_by_id_failure_reported_as_not_found accepts_all 7
                          (offline demo_store)) (or_introl Hdown))|].
  split; [exact (proj1 (proj2 (get_by_id_failure_reported_as_not_found accepts_all 3
                          (offline demo_store))) (or_introl Hdown))|].
  split; [exact (proj1 (proj2 (proj2 (get_by_id_failure_reported_as_not_found accepts_all 1
                          (offline demo_store)))) (or_introl Hdown))|].
  split; compute_done.
Defined.

(** Against C7 as stated: the answer to DELETE of the missing id 8 is
    the bare success message, equal to the answer to DELETE of the
    stored id 7, which removes a row; it reports no number of rows. *)
Lemma delete_response_carries_no_row_count :
  (delete_artist accepts_all 8 (online demo_store)).1
    = ({[ "message" := VStr "Artista eliminado exitosamente" ]}, 200) /\
  (delete_artist accepts_all 8 (online demo_store)).1
    = (delete_artist accepts_all 7 (online demo_store)).1 /\
  artist demo_store !! 8 = None /\
  artist (store (delete_artist accepts_all 8 (online demo_store)).2) = artist demo_store /\
  artist demo_store !! 7 <> None /\
  artist (store (delete_artist accepts_all 7 (online demo_store)).2) !! 7 = None.
Proof. repeat split; compute_done. Qed.

(** The scenario of the specification: the POST body with the four
    required fields, on an empty storage that is up. *)
Lemma create_artist_applies_defaults_witness :
  has_all new_artist_body artist_required_fields = true /\
  up (online empty_store) (dials (online empty_store)) = true /\
  accepts_all (store (online empty_store)) (insert_artist_query new_artist_body) = None /\
  artist (store (online empty_store)) !! artist_seq (store (online empty_store)) = None /\
  (let id := artist_seq (store (online empty_store)) in
   let '(resp, sv') := create_artist accepts_all new_artist_body (online empty_store) in
   resp = (<["artist_id" := VInt id]> {[ "message" := VStr "Artista creado exitosamente" ]}, 201) /\
   exists row,
     artist (store sv') !! id = Some row /\
     (new_artist_body !! "contract_status" = None ->
      row !! "contract_status" = Some (VStr "active")) /\
     (new_artist_body !! "biography" = None -> row !! "biography" = Some (VStr "")) /\
     (forall v, new_artist_body !! "contract_status" = Some v ->
                row !! "contract_status" = Some v) /\
     (forall v, new_artist_body !! "biography" = Some v -> row !! "biography" = Some v) /\
     (forall f, f ∈ artist_required_fields -> row !! f = new_artist_body !! f) /\
     (up sv' (dials sv') = true ->
      accepts_all (store sv') (SelectArtist id) = None ->
      (get_artist accepts_all id sv').1 = (<["artist_id" := VInt id]> row, 200))).
Proof.
  split; [reflexivity|]. split; [reflexivity|]. split; [reflexivity|].
  split; [reflexivity|].
  apply (create_artist_applies_defaults accepts_all new_artist_body (online empty_store));
    reflexivity.
Defined.


(** DELETE of the stored artist 7 with the storage up. *)
Lemma delete_artist_removes_row_witness :
  up (online demo_store) (dials (online demo_store)) = true /\
  accepts_all (store (online demo_store)) (DeleteArtist 7) = None /\
  (let '(resp, sv') := delete_artist accepts_all 7 (online demo_store) in
   resp = ({[ "message" := VStr "Artista eliminado exitosamente" ]}, 200) /\
   artist (store sv') !! 7 = None /\
   (forall k, k <> 7 -> artist (store sv') !! k = artist (store (online demo_store)) !! k) /\
   artist_table_only (store (online demo_store)) (store sv') /\
   (get_artist accepts_all 7 sv').1 = (error "Artista no encontrado", 404) /\
   (artist (store (online demo_store)) !! 7 = None -> store sv' = store (online demo_store))).
Proof.
  split; [reflexivity|]. split; [reflexivity|].
  apply (delete_artist_removes_row accepts_all 7 (online demo_store)); reflexivity.
Defined.

(** GET /api/stats on a storage with two songs (40 and 2 streams) and
    one artist under two active contracts: 42 streams, one active
    artist. *)
Lemma stats_aggregates_witness :
  up (online demo_store) (dials (online demo_store) + 4)%nat = true /\
  up (online demo_store) (dials (online demo_store) + 5)%nat = true /\
  accepts_all (store (online demo_store)) SumStreams = None /\
  accepts_all (store (online demo_store)) CountActiveArtists = None /\
  sum_of_streams demo_store = 42 /\
  (let '(resp, sv') := get_stats accepts_all (online demo_store) in
   resp.2 = 200 /\
   resp.1 !! "total_streams" = Some (VInt (sum_of_streams (store (online demo_store)))) /\
   (song (store (online demo_store)) = [] -> resp.1 !! "total_streams" = Some (VInt 0)) /\
   resp.1 !! "active_artists"
     = Some (VInt (Z.of_nat (size (artists_with_active_contract
                                     (store (online demo_store)))))) /\
   store sv' = store (online demo_store)).
Proof.
  split; [reflexivity|]. split; [reflexivity|]. split; [reflexivity|].
  split; [reflexivity|]. split; [reflexivity|].
  apply (stats_aggregates accepts_all (online demo_store)); reflexivity.
Defined.

(** PUT on the missing artist 8 and the missing album 4 with an allowed
    field in the payload. *)
Lemma update_never_reports_not_found_witness :
  collect_updates artist_allowed_fields put_body <> [] /\
  collect_updates album_allowed_fields put_body <> [] /\
  artist demo_store !! 8 = None /\
  album demo_store !! 4 = None /\
  update_artist accepts_all 8 put_body (online demo_store) =
    (({[ "message" := VStr "Artista actualizado exitosamente" ]}, 200),
     dialed (online demo_store)) /\
  (get_artist accepts_all 8 (online demo_store)).1.2 = 404 /\
  update_album accepts_all 4 put_body (online demo_store) =
    (({[ "message" := VStr "Álbum actualizado exitosamente" ]}, 200),
     dialed (online demo_store)) /\
  (get_album accepts_all 4 (online demo_store)).1.2 = 404.
Proof.
  assert (collect_updates artist_allowed_fields put_body <> []) as Ha
    by (vm_compute; discriminate).
  assert (collect_updates album_allowed_fields put_body <> []) as Hb
    by (vm_compute; discriminate).
  split; [exact Ha|]. split; [exact Hb|]. split; [reflexivity|]. split; [reflexivity|].
  destruct (update_never_reports_not_found accepts_all 8 put_body (online demo_store))
    as (_ & _ & Hartist & _).
  destruct (update_never_reports_not_found accepts_all 4 put_body (online demo_store))
    as (_ & _ & _ & Halbum).
  destruct (Hartist Ha eq_refl eq_refl eq_refl) as [E1 E2].
  destruct (Halbum Hb eq_refl eq_refl eq_refl) as [E3 E4].
  split; [exact E1|]. split; [exact E2|]. split; [exact E3|exact E4].
Defined.

End APP_facts.

(** * Facts about the data generator *)
Module SEED_facts.

Import SEED_DATA.

(** ** Statements sent by each step *)

Section Emits.

Context `{Seeds} `{Session}.

Lemma run_stmts_app qs rs (d : DB) : run_stmts (qs ++ rs) d = run_stmts rs (run_stmts qs d).
Proof. unfold run_stmts. by rewrite foldl_app. Qed.

Lemma emits_ret {A} P (a : A) : emits P (ret a).
Proof. intros w. exists []. simpl. by rewrite app_nil_r. Qed.

Lemma emits_raise {A} P e : emits P (@raise _ _ A e).
Proof. intros w. exists []. simpl. by rewrite app_nil_r. Qed.

Lemma emits_get {A} P (f : World -> A) : emits P (get f).
Proof. intros w. exists []. simpl. by rewrite app_nil_r. Qed.

Lemma emits_draw {A} P (f : Rng -> A * Rng) : emits P (draw f).
Proof. intros w. exists []. unfold draw. destruct (f (rng w)). simpl. by rewrite app_nil_r. Qed.

Lemma emits_modify_self P (g : World -> DataGenerator) :
  emits P (modify (fun w => set_self (g w) w)).
Proof. intros w. exists []. simpl. by rewrite app_nil_r. Qed.

Lemma emits_bind {A B} P (m : M A) (k : A -> M B) :
  emits P m -> (forall a, emits P (k a)) -> emits P (bind m k).
Proof.
  intros Hm Hk w. unfold bind. destruct (Hm w) as (l1 & E1 & F1 & D1).
  destruct (m w) as [[e|a] w1]; simpl in *.
  - by exists l1.
  - destruct (Hk a w1) as (l2 & E2 & F2 & D2).
    exists (l1 ++ l2). rewrite E2, E1, D2, D1, run_stmts_app, app_assoc.
    split; [done|]. split; [by apply Forall_app|done].
Qed.

Lemma emits_try_except {A} P (m : M A) (h : Exn -> M A) :
  emits P m -> (forall e, emits P (h e)) -> emits P (try_except m h).
Proof.
  intros Hm Hh w. unfold try_except. destruct (Hm w) as (l1 & E1 & F1 & D1).
  destruct (m w) as [[e|a] w1]; simpl in *.
  - destruct (Hh e w1) as (l2 & E2 & F2 & D2).
    exists (l1 ++ l2). rewrite E2, E1, D2, D1, run_stmts_app, app_assoc.
    split; [done|]. split; [by apply Forall_app|done].
  - by exists l1.
Qed.

Lemma emits_try_finally {A} P (m : M A) (f : M unit) :
  emits P m -> emits P f -> emits P (try_finally m f).
Proof.
  intros Hm Hf w. unfold try_finally. destruct (Hm w) as (l1 & E1 & F1 & D1).
  destruct (m w) as [r w1]; simpl in *.
  destruct (Hf w1) as (l2 & E2 & F2 & D2).
  exists (l1 ++ l2).
  destruct (f w1) as [[e|[]] w2]; simpl in *;
    rewrite E2, E1, D2, D1, run_stmts_app, app_assoc;
    (split; [done|]; split; [by apply Forall_app|done]).
Qed.

Lemma emits_for_each {A} P (xs : list A) (body : A -> M unit) :
  (forall x, emits P (body x)) -> emits P (for_each xs body).
Proof.
  intros Hb. induction xs as [|x xs IH]; simpl.
  - apply emits_ret.
  - apply emits_bind; [apply Hb | intros _; apply IH].
Qed.

Lemma emits_execute_query (P : Stmt -> Prop) q : P q -> emits P (execute_query q).
Proof.
  intros Hq w. unfold execute_query. destruct (connected (self w)).
  - exists [q]. unfold run_stmts. simpl.
    destruct (db_exec q (db w)) as [[| |rows] d]; simpl; repeat split; by repeat constructor.
  - exists []. simpl. by rewrite app_nil_r.
Qed.

Lemma emits_index {A} P (xs : list A) i : emits P (index xs i).
Proof. unfold index. destruct (xs !! i); [apply emits_ret | apply emits_raise]. Qed.

Lemma emits_random_choice {A} P (xs : list A) : emits P (random_choice xs).
Proof.
  unfold random_choice. destruct xs; [apply emits_raise|].
  apply emits_bind; [apply emits_draw | intros i; apply emits_index].
Qed.

Lemma emits_first_cell P r : emits P (first_cell r).
Proof.
  unfold first_cell. destruct r as [[|[|v ?] ?]|]; try apply emits_raise. apply emits_ret.
Qed.

Lemma emits_unpack_pair P r : emits P (unpack_pair r).
Proof.
  unfold unpack_pair. destruct r as [|a [|b [|c r]]]; try apply emits_raise. apply emits_ret.
Qed.

Lemma emits_connect P : emits P connect.
Proof.
  intros w. exists []. unfold connect. destruct (reachable w); simpl; by rewrite app_nil_r.
Qed.

End Emits.

Ltac emits_step :=
  lazymatch goal with
  | |- emits _ (ret _) => apply emits_ret
  | |- emits _ (raise _) => apply emits_raise
  | |- emits _ (get _) => apply emits_get
  | |- emits _ (draw _) => apply emits_draw
  | |- emits _ (modify _) => apply emits_modify_self
  | |- emits _ (index _ _) => apply emits_index
  | |- emits _ (random_choice _) => apply emits_random_choice
  | |- emits _ (first_cell _) => apply emits_first_cell
  | |- emits _ (unpack_pair _) => apply emits_unpack_pair
  | |- emits _ connect => apply emits_connect
  | |- emits _ (execute_query _) => apply emits_execute_query; reflexivity
  | |- emits _ (for_each _ _) => apply emits_for_each; intros ?
  | |- emits _ (try_except _ _) => apply emits_try_except; [| intros ?]
  | |- emits _ (try_finally _ _) => apply emits_try_finally
  | |- emits _ (bind _ _) => apply emits_bind; [| intros ?]
  | |- emits _ (let _ := _ in _) => cbv zeta
  | |- emits _ (match ?x with _ => _ end) => destruct x
  end.

Ltac unfold_calls :=
  progress unfold mbind, M_bind, mret, M_ret, random_randint, random_uniform2, fake,
    date_between, two_words, push_artist_id, push_producer_id, push_studio_id,
    push_album_id, push_distribution_id, push_staff_id, push_engineer_id,
    push_manager_id, disconnect, song_body, engineer_body, manager_body.

Ltac emits_auto := repeat first [unfold_calls | emits_step].

Section Phases.

Context `{Seeds} `{Session}.

Lemma clean_database_phase : emits (fun q => phase q = 0%nat) clean_database.
Proof. unfold clean_database. emits_auto. Qed.

Lemma generate_artists_phase n : emits (fun q => phase q = 1%nat) (generate_artists n).
Proof. unfold generate_artists. emits_auto. Qed.

Lemma generate_producers_phase n : emits (fun q => phase q = 2%nat) (generate_producers n).
Proof. unfold generate_producers. emits_auto. Qed.

Lemma generate_studios_phase n : emits (fun q => phase q = 3%nat) (generate_studios n).
Proof. unfold generate_studios. emits_auto. Qed.

Lemma generate_albums_phase n : emits (fun q => phase q = 4%nat) (generate_albums n).
Proof. unfold generate_albums. emits_auto. Qed.

Lemma generate_songs_phase n : emits (fun q => phase q = 5%nat) (generate_songs n).
Proof. unfold generate_songs. emits_auto. Qed.

Lemma generate_recording_sessions_phase n :
  emits (fun q => phase q = 6%nat) (generate_recording_sessions n).
Proof. unfold generate_recording_sessions. emits_auto. Qed.

Lemma generate_staff_phase n : emits (fun q => phase q = 7%nat) (generate_staff n).
Proof. unfold generate_staff. emits_auto. Qed.

Lemma generate_engineers_phase n : emits (fun q => phase q = 8%nat) (generate_engineers n).
Proof. unfold generate_engineers. emits_auto. Qed.

Lemma generate_managers_phase n : emits (fun q => phase q = 9%nat) (generate_managers n).
Proof. unfold generate_managers. emits_auto. Qed.

Lemma generate_distributions_phase n :
  emits (fun q => phase q = 10%nat) (generate_distributions n).
Proof. unfold generate_distributions. emits_auto. Qed.

Lemma generate_song_distributions_phase n :
  emits (fun q => phase q = 11%nat) (generate_song_distributions n).
Proof.
  unfold generate_song_distributions. emits_auto.
Qed.

Lemma generate_contracts_phase n : emits (fun q => phase q = 12%nat) (generate_contracts n).
Proof. unfold generate_contracts. emits_auto. Qed.

Lemma generate_artist_albums_phase n :
  emits (fun q => phase q = 13%nat) (generate_artist_albums n).
Proof. unfold generate_artist_albums. emits_auto. Qed.

End Phases.

(** ** The order of the insertions *)

Section Order.

Context `{Seeds} `{Session}.

Lemma phase_sorted_app l1 l2 b c :
  phase_sorted l1 -> phase_sorted l2 ->
  Forall (fun q => (phase q <= b)%nat) l1 -> Forall (fun q => (c <= phase q)%nat) l2 ->
  (b <= c)%nat -> phase_sorted (l1 ++ l2).
Proof.
  intros S1 S2 F1 F2 Hbc i j x y Hi Hj Hij.
  rewrite Forall_lookup in F1, F2.
  destruct (decide (i < length l1)%nat) as [Hi1|Hi1];
    destruct (decide (j < length l1)%nat) as [Hj1|Hj1].
  - rewrite lookup_app_l in Hi, Hj by done. by eapply S1.
  - rewrite lookup_app_l in Hi by done. rewrite lookup_app_r in Hj by lia.
    specialize (F1 _ _ Hi). specialize (F2 _ _ Hj). simpl in *. lia.
  - lia.
  - rewrite lookup_app_r in Hi, Hj by lia. eapply S2; [done..|lia].
Qed.

Lemma emits_one_phase {A} n (m : M A) :
  emits (fun q => phase q = n) m -> emits_within n n m.
Proof.
  intros Hm w. destruct (Hm w) as (l & E & F & _). exists l. split; [done|].
  rewrite Forall_lookup in F. split.
  - apply Forall_lookup. intros i q Hq. specialize (F _ _ Hq). simpl in F. lia.
  - intros i j x y Hi Hj _. rewrite (F _ _ Hi), (F _ _ Hj). done.
Qed.

Lemma within_bind {A B} a b c d (m : M A) (k : A -> M B) :
  emits_within a b m -> (forall x, emits_within c d (k x)) ->
  (b <= c)%nat -> (a <= c)%nat -> (b <= d)%nat ->
  emits_within a d (bind m k).
Proof.
  intros Hm Hk Hbc Hac Hbd w. unfold bind. destruct (Hm w) as (l1 & E1 & F1 & S1).
  destruct (m w) as [[e|x] w1]; simpl in *.
  - exists l1. split; [done|]. split; [|done].
    eapply Forall_impl; [exact F1|]. simpl. intros q ?. lia.
  - destruct (Hk x w1) as (l2 & E2 & F2 & S2).
    exists (l1 ++ l2). rewrite E2, E1, app_assoc. split; [done|]. split.
    + apply Forall_app. split; (eapply Forall_impl; [eassumption|]); simpl; intros q ?; lia.
    + eapply (phase_sorted_app _ _ b c); [done..| | |done];
        (eapply Forall_impl; [eassumption|]); simpl; intros q ?; lia.
Qed.

Lemma within_try_pass a b (m : M unit) :
  emits_within a b m -> emits_within a b (try_except m (fun _ => ret tt)).
Proof.
  intros Hm w. unfold try_except. destruct (Hm w) as (l & E & F & S).
  exists l. by destruct (m w) as [[e|x] w1].
Qed.

Lemma within_finally_disconnect a b (m : M unit) :
  emits_within a b m -> emits_within a b (try_finally m disconnect).
Proof.
  intros Hm w. unfold try_finally, disconnect. destruct (Hm w) as (l & E & F & S).
  exists l. destruct (m w) as [r w1]. by destruct (connected (self w1)).
Qed.

Lemma generate_all_phases : emits_within 0 13 generate_all.
Proof.
  unfold generate_all. apply within_finally_disconnect, within_try_pass.
  unfold mbind, M_bind.
  apply (within_bind 0 0 0 13); [apply emits_one_phase; apply emits_connect | intros _ | lia..].
  apply (within_bind 0 0 1 13); [apply emits_one_phase, clean_database_phase | intros _ | lia..].
  apply (within_bind 1 1 2 13); [apply emits_one_phase, generate_artists_phase | intros _ | lia..].
  apply (within_bind 2 2 3 13); [apply emits_one_phase, generate_producers_phase | intros _ | lia..].
  apply (within_bind 3 3 4 13); [apply emits_one_phase, generate_studios_phase | intros _ | lia..].
  apply (within_bind 4 4 5 13); [apply emits_one_phase, generate_albums_phase | intros _ | lia..].
  apply (within_bind 5 5 6 13); [apply emits_one_phase, generate_songs_phase | intros _ | lia..].
  apply (within_bind 6 6 7 13);
    [apply emits_one_phase, generate_recording_sessions_phase | intros _ | lia..].
  apply (within_bind 7 7 8 13); [apply emits_one_phase, generate_staff_phase | intros _ | lia..].
  apply (within_bind 8 8 9 13); [apply emits_one_phase, generate_engineers_phase | intros _ | lia..].
  apply (within_bind 9 9 10 13); [apply emits_one_phase, generate_managers_phase | intros _ | lia..].
  apply (within_bind 10 10 11 13);
    [apply emits_one_phase, generate_distributions_phase | intros _ | lia..].
  apply (within_bind 11 11 12 13);
    [apply emits_one_phase, generate_song_distributions_phase | intros _ | lia..].
  apply (within_bind 12 12 13 13);
    [apply emits_one_phase, generate_contracts_phase | intros _ | lia..].
  apply emits_one_phase, generate_artist_albums_phase.
Qed.

Lemma sorted_all_before l t1 t2 :
  phase_sorted l -> (step_of t1 < step_of t2)%nat -> all_before t1 t2 l.
Proof.
  intros S Hlt i j p1 p2 Hi Hj.
  destruct (decide (i < j)%nat) as [|Hge]; [done|].
  assert (j <= i)%nat as Hji by lia.
  specialize (S _ _ _ _ Hj Hi Hji). simpl in S. lia.
Qed.

Lemma references_earlier t t' : t' ∈ references t -> (step_of t' < step_of t)%nat.
Proof.
  destruct t; simpl; intros Hin;
    repeat (apply elem_of_cons in Hin as [->|Hin]; [simpl; lia|]);
    by apply elem_of_nil in Hin.
Qed.

(** C2, amended. In every run of [generate_all], on any database and
    with any random source, a row is inserted only after all the rows
    of the tables it takes foreign keys from: the statements go out in
    the order of the calls in [generate_all], so every Artist, Producer
    and Studio insertion precedes every Album, Song and
    RecordingSession insertion, every Staff insertion precedes every
    Engineer and Manager insertion, and every Distribution insertion
    precedes every SongDistribution insertion.  Staff and Distribution
    rows are not inserted first: every Album, Song and RecordingSession
    insertion precedes every Staff and every Distribution insertion. *)
Theorem generate_all_insertion_order (w : World) :
  let trace := emitted w (generate_all w).2 in
  (forall t1 t2, (step_of t1 < step_of t2)%nat -> all_before t1 t2 trace) /\
  (forall t t', t' ∈ references t -> all_before t' t trace) /\
  (forall t, t ∈ [t_album; t_song; t_recording_session] ->
             all_before t t_staff trace /\ all_before t t_distribution trace).
Proof.
  destruct (generate_all_phases w) as (l & E & _ & S).
  cbv zeta. unfold emitted. rewrite E, drop_app_length.
  assert (forall t1 t2, (step_of t1 < step_of t2)%nat -> all_before t1 t2 l) as Hord
    by (intros; by apply sorted_all_before).
  split; [done|]. split.
  - intros t t' Hin. by apply Hord, references_earlier.
  - intros t Hin.
    repeat (apply elem_of_cons in Hin as [->|Hin]; [split; apply Hord; simpl; lia|]).
    by apply elem_of_nil in Hin.
Qed.

End Order.

(** ** The song loop and the trigger *)

Section Runs.

Context `{Seeds} `{Session}.

Lemma bind_run {A B} (m : M A) (k : A -> M B) (w w' : World) (a : A) :
  m w = (inr a, w') -> bind m k w = k a w'.
Proof. intros E. unfold bind. by rewrite E. Qed.

Lemma try_execute q (w : World) :
  connected (self w) = true ->
  try_except (bind (execute_query q) (fun _ => ret tt)) (fun _ => ret tt) w
  = (inr tt, set_db (db_exec q (db w)).2 (log_stmt q w)).
Proof.
  intros Hc. unfold try_except, bind, execute_query, ret. rewrite Hc. simpl.
  by destruct (db_exec q (db w)) as [[| |rows] d].
Qed.

Lemma random_choice_nonempty {A} (xs : list A) (w : World) :
  xs <> [] -> exists x r, random_choice xs w = (inr x, set_rng r w) /\ x ∈ xs.
Proof.
  intros Hne. unfold random_choice. destruct xs as [|x0 xs]; [done|].
  unfold bind, draw, index.
  pose proof (randbelow_lt (Z.of_nat (length (x0 :: xs))) (rng w)) as Hlt.
  destruct (randbelow (Z.of_nat (length (x0 :: xs))) (rng w)) as [i r]. simpl in Hlt.
  destruct ((x0 :: xs) !! Z.to_nat i) as [x|] eqn:E.
  - exists x, r. split; [done|]. by eapply list_elem_of_lookup_2.
  - apply lookup_ge_None in E. simpl in E. lia.
Qed.

Lemma get_run {A} (f : World -> A) (w : World) : get f w = (inr (f w), w).
Proof. reflexivity. Qed.

Lemma draw_run {A} (f : Rng -> A * Rng) (w : World) :
  draw f w = (inr (f (rng w)).1, set_rng (f (rng w)).2 w).
Proof. unfold draw. by destruct (f (rng w)). Qed.

Lemma random_randint_run a b (w : World) :
  exists z r, random_randint a b w = (inr z, set_rng r w).
Proof.
  unfold random_randint. erewrite bind_run by apply draw_run. by eexists _, _.
Qed.

Lemma random_uniform2_run a b (w : World) :
  exists v r, random_uniform2 a b w = (inr v, set_rng r w).
Proof.
  unfold random_uniform2. erewrite bind_run by apply draw_run. by eexists _, _.
Qed.

Lemma fake_run f (w : World) : exists s r, fake f w = (inr s, set_rng r w).
Proof. unfold fake. rewrite draw_run. by eexists _, _. Qed.

Lemma two_words_run (w : World) : exists s r, two_words w = (inr s, set_rng r w).
Proof.
  unfold two_words, mbind, M_bind, mret, M_ret.
  destruct (fake_run fake_word w) as (s1 & r1 & E1). erewrite bind_run by exact E1.
  destruct (fake_run fake_word (set_rng r1 w)) as (s2 & r2 & E2).
  erewrite bind_run by exact E2. by eexists _, _.
Qed.

Lemma try_execute_push q (push : M unit) (w : World) :
  (forall w0, exists w1, push w0 = (inr tt, w1) /\ issued w1 = issued w0 /\ db w1 = db w0 /\
                         rng w1 = rng w0 /\
                         connected (self w1) = connected (self w0) /\
                         staff_ids (self w1) = staff_ids (self w0) /\
                         studio_ids (self w1) = studio_ids (self w0)) ->
  connected (self w) = true ->
  exists w',
    try_except (bind (execute_query q) (fun _ => push)) (fun _ => ret tt) w = (inr tt, w') /\
    one_insert w w' q /\
    connected (self w') = true /\
    staff_ids (self w') = staff_ids (self w) /\
    studio_ids (self w') = studio_ids (self w).
Proof.
  intros Hpush Hc. unfold try_except, bind, execute_query, ret, one_insert. rewrite Hc. simpl.
  destruct (db_exec q (db w)) as [[| |rows] d]; simpl.
  - by eexists.
  - destruct (Hpush (set_db d (log_stmt q w))) as (w1 & -> & Hi & Hd & _ & Hc1 & Hs & Hst).
    eexists. split; [done|]. by rewrite Hi, Hd, Hc1, Hs, Hst.
  - destruct (Hpush (set_db d (log_stmt q w))) as (w1 & -> & Hi & Hd & _ & Hc1 & Hs & Hst).
    eexists. split; [done|]. by rewrite Hi, Hd, Hc1, Hs, Hst.
Qed.

Lemma for_each_log {A} (Inv : World -> Prop) (Q : A -> Stmt -> Prop)
    (body : A -> M unit) (xs : list A) :
  (forall x w, x ∈ xs -> Inv w ->
     exists w' q, body x w = (inr tt, w') /\ Inv w' /\ one_insert w w' q /\ Q x q) ->
  forall w, Inv w ->
    exists w' qs, for_each xs body w = (inr tt, w') /\ Inv w' /\
                  issued w' = issued w ++ qs /\ db w' = run_stmts qs (db w) /\
                  Forall2 Q xs qs.
Proof.
  induction xs as [|x xs IH]; intros Hbody w Hinv.
  - exists w, []. simpl. by rewrite app_nil_r.
  - destruct (Hbody x w) as (w1 & q & E1 & Hinv1 & [Hi1 Hd1] & Hq); [by left|done|].
    destruct (IH (fun y w0 Hy => Hbody y w0 (list_elem_of_further _ _ _ Hy)) w1 Hinv1)
      as (w2 & qs & E2 & Hinv2 & Hi2 & Hd2 & Hqs).
    exists w2, (q :: qs). cbn [for_each]. erewrite bind_run by exact E1. rewrite E2.
    split; [done|]. split; [done|].
    split; [by rewrite Hi2, Hi1, <- app_assoc|].
    split; [by rewrite Hd2, Hd1|]. by constructor.
Qed.

End Runs.

Section Songs.

Context `{Seeds} `{Session}.

Lemma song_iteration i (w : World) :
  connected (self w) = true ->
  album_ids (self w) <> [] ->
  exists w', song_body i w = (inr tt, w') /\ song_step w w'.
Proof.
  intros Hc Hne. unfold song_body, mbind, M_bind, mret, M_ret.
  erewrite bind_run by apply get_run.
  destruct (random_choice_nonempty (album_ids (self w)) w Hne) as (album_id & r1 & E1 & _).
  erewrite bind_run by exact E1.
  destruct (random_randint_run 1 20 (set_rng r1 w)) as (song_id & r2 & E2).
  erewrite bind_run by exact E2.
  destruct (two_words_run (set_rng r2 (set_rng r1 w))) as (title & r3 & E3).
  erewrite bind_run by exact E3.
  destruct (random_randint_run 120 420 (set_rng r3 (set_rng r2 (set_rng r1 w))))
    as (duration & r4 & E4).
  erewrite bind_run by exact E4.
  destruct (fake_run fake_name (set_rng r4 (set_rng r3 (set_rng r2 (set_rng r1 w)))))
    as (composer & r5 & E5).
  erewrite bind_run by exact E5.
  destruct (random_randint_run 0 10000000
              (set_rng r5 (set_rng r4 (set_rng r3 (set_rng r2 (set_rng r1 w))))))
    as (streams_count & r6 & E6).
  erewrite bind_run by exact E6.
  cbv zeta. rewrite try_execute by done. eexists. split; [done|].
  split; [done|]. eexists. split; [|split; done]. done.
Qed.

Lemma song_loop (xs : list nat) (w : World) :
  connected (self w) = true ->
  album_ids (self w) <> [] ->
  exists w' inserts,
    for_each xs song_body w = (inr tt, w') /\
    self w' = self w /\
    issued w' = issued w ++ inserts /\
    length inserts = length xs /\
    Forall (fun q => inserts_into t_song q = true) inserts /\
    db w' = run_stmts inserts (db w).
Proof.
  revert w. induction xs as [|x xs IH]; intros w Hc Hne.
  - exists w, []. simpl. by rewrite app_nil_r.
  - destruct (song_iteration x w Hc Hne) as (w1 & E1 & Hself & q & Hq & Hi & Hd).
    destruct (IH w1) as (w2 & ins & E2 & Hself2 & Hi2 & Hlen & Hall & Hd2);
      [by rewrite Hself|by rewrite Hself|].
    exists w2, (q :: ins). cbn [for_each]. unfold bind. rewrite E1, E2.
    split; [done|]. split; [congruence|].
    split; [by rewrite Hi2, Hi, <- app_assoc|].
    split; [simpl; lia|]. split; [by constructor|].
    rewrite Hd2, Hd. done.
Qed.

Lemma generate_songs_run (count : nat) (w : World) :
  connected (self w) = true ->
  album_ids (self w) <> [] ->
  exists w' inserts,
    generate_songs count w = (inr tt, w') /\
    self w' = self w /\
    issued w' = issued w ++ DisableTrigger :: inserts ++ [EnableTrigger] /\
    length inserts = count /\
    Forall (fun q => inserts_into t_song q = true) inserts /\
    db w' = run_stmts (DisableTrigger :: inserts ++ [EnableTrigger]) (db w).
Proof.
  intros Hc Hne. unfold generate_songs, mbind, M_bind, mret, M_ret.
  erewrite bind_run by (by apply try_execute).
  destruct (song_loop (range 0 count) (set_db (db_exec DisableTrigger (db w)).2
                                              (log_stmt DisableTrigger w)))
    as (w1 & ins & E1 & Hself & Hi & Hlen & Hall & Hd); [done|done|].
  erewrite bind_run by apply E1. rewrite try_execute by (by rewrite Hself).
  exists (set_db (db_exec EnableTrigger (db w1)).2 (log_stmt EnableTrigger w1)), ins.
  split; [done|]. split; [done|]. simpl.
  split; [rewrite Hi; simpl; by rewrite <- !app_assoc|].
  split; [rewrite Hlen; unfold range; rewrite length_seq; lia|]. split; [done|].
  rewrite Hd. simpl. unfold run_stmts. by rewrite foldl_app.
Qed.

End Songs.

Section Trigger.

Context `{Seeds}.

Lemma pg_exec_clock q d : pg_clock (pg_exec q d).2 = S (pg_clock d).
Proof.
  unfold pg_exec. destruct (pg_fails d (pg_clock d)); [done|].
  destruct q as [t| | |t params|]; simpl; try done.
  - by destruct (truncates_song t).
  - destruct (returning t); [done|].
    destruct t; try done. destruct params as [|a [|b ?]]; try done.
    by case_bool_decide.
  - by destruct (song_keys d) as [|k ks].
Qed.

Lemma pg_exec_fails q d : pg_fails (pg_exec q d).2 = pg_fails d.
Proof.
  unfold pg_exec. destruct (pg_fails d (pg_clock d)); [done|].
  destruct q as [t| | |t params|]; simpl; try done.
  - by destruct (truncates_song t).
  - destruct (returning t); [done|].
    destruct t; try done. destruct params as [|a [|b ?]]; try done.
    by case_bool_decide.
  - by destruct (song_keys d) as [|k ks].
Qed.

Lemma pg_insert_trigger t params d :
  hit_trigger (pg_exec (Insert t params) d).2 = hit_trigger d.
Proof.
  unfold pg_exec. destruct (pg_fails d (pg_clock d)); [done|].
  destruct (returning t); [done|].
  destruct t; try done. destruct params as [|a [|b ?]]; try done.
  by case_bool_decide.
Qed.

Lemma pg_run_clock qs (d : PG) :
  pg_clock (run_stmts (H0 := pg) qs d) = (pg_clock d + length qs)%nat.
Proof.
  revert d. induction qs as [|q qs IH]; intros d; simpl; [lia|].
  rewrite IH, pg_exec_clock. lia.
Qed.

Lemma pg_run_fails qs (d : PG) : pg_fails (run_stmts (H0 := pg) qs d) = pg_fails d.
Proof.
  revert d. induction qs as [|q qs IH]; intros d; simpl; [done|].
  by rewrite IH, pg_exec_fails.
Qed.

Lemma pg_run_inserts_trigger qs (d : PG) :
  Forall (fun q => inserts_into t_song q = true) qs ->
  hit_trigger (run_stmts (H0 := pg) qs d) = hit_trigger d.
Proof.
  intros Hall. revert d. induction Hall as [|q qs Hq Hall IH]; intros d; simpl; [done|].
  rewrite IH. destruct q; try done. apply pg_insert_trigger.
Qed.

(** C9, amended. In every run of [generate_songs] on a connected
    generator that holds at least one album id, the method returns
    normally and has sent DISABLE TRIGGER first, then one Song insert
    per iteration, then ENABLE TRIGGER last.  Failures of these statements are swallowed:
    when the ENABLE statement succeeds the trigger is enabled when the
    method returns, and when the DISABLE statement succeeded and the
    ENABLE statement fails the method still returns normally and the
    trigger is left disabled. *)
Theorem generate_songs_brackets_trigger (count : nat) (w : @World _ pg) :
  connected (self w) = true ->
  album_ids (self w) <> [] ->
  let '(r, w') := generate_songs count w in
  r = inr tt /\
  (exists inserts,
     emitted w w' = DisableTrigger :: inserts ++ [EnableTrigger] /\
     length inserts = count /\
     Forall (fun q => inserts_into t_song q = true) inserts) /\
  (pg_fails (db w) (pg_clock (db w) + count + 1)%nat = false -> hit_trigger (db w') = true) /\
  (pg_fails (db w) (pg_clock (db w)) = false ->
   pg_fails (db w) (pg_clock (db w) + count + 1)%nat = true -> hit_trigger (db w') = false).
Proof.
  intros Hc Hne.
  destruct (generate_songs_run count w Hc Hne) as (w' & ins & -> & _ & Hi & Hlen & Hall & Hd).
  split; [done|]. split.
  { exists ins. unfold emitted. by rewrite Hi, drop_app_length. }
  rewrite Hd. change (DisableTrigger :: ins ++ [EnableTrigger])
    with ((DisableTrigger :: ins) ++ [EnableTrigger]).
  rewrite run_stmts_app.
  set (d1 := run_stmts (H0 := pg) (DisableTrigger :: ins) (db w)).
  assert (pg_clock d1 = (pg_clock (db w) + count + 1)%nat) as Hclock.
  { unfold d1. rewrite pg_run_clock. simpl. lia. }
  assert (pg_fails d1 = pg_fails (db w)) as Hfails by apply pg_run_fails.
  simpl. change (@db_exec pg EnableTrigger d1) with (pg_exec EnableTrigger d1).
  unfold pg_exec. rewrite Hfails, Hclock.
  split.
  - by intros ->.
  - intros Hd0 ->. simpl. unfold d1. simpl.
    rewrite pg_run_inserts_trigger by done.
    change (@db_exec pg DisableTrigger (db w)) with (pg_exec DisableTrigger (db w)).
    unfold pg_exec. by rewrite Hd0.
Qed.

End Trigger.

(** ** The staff pool shared by engineers and managers *)

Section Staff.

Context `{Seeds} `{Session}.

Lemma push_engineer_id_run v (w0 : World) :
  exists w1, push_engineer_id v w0 = (inr tt, w1) /\ issued w1 = issued w0 /\ db w1 = db w0 /\
             rng w1 = rng w0 /\
             connected (self w1) = connected (self w0) /\
             staff_ids (self w1) = staff_ids (self w0) /\
             studio_ids (self w1) = studio_ids (self w0).
Proof. by eexists. Qed.

Lemma push_manager_id_run v (w0 : World) :
  exists w1, push_manager_id v w0 = (inr tt, w1) /\ issued w1 = issued w0 /\ db w1 = db w0 /\
             rng w1 = rng w0 /\
             connected (self w1) = connected (self w0) /\
             staff_ids (self w1) = staff_ids (self w0) /\
             studio_ids (self w1) = studio_ids (self w0).
Proof. by eexists. Qed.

Lemma engineer_iteration (i : nat) (id : Val) (w : World) :
  connected (self w) = true ->
  staff_ids (self w) !! i = Some id ->
  studio_ids (self w) <> [] ->
  exists w' rest,
    engineer_body i w = (inr tt, w') /\
    one_insert w w' (Insert t_engineer (id :: rest)) /\
    connected (self w') = true /\
    staff_ids (self w') = staff_ids (self w) /\
    studio_ids (self w') = studio_ids (self w).
Proof.
  intros Hc Hid Hstudio. unfold engineer_body, mbind, M_bind, mret, M_ret.
  erewrite bind_run by apply get_run.
  unfold index. rewrite Hid. erewrite bind_run by reflexivity.
  destruct (random_choice_nonempty certifications w) as (c & r1 & E1 & _); [done|].
  erewrite bind_run by exact E1.
  destruct (fake_run (fake_paragraph 2) (set_rng r1 w)) as (t & r2 & E2).
  erewrite bind_run by exact E2.
  erewrite bind_run by apply get_run.
  destruct (random_choice_nonempty (studio_ids (self w)) (set_rng r2 (set_rng r1 w)))
    as (st & r3 & E3 & _); [done|].
  erewrite bind_run by exact E3.
  destruct (try_execute_push (Insert t_engineer [id; VStr c; VStr t; st])
              (push_engineer_id id) (set_rng r3 (set_rng r2 (set_rng r1 w)))
              (push_engineer_id_run id) Hc)
    as (w' & E & [Hi Hd] & Hc' & Hs & Hst).
  exists w', [VStr c; VStr t; st]. split; [exact E|]. by repeat split.
Qed.

Lemma manager_iteration (i : nat) (id : Val) (w : World) :
  connected (self w) = true ->
  staff_ids (self w) !! i = Some id ->
  exists w' rest,
    manager_body i w = (inr tt, w') /\
    one_insert w w' (Insert t_manager (id :: rest)) /\
    connected (self w') = true /\
    staff_ids (self w') = staff_ids (self w) /\
    studio_ids (self w') = studio_ids (self w).
Proof.
  intros Hc Hid. unfold manager_body, mbind, M_bind, mret, M_ret.
  erewrite bind_run by apply get_run.
  unfold index. rewrite Hid. erewrite bind_run by reflexivity.
  destruct (random_uniform2_run 5 25 w) as (c & r1 & E1).
  erewrite bind_run by exact E1.
  destruct (random_randint_run 1 10 (set_rng r1 w)) as (n & r2 & E2).
  erewrite bind_run by exact E2.
  destruct (try_execute_push (Insert t_manager [id; c; VInt n])
              (push_manager_id id) (set_rng r2 (set_rng r1 w))
              (push_manager_id_run id) Hc)
    as (w' & E & [Hi Hd] & Hc' & Hs & Hst).
  exists w', [c; VInt n]. split; [exact E|]. by repeat split.
Qed.

Lemma elem_of_range a b i : i ∈ range a b <-> (a <= i < b)%nat.
Proof. unfold range. rewrite elem_of_seq. lia. Qed.

Lemma generate_engineers_run (count : nat) (w : World) :
  connected (self w) = true ->
  studio_ids (self w) <> [] ->
  exists w' qs,
    generate_engineers count w = (inr tt, w') /\
    connected (self w') = true /\
    staff_ids (self w') = staff_ids (self w) /\
    issued w' = issued w ++ qs /\
    Forall2 (staff_insert t_engineer (staff_ids (self w)))
            (range 0 (count `min` length (staff_ids (self w)))) qs.
Proof.
  intros Hc Hstudio. unfold generate_engineers, mbind, M_bind.
  erewrite bind_run by apply get_run.
  destruct (for_each_log
              (fun w0 => connected (self w0) = true /\
                         staff_ids (self w0) = staff_ids (self w) /\
                         studio_ids (self w0) = studio_ids (self w))
              (staff_insert t_engineer (staff_ids (self w)))
              engineer_body
              (range 0 (count `min` length (staff_ids (self w)))))
    with (w := w) as (w' & qs & E & (Hc' & Hs & _) & Hi & _ & Hqs); [|done|].
  - intros i w0 Hi (Hc0 & Hs & Hst). apply elem_of_range in Hi.
    destruct (lookup_lt_is_Some_2 (staff_ids (self w)) i) as [id Hid]; [lia|].
    destruct (engineer_iteration i id w0) as (w1 & rest & E & Hone & Hc1 & Hs1 & Hst1);
      [done | by rewrite Hs | by rewrite Hst|].
    exists w1, (Insert t_engineer (id :: rest)). split; [done|].
    split; [repeat split; congruence|]. split; [done|]. by exists id, rest.
  - by exists w', qs.
Qed.

Lemma generate_managers_run (count : nat) (w : World) :
  connected (self w) = true ->
  exists w' qs,
    generate_managers count w = (inr tt, w') /\
    connected (self w') = true /\
    staff_ids (self w') = staff_ids (self w) /\
    issued w' = issued w ++ qs /\
    Forall2 (staff_insert t_manager (staff_ids (self w)))
            (range count ((count + 10) `min` length (staff_ids (self w)))) qs.
Proof.
  intros Hc. unfold generate_managers, mbind, M_bind.
  erewrite bind_run by apply get_run.
  destruct (for_each_log
              (fun w0 => connected (self w0) = true /\
                         staff_ids (self w0) = staff_ids (self w))
              (staff_insert t_manager (staff_ids (self w)))
              manager_body
              (range count ((count + 10) `min` length (staff_ids (self w)))))
    with (w := w) as (w' & qs & E & [Hc' Hs] & Hi & _ & Hqs); [|done|].
  - intros i w0 Hi [Hc0 Hs]. apply elem_of_range in Hi.
    destruct (lookup_lt_is_Some_2 (staff_ids (self w)) i) as [id Hid]; [lia|].
    destruct (manager_iteration i id w0) as (w1 & rest & E & Hone & Hc1 & Hs1 & Hst1);
      [done | by rewrite Hs|].
    exists w1, (Insert t_manager (id :: rest)). split; [done|].
    split; [split; congruence|]. split; [done|]. by exists id, rest.
  - by exists w', qs.
Qed.

Lemma attempted_elem t (trace : list Stmt) v rest :
  Insert t (v :: rest) ∈ trace -> v ∈ attempted t trace.
Proof.
  intros Hin. unfold attempted. apply list_elem_of_omap.
  exists (Insert t (v :: rest)). split; [done|]. simpl. by rewrite decide_True.
Qed.

Lemma staff_insert_attempted t staff xs qs i id :
  Forall2 (staff_insert t staff) xs qs -> i ∈ xs -> staff !! i = Some id ->
  id ∈ attempted t qs.
Proof.
  intros Hqs Hi Hid. apply list_elem_of_lookup in Hi as [k Hk].
  destruct (Forall2_lookup_l _ _ _ _ _ Hqs Hk) as (q & Hq & id' & rest & Hid' & ->).
  simplify_eq. eapply attempted_elem. by eapply list_elem_of_lookup_2.
Qed.

Lemma attempted_app t l1 l2 : attempted t (l1 ++ l2) = attempted t l1 ++ attempted t l2.
Proof. unfold attempted. apply omap_app. Qed.

(** C3. Whenever [generate_engineers(15)] is followed by
    [generate_managers(10)] on a connected generator that holds at
    least one studio id, each of the staff ids at positions 10 to 14 of the pool
    is sent both in an Engineer insert and in a Manager insert: the
    engineers take the positions 0 to 14 and the managers the positions
    10 to 19, so the two ranges overlap as soon as the pool has more
    than ten ids. *)
Theorem engineers_and_managers_share_staff (w : World) (i : nat) (id : Val) :
  connected (self w) = true ->
  studio_ids (self w) <> [] ->
  (10 <= i < 15)%nat ->
  staff_ids (self w) !! i = Some id ->
  let sent := emitted w ((generate_engineers 15 ;; generate_managers 10) w).2 in
  id ∈ attempted t_engineer sent /\ id ∈ attempted t_manager sent.
Proof.
  intros Hc Hstudio Hi Hid. cbv zeta. unfold mbind, M_bind.
  destruct (generate_engineers_run 15 w Hc Hstudio) as (w1 & qe & E1 & Hc1 & Hs1 & Hi1 & Hqe).
  destruct (generate_managers_run 10 w1 Hc1) as (w2 & qm & E2 & _ & Hs2 & Hi2 & Hqm).
  erewrite bind_run by exact E1. rewrite E2. simpl.
  unfold emitted. rewrite Hi2, Hi1, <- app_assoc, drop_app_length, !attempted_app.
  assert (i < length (staff_ids (self w)))%nat as Hlen by (by eapply lookup_lt_Some).
  rewrite Hs1 in Hqm. split.
  - apply elem_of_app. left. eapply staff_insert_attempted; [exact Hqe| |exact Hid].
    apply elem_of_range. lia.
  - apply elem_of_app. right. eapply staff_insert_attempted; [exact Hqm| |exact Hid].
    apply elem_of_range. lia.
Qed.

End Staff.

(** ** Two runs that differ in the database's random source *)

Section Rel.

Context `{Seeds}.

Lemma rel_ret {A} (RA : A -> A -> Prop) a1 a2 : RA a1 a2 -> rel RA (ret a1) (ret a2).
Proof. by intros Ha w1 w2 Hs. Qed.

Lemma rel_bind {A B} (RA : A -> A -> Prop) (RB : B -> B -> Prop) m1 m2 k1 k2 :
  rel RA m1 m2 -> (forall a1 a2, RA a1 a2 -> rel RB (k1 a1) (k2 a2)) ->
  rel RB (bind m1 k1) (bind m2 k2).
Proof.
  intros Hm Hk w1 w2 Hs. unfold bind. destruct (Hm w1 w2 Hs) as [Hr Hs'].
  destruct (m1 w1) as [[e1|a1] w1'], (m2 w2) as [[e2|a2] w2']; simpl in *; try done.
  by apply Hk.
Qed.

Lemma rel_try_except {A} (RA : A -> A -> Prop) m1 m2 h1 h2 :
  rel RA m1 m2 -> (forall e, rel RA (h1 e) (h2 e)) ->
  rel RA (try_except m1 h1) (try_except m2 h2).
Proof.
  intros Hm Hh w1 w2 Hs. unfold try_except. destruct (Hm w1 w2 Hs) as [Hr Hs'].
  destruct (m1 w1) as [[e1|a1] w1'], (m2 w2) as [[e2|a2] w2']; simpl in *; try done.
  subst e2. by apply Hh.
Qed.

Lemma stable_ret {A} (a : A) : stable (ret a).
Proof. by apply rel_ret. Qed.

Lemma stable_raise {A} e : stable (@raise _ _ A e).
Proof. by intros w1 w2 Hs. Qed.

Lemma stable_bind {A B} (m : M A) (k : A -> M B) :
  stable m -> (forall a, stable (k a)) -> stable (bind m k).
Proof. intros Hm Hk. eapply rel_bind; [exact Hm|]. intros a ? <-. apply Hk. Qed.

Lemma stable_try_except {A} (m : M A) h :
  stable m -> (forall e, stable (h e)) -> stable (try_except m h).
Proof. intros Hm Hh. by apply rel_try_except. Qed.

Lemma stable_try_finally {A} (m : M A) f :
  stable m -> stable f -> stable (try_finally m f).
Proof.
  intros Hm Hf w1 w2 Hs. unfold try_finally. destruct (Hm w1 w2 Hs) as [Hr Hs'].
  destruct (m w1) as [r1 w1'], (m w2) as [r2 w2']; simpl in *.
  destruct (Hf w1' w2' Hs') as [Hr' Hs''].
  destruct (f w1') as [[e1|[]] w1''], (f w2') as [[e2|[]] w2'']; simpl in *; done.
Qed.

Lemma stable_for_each {A} (xs : list A) (body : A -> M unit) :
  (forall x, stable (body x)) -> stable (for_each xs body).
Proof.
  intros Hb. induction xs as [|x xs IH]; simpl.
  - apply stable_ret.
  - apply stable_bind; [apply Hb | intros _; apply IH].
Qed.

Lemma stable_get_self {A} (f : DataGenerator -> A) : stable (get (fun w => f (self w))).
Proof. intros w1 w2 Hs. split; [|done]. simpl. destruct Hs as (-> & _). done. Qed.

Lemma stable_get_today : stable (get today).
Proof. intros w1 w2 Hs. split; [|done]. simpl. by destruct Hs as (_ & _ & -> & _). Qed.

Lemma stable_draw {A} (f : Rng -> A * Rng) : stable (draw f).
Proof.
  intros w1 w2 (Hself & Hrng & Hnow & Hre & Hdb & Hi). unfold draw. rewrite Hrng.
  destruct (f (rng w2)) as [a r]. simpl. done.
Qed.

Lemma stable_modify_self (g : DataGenerator -> DataGenerator) :
  stable (modify (fun w => set_self (g (self w)) w)).
Proof.
  intros w1 w2 (Hself & Hrng & Hnow & Hre & Hdb & Hi). simpl. rewrite Hself. done.
Qed.

Lemma stable_index {A} (xs : list A) i : stable (index xs i).
Proof. unfold index. destruct (xs !! i); [apply stable_ret | apply stable_raise]. Qed.

Lemma stable_random_choice {A} (xs : list A) : stable (random_choice xs).
Proof.
  unfold random_choice. destruct xs; [apply stable_raise|].
  apply stable_bind; [apply stable_draw | intros i; apply stable_index].
Qed.

Lemma stable_first_cell r : stable (first_cell r).
Proof.
  unfold first_cell. destruct r as [[|[|v ?] ?]|]; try apply stable_raise. apply stable_ret.
Qed.

Lemma stable_connect : stable connect.
Proof.
  intros w1 w2 Hs. pose proof Hs as (Hself & Hrng & Hnow & Hre & Hdb & Hi).
  unfold connect. rewrite Hre.
  destruct (reachable w2) eqn:E; simpl; [|done]. rewrite Hself. split; [done|].
  unfold sim. simpl. by rewrite E.
Qed.

Lemma stable_disconnect : stable disconnect.
Proof.
  intros w1 w2 Hs. pose proof Hs as (Hself & Hrng & Hnow & Hre & Hdb & Hi).
  unfold disconnect. rewrite Hself.
  destruct (connected (self w2)); simpl; [|done]. split; [done|].
  unfold sim. simpl. done.
Qed.

Lemma erase_song_pick_eq q1 q2 :
  erase_song_pick q1 = erase_song_pick q2 ->
  q1 = q2 \/ exists a1 b1 a2 b2 rest,
              q1 = Insert t_song_distribution (a1 :: b1 :: rest) /\
              q2 = Insert t_song_distribution (a2 :: b2 :: rest).
Proof.
  destruct q1 as [?| | |t1 [|a1 [|b1 r1]]|], q2 as [?| | |t2 [|a2 [|b2 r2]]|];
    try destruct t1; try destruct t2; simpl; intros He;
    try discriminate; try (left; congruence);
    right; simplify_eq; eauto 10.
Qed.

Lemma pg_exec_same q1 q2 d1 d2 :
  same_but_random d1 d2 ->
  erase_song_pick q1 = erase_song_pick q2 ->
  q1 <> SelectRandomSong ->
  (pg_exec q1 d1).1 = (pg_exec q2 d2).1 /\
  same_but_random (pg_exec q1 d1).2 (pg_exec q2 d2).2.
Proof.
  intros (Hser & Hkeys & Htrig & Hfails & Hclock) He Hns.
  unfold pg_exec. rewrite Hfails, Hclock.
  destruct (pg_fails d2 (pg_clock d2)).
  { simpl. unfold same_but_random. simpl. by rewrite Hclock. }
  destruct (erase_song_pick_eq q1 q2 He) as [<-|Hsd].
  - destruct q1 as [t| | |t params|]; [..|done].
    + destruct (truncates_song t); unfold same_but_random; simpl;
        by rewrite Hser, ?Hkeys, Hclock.
    + unfold same_but_random; simpl. by rewrite Hclock.
    + unfold same_but_random; simpl. by rewrite Hclock.
    + destruct (returning t).
      * simpl. rewrite Hser. unfold same_but_random. simpl. by rewrite Hser, Hclock.
      * destruct t; simpl; try (unfold same_but_random; simpl; by rewrite Hclock).
        destruct params as [|a [|b ?]]; simpl;
          try (unfold same_but_random; simpl; by rewrite Hclock).
        rewrite Hkeys. case_bool_decide; simpl; unfold same_but_random; simpl;
          by rewrite ?Hkeys, Hclock.
  - destruct Hsd as (a1 & b1 & a2 & b2 & rest & -> & ->). simpl.
    unfold same_but_random. simpl. by rewrite Hclock.
Qed.

Lemma rel_execute q1 q2 :
  erase_song_pick q1 = erase_song_pick q2 -> q1 <> SelectRandomSong ->
  rel eq (execute_query q1) (execute_query q2).
Proof.
  intros He Hns w1 w2 (Hself & Hrng & Hnow & Hre & Hdb & Hi).
  unfold execute_query. rewrite Hself.
  destruct (connected (self w2)); [|simpl; unfold sim; done]. simpl.
  change (@db_exec pg q1 (db w1)) with (pg_exec q1 (db w1)).
  change (@db_exec pg q2 (db w2)) with (pg_exec q2 (db w2)).
  destruct (pg_exec_same q1 q2 _ _ Hdb He Hns) as [Hr Hd'].
  assert (erase_song_pick <$> issued w1 ++ [q1] = erase_song_pick <$> issued w2 ++ [q2]) as Hi'.
  { rewrite !fmap_app. simpl. by rewrite Hi, He. }
  destruct (pg_exec q1 (db w1)) as [r1 d1'], (pg_exec q2 (db w2)) as [r2 d2']. simpl in *.
  subst r2. destruct r1; simpl; done.
Qed.

Lemma stable_execute q : q <> SelectRandomSong -> stable (execute_query q).
Proof. intros. by apply rel_execute. Qed.

Lemma rel_select : rel pick_rel (execute_query SelectRandomSong) (execute_query SelectRandomSong).
Proof.
  intros w1 w2 (Hself & Hrng & Hnow & Hre & Hdb & Hi).
  unfold execute_query. rewrite Hself.
  destruct (connected (self w2)); [|simpl; unfold sim; done].
  destruct Hdb as (Hser & Hkeys & Htrig & Hfails & Hclock). simpl.
  change (@db_exec pg SelectRandomSong (db w1)) with (pg_exec SelectRandomSong (db w1)).
  change (@db_exec pg SelectRandomSong (db w2)) with (pg_exec SelectRandomSong (db w2)).
  assert (erase_song_pick <$> issued w1 ++ [SelectRandomSong]
          = erase_song_pick <$> issued w2 ++ [SelectRandomSong]) as Hi'.
  { rewrite !fmap_app. simpl. by rewrite Hi. }
  unfold pg_exec. rewrite Hfails, Hclock, Hkeys.
  destruct (pg_fails (db w2) (pg_clock (db w2))); simpl.
  { unfold sim, same_but_random. simpl. by rewrite Hclock. }
  destruct (song_keys (db w2)) as [|k ks] eqn:Ek; simpl.
  - split; [by left|]. unfold sim, same_but_random. simpl.
    repeat split; try done; congruence.
  - split; [right; by eexists _, _, _, _|].
    unfold sim, same_but_random. simpl. repeat split; try done; congruence.
Qed.

Lemma stable_get {A} (f : World -> A) :
  (forall w1 w2, sim w1 w2 -> f w1 = f w2) -> stable (get f).
Proof. intros Hf w1 w2 Hs. split; [|done]. simpl. by apply Hf. Qed.

Lemma stable_modify (f : World -> World) :
  (forall w1 w2, sim w1 w2 -> sim (f w1) (f w2)) -> stable (modify f).
Proof. intros Hf w1 w2 Hs. split; [done|]. simpl. by apply Hf. Qed.

End Rel.

Ltac sim_side :=
  let Hself := fresh "Hself" in
  intros ? ? (Hself & ? & ? & ? & ? & ?);
  unfold sim; simpl; rewrite ?Hself; done.

Ltac stable_step :=
  lazymatch goal with
  | |- stable (ret _) => apply stable_ret
  | |- stable (raise _) => apply stable_raise
  | |- stable (get _) => apply stable_get; sim_side
  | |- stable (draw _) => apply stable_draw
  | |- stable (modify _) => apply stable_modify; sim_side
  | |- stable (index _ _) => apply stable_index
  | |- stable (random_choice _) => apply stable_random_choice
  | |- stable (first_cell _) => apply stable_first_cell
  | |- stable connect => apply stable_connect
  | |- stable (execute_query _) => apply stable_execute; discriminate
  | |- stable (for_each _ _) => apply stable_for_each; intros ?
  | |- stable (try_except _ _) => apply stable_try_except; [| intros ?]
  | |- stable (try_finally _ _) => apply stable_try_finally
  | |- stable (bind _ _) => apply stable_bind; [| intros ?]
  | |- stable (let _ := _ in _) => cbv zeta
  end.

Ltac stable_auto := repeat first [unfold_calls | stable_step].

Ltac as_stable := lazymatch goal with |- rel eq ?m ?m => change (stable m) end.

Section Determinism.

Context `{Seeds}.

Lemma clean_database_stable : stable clean_database.
Proof. unfold clean_database. stable_auto. Qed.

Lemma generate_artists_stable n : stable (generate_artists n).
Proof. unfold generate_artists. stable_auto. Qed.

Lemma generate_producers_stable n : stable (generate_producers n).
Proof. unfold generate_producers. stable_auto. Qed.

Lemma generate_studios_stable n : stable (generate_studios n).
Proof. unfold generate_studios. stable_auto. Qed.

Lemma generate_albums_stable n : stable (generate_albums n).
Proof. unfold generate_albums. stable_auto. Qed.

Lemma generate_songs_stable n : stable (generate_songs n).
Proof. unfold generate_songs. stable_auto. Qed.

Lemma generate_recording_sessions_stable n : stable (generate_recording_sessions n).
Proof. unfold generate_recording_sessions. stable_auto. Qed.

Lemma generate_staff_stable n : stable (generate_staff n).
Proof. unfold generate_staff. stable_auto. Qed.

Lemma generate_engineers_stable n : stable (generate_engineers n).
Proof. unfold generate_engineers. stable_auto. Qed.

Lemma generate_managers_stable n : stable (generate_managers n).
Proof. unfold generate_managers. stable_auto. Qed.

Lemma generate_distributions_stable n : stable (generate_distributions n).
Proof. unfold generate_distributions. stable_auto. Qed.

Lemma generate_contracts_stable n : stable (generate_contracts n).
Proof. unfold generate_contracts. stable_auto. Qed.

Lemma generate_artist_albums_stable n : stable (generate_artist_albums n).
Proof. unfold generate_artist_albums. stable_auto. Qed.

Lemma generate_song_distributions_stable n : stable (generate_song_distributions n).
Proof.
  unfold generate_song_distributions.
  apply stable_for_each. intros i. apply rel_try_except; [|intros e; apply stable_ret].
  unfold mbind, M_bind, mret, M_ret.
  eapply rel_bind; [apply rel_select|].
  intros r1 r2 [[-> ->]|(a1 & s1 & a2 & s2 & -> & ->)]; [apply stable_ret|].
  cbn [unpack_pair].
  eapply (rel_bind (fun _ _ => True)); [by apply rel_ret|].
  intros [x1 y1] [x2 y2] _.
  apply (rel_bind eq); [as_stable; stable_auto|]. intros d_ids ? <-.
  apply (rel_bind eq); [as_stable; stable_auto|]. intros distribution_id ? <-.
  apply (rel_bind eq); [as_stable; stable_auto|]. intros publish_date ? <-.
  apply (rel_bind eq); [as_stable; stable_auto|]. intros status ? <-.
  apply (rel_bind eq); [|intros ? ? _; by apply rel_ret].
  by apply rel_execute.
Qed.

Lemma generate_all_stable : stable generate_all.
Proof.
  unfold generate_all. apply stable_try_finally; [|apply stable_disconnect].
  apply stable_try_except; [|intros e; apply stable_ret].
  unfold mbind, M_bind.
  apply stable_bind; [apply stable_connect | intros _].
  apply stable_bind; [apply clean_database_stable | intros _].
  apply stable_bind; [apply generate_artists_stable | intros _].
  apply stable_bind; [apply generate_producers_stable | intros _].
  apply stable_bind; [apply generate_studios_stable | intros _].
  apply stable_bind; [apply generate_albums_stable | intros _].
  apply stable_bind; [apply generate_songs_stable | intros _].
  apply stable_bind; [apply generate_recording_sessions_stable | intros _].
  apply stable_bind; [apply generate_staff_stable | intros _].
  apply stable_bind; [apply generate_engineers_stable | intros _].
  apply stable_bind; [apply generate_managers_stable | intros _].
  apply stable_bind; [apply generate_distributions_stable | intros _].
  apply stable_bind; [apply generate_song_distributions_stable | intros _].
  apply stable_bind; [apply generate_contracts_stable | intros _].
  apply generate_artist_albums_stable.
Qed.

(** C4, amended. Two runs of [generate_all] from the same seed, on the
    same day, against databases that are equal except for the source of
    RANDOM(), end with the same result, the same id pools and the same
    state of the seeded generators, and send the same statements in the
    same order with the same values, except that the Song each
    SongDistribution row is attached to (the first two parameters of
    its insert) may differ: it is picked by the database's
    ORDER BY RANDOM(), which the seed does not reach. *)
Theorem generate_all_determined_up_to_song_pick (w : @World _ pg) (f g : nat -> nat) :
  let run1 := generate_all (with_random f w) in
  let run2 := generate_all (with_random g w) in
  run1.1 = run2.1 /\
  self run1.2 = self run2.2 /\
  rng run1.2 = rng run2.2 /\
  erase_song_pick <$> issued run1.2 = erase_song_pick <$> issued run2.2.
Proof.
  cbv zeta.
  assert (sim (with_random f w) (with_random g w)) as Hs.
  { unfold sim, with_random, same_but_random. simpl. done. }
  destruct (generate_all_stable _ _ Hs) as [Hr (Hself & Hrng & _ & _ & _ & Hi)].
  repeat split; try done.
  destruct (generate_all (with_random f w)).1 as [e1|[]],
           (generate_all (with_random g w)).1 as [e2|[]]; simpl in Hr; try done.
  by subst.
Qed.

End Determinism.

(** ** The script on a fresh database

    [script 739000 (fresh_pg random_a no_failure)] is the record of a
    whole run in which every statement succeeds. *)

Lemma not_all_before t1 t2 (trace : list Stmt) (i j : nat) :
  inserts_into t1 <$> trace !! i = Some true ->
  inserts_into t2 <$> trace !! j = Some true ->
  (j <= i)%nat ->
  ~ all_before t1 t2 trace.
Proof.
  intros Hi Hj Hle Hall.
  destruct (trace !! i) as [[| | |t p1|]|] eqn:Ei; simpl in Hi; try discriminate.
  destruct (trace !! j) as [[| | |t' p2|]|] eqn:Ej; simpl in Hj; try discriminate.
  injection Hi as Hi. injection Hj as Hj.
  apply bool_decide_eq_true in Hi, Hj. subst t t'.
  specialize (Hall _ _ _ _ Ei Ej). lia.
Qed.

(** Ground facts about one or two computed values, decided by
    evaluating the value once. *)
Lemma decide_with {A} (x : A) (P : A -> Prop) {dec : forall a, Decision (P a)} :
  (let v := x in bool_decide (P v)) = true -> P x.
Proof. cbv zeta. apply bool_decide_eq_true_1. Qed.

Lemma decide_with2 {A B} (x : A) (y : B) (P : A -> B -> Prop)
    {dec : forall a b, Decision (P a b)} :
  (let v := x in let u := y in bool_decide (P v u)) = true -> P x y.
Proof. cbv zeta. apply bool_decide_eq_true_1. Qed.

Ltac decide_with_value x :=
  pattern x;
  lazymatch goal with
  | |- ?P _ =>
      apply (@decide_with _ x P ltac:(intros ?; cbv beta; apply _));
      vm_compute; reflexivity
  end.

Ltac decide_with_values x y :=
  pattern x, y;
  lazymatch goal with
  | |- ?P _ _ =>
      apply (@decide_with2 _ _ x y P ltac:(intros ? ?; cbv beta; apply _));
      vm_compute; reflexivity
  end.

(** Against C2 as stated: in the run on a fresh database the hundred
    Album insertions are statements 143 to 242, the Song insertions lie
    between 244 and 743 and the RecordingSession insertions between 745
    and 894, while the Staff insertions are statements 895 to 934 and
    the Distribution insertions statements 960 to 969: no Staff or
    Distribution insertion precedes an Album insertion. *)
Lemma albums_inserted_before_staff_and_distributions :
  let trace := script 739000 (fresh_pg random_a no_failure) in
  positions t_album trace = seq 143 100 /\
  positions t_song trace = seq 244 500 /\
  positions t_recording_session trace = seq 745 150 /\
  positions t_staff trace = seq 895 40 /\
  positions t_distribution trace = seq 960 10 /\
  ~ all_before t_staff t_album trace /\
  ~ all_before t_distribution t_album trace.
Proof.
  cbv zeta.
  assert (positions t_album (script 739000 (fresh_pg random_a no_failure)) = seq 143 100 /\
          positions t_song (script 739000 (fresh_pg random_a no_failure)) = seq 244 500 /\
          positions t_recording_session (script 739000 (fresh_pg random_a no_failure))
            = seq 745 150 /\
          positions t_staff (script 739000 (fresh_pg random_a no_failure)) = seq 895 40 /\
          positions t_distribution (script 739000 (fresh_pg random_a no_failure))
            = seq 960 10 /\
          inserts_into t_album <$> script 739000 (fresh_pg random_a no_failure) !! 143%nat
            = Some true /\
          inserts_into t_staff <$> script 739000 (fresh_pg random_a no_failure) !! 895%nat
            = Some true /\
          inserts_into t_distribution
            <$> script 739000 (fresh_pg random_a no_failure) !! 960%nat = Some true)
    as (H1 & H2 & H3 & H4 & H5 & Ha & Hs & Hd).
  { decide_with_value (script 739000 (fresh_pg random_a no_failure)). }
  split; [exact H1|]. split; [exact H2|]. split; [exact H3|]. split; [exact H4|].
  split; [exact H5|]. split.
  - apply (not_all_before t_staff t_album _ 895 143 Hs Ha). lia.
  - apply (not_all_before t_distribution t_album _ 960 143 Hd Ha). lia.
Qed.

(** The order of C2, amended, on the run against a fresh database:
    Album comes before Staff in [generate_all], and so does every
    Album insertion before every Staff insertion. *)
Lemma generate_all_insertion_order_witness :
  (step_of t_album < step_of t_staff)%nat /\
  t_producer ∈ references t_album /\
  all_before t_album t_staff
    (emitted (start 739000 (fresh_pg random_a no_failure))
             (generate_all (start 739000 (fresh_pg random_a no_failure))).2) /\
  all_before t_producer t_album
    (emitted (start 739000 (fresh_pg random_a no_failure))
             (generate_all (start 739000 (fresh_pg random_a no_failure))).2).
Proof.
  assert (step_of t_album < step_of t_staff)%nat as Hlt by (simpl; lia).
  assert (t_producer ∈ references t_album) as Href by (simpl; apply list_elem_of_here).
  split; [exact Hlt|]. split; [exact Href|]. split.
  - exact (proj1 (generate_all_insertion_order
                    (start 739000 (fresh_pg random_a no_failure))) _ _ Hlt).
  - exact (proj1 (proj2 (generate_all_insertion_order
                    (start 739000 (fresh_pg random_a no_failure)))) _ _ Href).
Defined.

(** The overlap in the run of [generate_all] against a fresh database:
    the forty Staff rows get the ids 1 to 40, an Engineer row is
    attempted for the ids 1 to 15 and a Manager row for the ids 11 to
    20, so the ids 11 to 15 are attempted as both. *)
Lemma engineer_and_manager_ranges_overlap :
  let final := (generate_all (start 739000 (fresh_pg random_a no_failure))).2 in
  staff_ids (self final) = VInt <$> seqZ 1 40 /\
  attempted t_engineer (issued final) = VInt <$> seqZ 1 15 /\
  attempted t_manager (issued final) = VInt <$> seqZ 11 10 /\
  filter (fun v => v ∈ VInt <$> seqZ 11 10) (VInt <$> seqZ 1 15) = VInt <$> seqZ 11 5.
Proof.
  cbv zeta.
  decide_with_value (generate_all (start 739000 (fresh_pg random_a no_failure))).2.
Qed.

(** A pool of forty staff ids and one studio: the id at position 12 is
    sent as engineer and as manager. *)
Lemma engineers_and_managers_share_staff_witness :
  connected (self (staffed_world (VInt <$> seqZ 1 40) [VInt 1]
                     (fresh_pg random_a no_failure))) = true /\
  studio_ids (self (staffed_world (VInt <$> seqZ 1 40) [VInt 1]
                      (fresh_pg random_a no_failure))) <> [] /\
  (10 <= 12 < 15)%nat /\
  staff_ids (self (staffed_world (VInt <$> seqZ 1 40) [VInt 1]
                     (fresh_pg random_a no_failure))) !! 12%nat = Some (VInt 13) /\
  (let w := staffed_world (VInt <$> seqZ 1 40) [VInt 1] (fresh_pg random_a no_failure) in
   let sent := emitted w ((generate_engineers 15 ;; generate_managers 10) w).2 in
   VInt 13 ∈ attempted t_engineer sent /\ VInt 13 ∈ attempted t_manager sent).
Proof.
  assert (studio_ids (self (staffed_world (VInt <$> seqZ 1 40) [VInt 1]
                              (fresh_pg random_a no_failure))) <> []) as Hstudio
    by (simpl; discriminate).
  assert (10 <= 12 < 15)%nat as Hpos by lia.
  assert (staff_ids (self (staffed_world (VInt <$> seqZ 1 40) [VInt 1]
                             (fresh_pg random_a no_failure))) !! 12%nat = Some (VInt 13))
    as Hid by reflexivity.
  split; [reflexivity|].
  split; [exact Hstudio|]. split; [exact Hpos|]. split; [exact Hid|].
  exact (engineers_and_managers_share_staff
           (staffed_world (VInt <$> seqZ 1 40) [VInt 1] (fresh_pg random_a no_failure))
           12 (VInt 13) eq_refl Hstudio Hpos Hid).
Defined.

(** Against C4 as stated: two runs from the same seed on the same day
    against two fresh (equal) databases whose RANDOM() differs send the
    same first 971 statements and then attach the first
    SongDistribution row to different songs: song 18 of album 37 in one
    run, song 13 of album 7 in the other. *)
Lemma song_pick_depends_on_database_random :
  let run1 := script 739000 (fresh_pg random_a no_failure) in
  let run2 := script 739000 (fresh_pg random_b no_failure) in
  take 971 run1 = take 971 run2 /\
  run1 !! 970%nat = Some SelectRandomSong /\
  run1 !! 971%nat
    = Some (Insert t_song_distribution
              [VInt 18; VInt 37; VInt 2; VDate 738536; VStr "pending"]) /\
  run2 !! 971%nat
    = Some (Insert t_song_distribution
              [VInt 13; VInt 7; VInt 2; VDate 738536; VStr "pending"]) /\
  run1 <> run2.
Proof.
  cbv zeta.
  decide_with_values (script 739000 (fresh_pg random_a no_failure))
                     (script 739000 (fresh_pg random_b no_failure)).
Qed.

(** Against C9 as stated: with one album id and a session whose fourth
    statement fails, [generate_songs(2)] sends DISABLE, two inserts and
    ENABLE, returns normally, and leaves the trigger disabled; with no
    album id it stops with IndexError in the first iteration, after the
    DISABLE statement and without sending ENABLE. *)
Lemma trigger_left_disabled_after_generate_songs :
  let w := songs_world [VInt 1] (fresh_pg random_a (fails_at 3)) in
  let w0 := songs_world [] (fresh_pg random_a no_failure) in
  (generate_songs 2 w).1 = inr tt /\
  inserts_into t_song <$> issued (generate_songs 2 w).2 = [false; true; true; false] /\
  head (issued (generate_songs 2 w).2) = Some DisableTrigger /\
  last (issued (generate_songs 2 w).2) = Some EnableTrigger /\
  hit_trigger (db w) = true /\
  hit_trigger (db (generate_songs 2 w).2) = false /\
  (generate_songs 2 w0).1 = inl IndexError /\
  issued (generate_songs 2 w0).2 = [DisableTrigger] /\
  hit_trigger (db (generate_songs 2 w0).2) = false.
Proof.
  cbv zeta.
  decide_with_values
    (generate_songs 2 (songs_world [VInt 1] (fresh_pg random_a (fails_at 3))))
    (generate_songs 2 (songs_world [] (fresh_pg random_a no_failure))).
Qed.

(** [generate_songs(2)] with one album id on a fresh database. *)
Lemma generate_songs_brackets_trigger_witness :
  connected (self (songs_world [VInt 1] (fresh_pg random_a no_failure))) = true /\
  album_ids (self (songs_world [VInt 1] (fresh_pg random_a no_failure))) <> [] /\
  (let w := songs_world [VInt 1] (fresh_pg random_a no_failure) in
   let '(r, w') := generate_songs 2 w in
   r = inr tt /\
   (exists inserts,
      emitted w w' = DisableTrigger :: inserts ++ [EnableTrigger] /\
      length inserts = 2%nat /\
      Forall (fun q => inserts_into t_song q = true) inserts) /\
   (pg_fails (db w) (pg_clock (db w) + 2 + 1)%nat = false -> hit_trigger (db w') = true) /\
   (pg_fails (db w) (pg_clock (db w)) = false ->
    pg_fails (db w) (pg_clock (db w) + 2 + 1)%nat = true -> hit_trigger (db w') = false)).
Proof.
  assert (album_ids (self (songs_world [VInt 1] (fresh_pg random_a no_failure))) <> [])
    as Hne by (simpl; discriminate).
  split; [reflexivity|]. split; [exact Hne|].
  exact (generate_songs_brackets_trigger 2
           (songs_world [VInt 1] (fresh_pg random_a no_failure)) eq_refl Hne).
Defined.

End SEED_facts.

(** * Further facts about the API service *)
Module APP_routes_facts.

Import APP APP_routes.

Section RouteFacts.

Variable schema_rejects : Store -> Sql -> option string.
Variable executes : Store -> Query -> string + (Store * Cursor).

Lemma has_all_missing (data : Row) fields f :
  f ∈ fields -> data !! f = None -> has_all data fields = false.
Proof.
  intros Hin Hnone. unfold has_all. apply not_true_is_false. intros Hall.
  rewrite forallb_forall in Hall. apply list_elem_of_In in Hin.
  specialize (Hall f Hin). apply bool_decide_eq_true in Hall as [v Hv]. congruence.
Qed.

Lemma has_all_insert (data : Row) fields k v :
  k ∉ fields -> has_all (<[k := v]> data) fields = has_all data fields.
Proof.
  intros Hk. unfold has_all. induction fields as [|f fs IH]; [done|].
  apply not_elem_of_cons in Hk as [Hne Hk]. simpl.
  rewrite IH by done. by rewrite lookup_insert_ne.
Qed.

Lemma collect_updates_none allowed (data : Row) :
  (forall f, f ∈ allowed -> data !! f = None) -> collect_updates allowed data = [].
Proof.
  intros Hnone. destruct (collect_updates allowed data) as [|[f v] us] eqn:E; [done|].
  assert ((f, v) ∈ collect_updates allowed data) as Hin by (rewrite E; left).
  apply APP_facts.collect_updates_elem in Hin as [Hf Hv].
  rewrite Hnone in Hv by done. done.
Qed.

Lemma collect_updates_some allowed (data : Row) f :
  f ∈ allowed -> is_Some (data !! f) -> collect_updates allowed data <> [].
Proof.
  intros Hf [v Hv] E.
  assert ((f, v) ∈ collect_updates allowed data) as Hin
    by by apply APP_facts.collect_updates_elem.
  rewrite E in Hin. by apply elem_of_nil in Hin.
Qed.

(** X1. POST /api/artists, POST /api/albums and POST /api/songs with a
    body that lacks one of the route's required fields are answered
    400 "Campos requeridos faltantes" before any connection is
    attempted: the server is left exactly as it was. *)
Theorem incomplete_body_rejected_before_connecting (data : Row) (f : string) (sv : Server) :
  data !! f = None ->
  (f ∈ artist_required_fields ->
   create_artist schema_rejects data sv = ((error "Campos requeridos faltantes", 400), sv)) /\
  (f ∈ album_required_fields ->
   create_album executes data sv = ((error "Campos requeridos faltantes", 400), sv)) /\
  (f ∈ song_required_fields ->
   create_song executes data sv = ((error "Campos requeridos faltantes", 400), sv)).
Proof.
  intros Hnone. repeat split; intros Hin.
  - unfold create_artist. by rewrite (has_all_missing _ _ f).
  - unfold create_album. by rewrite (has_all_missing _ _ f).
  - unfold create_song. by rewrite (has_all_missing _ _ f).
Qed.

(** X2. PUT /api/artists/{id} and PUT /api/albums/{id} with a payload
    that has none of the allow-listed fields are answered 400 "No hay
    campos para actualizar" without a connection attempt and leave the
    server as it was; with at least one allow-listed field in the
    payload exactly one connection is attempted. *)
Theorem update_without_allowed_field_rejected (id : Z) (data : Row) (sv : Server) :
  ((forall f, f ∈ artist_allowed_fields -> data !! f = None) ->
   update_artist schema_rejects id data sv
   = ((error "No hay campos para actualizar", 400), sv)) /\
  ((forall f, f ∈ album_allowed_fields -> data !! f = None) ->
   update_album schema_rejects id data sv
   = ((error "No hay campos para actualizar", 400), sv)) /\
  (forall f, f ∈ artist_allowed_fields -> is_Some (data !! f) ->
   dials (update_artist schema_rejects id data sv).2 = S (dials sv)) /\
  (forall f, f ∈ album_allowed_fields -> is_Some (data !! f) ->
   dials (update_album schema_rejects id data sv).2 = S (dials sv)).
Proof.
  rewrite APP_facts.update_artist_run, APP_facts.update_album_run. cbv zeta.
  repeat split.
  - intros Hnone. by rewrite collect_updates_none.
  - intros Hnone. by rewrite collect_updates_none.
  - intros f Hf Hsome. pose proof (collect_updates_some _ _ _ Hf Hsome).
    rewrite bool_decide_eq_false_2 by done.
    destruct (up sv (dials sv)); simpl; [|done]. by destruct (schema_rejects _ _).
  - intros f Hf Hsome. pose proof (collect_updates_some _ _ _ Hf Hsome).
    rewrite bool_decide_eq_false_2 by done.
    destruct (up sv (dials sv)); simpl; [|done]. by destruct (schema_rejects _ _).
Qed.

(** X3. POST /api/artists, PUT /api/artists/{id}, PUT /api/albums/{id}
    and DELETE /api/artists/{id} change the storage only when they
    answer with their success status (201 for the POST, 200 for the
    others): after any other answer the storage holds what it held
    before.  Each of them attempts at most one connection. *)
Theorem failed_write_leaves_storage_unchanged (id : Z) (data : Row) (sv : Server) :
  unchanged_unless 201 sv (create_artist schema_rejects data sv) /\
  unchanged_unless 200 sv (update_artist schema_rejects id data sv) /\
  unchanged_unless 200 sv (update_album schema_rejects id data sv) /\
  unchanged_unless 200 sv (delete_artist schema_rejects id sv).
Proof.
  unfold unchanged_unless.
  rewrite APP_facts.update_artist_run, APP_facts.update_album_run. cbv zeta.
  split; [|split; [|split]].
  - unfold create_artist, get_db_connection, APP.cur_execute.
    destruct (has_all data artist_required_fields); cbn [negb]; [|simpl; split; [done|split; [done|lia]]].
    cbn [store up dials].
    destruct (up sv (dials sv)); cbn [negb]; [|simpl; split; [done|split; [done|lia]]].
    destruct (schema_rejects _ _); [simpl; split; [done|split; [done|lia]]|].
    unfold insert_artist_query, sql_apply.
    destruct (artist (store sv) !! artist_seq (store sv));
      [simpl; split; [done|split; [done|lia]]|].
    cbn [fetchone fetchall head]. rewrite lookup_singleton_eq.
    simpl; (split; [done|split; [done|lia]]).
  - case_bool_decide; [simpl; split; [done|split; [done|lia]]|].
    destruct (up sv (dials sv)); simpl; [|split; [done|split; [done|lia]]].
    destruct (schema_rejects _ _); simpl; (split; [done|split; [done|lia]]).
  - case_bool_decide; [simpl; split; [done|split; [done|lia]]|].
    destruct (up sv (dials sv)); simpl; [|split; [done|split; [done|lia]]].
    destruct (schema_rejects _ _); simpl; (split; [done|split; [done|lia]]).
  - unfold delete_artist, get_db_connection, APP.cur_execute. cbn [store up dials].
    destruct (up sv (dials sv)); cbn [negb]; [|simpl; split; [done|split; [done|lia]]].
    destruct (schema_rejects _ _); simpl; (split; [done|split; [done|lia]]).
Qed.

Lemma select_dials (q : Sql) fetch_one (sv : Server) :
  APP.is_select q = true ->
  (APP.execute_query schema_rejects q fetch_one sv).2 = dialed sv.
Proof.
  intros Hsel. unfold APP.execute_query, get_db_connection, APP.cur_execute, dialed.
  cbn [store up dials]. destruct (up sv (dials sv)); cbn [negb]; [|done].
  destruct (schema_rejects _ _); [done|].
  destruct (sql_apply _ _) as [[s' cur]|]; [|done].
  rewrite Hsel. by destruct fetch_one.
Qed.

Lemma listing_dials (q : Query) fetch_one (sv : Server) :
  is_select q = true ->
  (execute_query executes q fetch_one sv).2 = dialed sv.
Proof.
  intros Hsel. unfold execute_query, get_db_connection, dialed.
  cbn [store up dials]. destruct (up sv (dials sv)); cbn [negb]; [|done].
  destruct (executes _ _) as [msg|[s' cur]]; [done|].
  rewrite Hsel. by destruct fetch_one.
Qed.

Lemma select_fails (q : Sql) fetch_one (sv : Server) :
  query_fails schema_rejects sv 0 q ->
  (APP.execute_query schema_rejects q fetch_one sv).1 = QNone.
Proof.
  unfold query_fails. rewrite Nat.add_0_r. intros Hfail.
  unfold APP.execute_query, get_db_connection, APP.cur_execute. cbn [store up dials].
  destruct (up sv (dials sv)); cbn [negb]; [|done].
  destruct Hfail as [?|Hrej]; [done|].
  by destruct (schema_rejects _ _).
Qed.

Lemma query_fails_dialed (sv : Server) k q :
  query_fails schema_rejects sv (S k) q -> query_fails schema_rejects (dialed sv) k q.
Proof.
  unfold query_fails, dialed. cbn [store up dials].
  by replace (S (dials sv) + k)%nat with (dials sv + S k)%nat by lia.
Qed.

(** X4. The read routes never change the storage, whatever it answers:
    GET by id (artist, album, producer), the five list routes and
    /api/health make exactly one connection attempt and nothing else,
    /api/health answering 200 when that attempt succeeds and 500 when
    it fails; GET /api/stats makes exactly six attempts and leaves the
    storage as it was. *)
Theorem read_routes_leave_storage_untouched (id : Z) (album_id : option string) (sv : Server) :
  (get_artist schema_rejects id sv).2 = dialed sv /\
  (get_album schema_rejects id sv).2 = dialed sv /\
  (get_producer schema_rejects id sv).2 = dialed sv /\
  (get_artists executes sv).2 = dialed sv /\
  (get_albums executes sv).2 = dialed sv /\
  (get_songs executes album_id sv).2 = dialed sv /\
  (get_hit_songs executes sv).2 = dialed sv /\
  (get_producers executes sv).2 = dialed sv /\
  (health sv).2 = dialed sv /\
  (health sv).1.2 = (if up sv (dials sv) then 200 else 500) /\
  store (get_stats schema_rejects sv).2 = store sv /\
  up (get_stats schema_rejects sv).2 = up sv /\
  dials (get_stats schema_rejects sv).2 = (dials sv + 6)%nat.
Proof.
  assert (forall q fo sv0 (k : QueryResult -> Response),
            APP.is_select q = true ->
            (let '(result, sv1) := APP.execute_query schema_rejects q fo sv0 in
             (k result, sv1)).2 = dialed sv0) as Hone.
  { intros q fo sv0 k Hsel. pose proof (select_dials q fo sv0 Hsel) as E.
    by destruct (APP.execute_query schema_rejects q fo sv0). }
  assert (forall q sv0 (k : QueryResult -> Answer),
            is_select q = true ->
            (let '(result, sv1) := execute_query executes q false sv0 in
             (k result, sv1)).2 = dialed sv0) as Hlist.
  { intros q sv0 k Hsel. pose proof (listing_dials q false sv0 Hsel) as E.
    by destruct (execute_query executes q false sv0). }
  split.
  { unfold get_artist. pose proof (select_dials (SelectArtist id) true sv eq_refl) as E.
    destruct (APP.execute_query _ _ _ _) as [[] ?]; exact E. }
  split.
  { unfold get_album. pose proof (select_dials (SelectAlbum id) true sv eq_refl) as E.
    destruct (APP.execute_query _ _ _ _) as [[] ?]; exact E. }
  split.
  { unfold get_producer. pose proof (select_dials (SelectProducer id) true sv eq_refl) as E.
    destruct (APP.execute_query _ _ _ _) as [[] ?]; exact E. }
  split; [by apply Hlist|]. split; [by apply Hlist|].
  split; [by apply Hlist|]. split; [by apply Hlist|]. split; [by apply Hlist|].
  split; [unfold health, get_db_connection; by destruct (up sv (dials sv))|].
  split; [unfold health, get_db_connection; by destruct (up sv (dials sv))|].
  unfold get_stats.
  pose proof (select_dials CountArtist true sv eq_refl) as E1.
  destruct (APP.execute_query schema_rejects CountArtist true sv) as [r1 sv1].
  pose proof (select_dials CountAlbum true sv1 eq_refl) as E2.
  destruct (APP.execute_query schema_rejects CountAlbum true sv1) as [r2 sv2].
  pose proof (select_dials CountSong true sv2 eq_refl) as E3.
  destruct (APP.execute_query schema_rejects CountSong true sv2) as [r3 sv3].
  pose proof (select_dials CountHits true sv3 eq_refl) as E4.
  destruct (APP.execute_query schema_rejects CountHits true sv3) as [r4 sv4].
  pose proof (select_dials SumStreams true sv4 eq_refl) as E5.
  destruct (APP.execute_query schema_rejects SumStreams true sv4) as [r5 sv5].
  pose proof (select_dials CountActiveArtists true sv5 eq_refl) as E6.
  destruct (APP.execute_query schema_rejects CountActiveArtists true sv5) as [r6 sv6].
  simpl in *. subst. unfold dialed. simpl. repeat split. lia.
Qed.

(** X5. GET /api/stats is always answered 200 with exactly the six
    figures; a figure whose query fails (its connection attempt fails
    or the storage refuses the statement) is reported as 0, as if the
    table were empty. *)
Theorem stats_figure_is_zero_when_its_query_fails (sv : Server) :
  let resp := (get_stats schema_rejects sv).1 in
  resp.2 = 200 /\
  dom resp.1 = list_to_set ["total_artists"; "total_albums"; "total_songs"; "total_hits";
                            "total_streams"; "active_artists"] /\
  (query_fails schema_rejects sv 0 CountArtist -> resp.1 !! "total_artists" = Some (VInt 0)) /\
  (query_fails schema_rejects sv 1 CountAlbum -> resp.1 !! "total_albums" = Some (VInt 0)) /\
  (query_fails schema_rejects sv 2 CountSong -> resp.1 !! "total_songs" = Some (VInt 0)) /\
  (query_fails schema_rejects sv 3 CountHits -> resp.1 !! "total_hits" = Some (VInt 0)) /\
  (query_fails schema_rejects sv 4 SumStreams -> resp.1 !! "total_streams" = Some (VInt 0)) /\
  (query_fails schema_rejects sv 5 CountActiveArtists ->
   resp.1 !! "active_artists" = Some (VInt 0)).
Proof.
  cbv zeta. unfold get_stats.
  pose proof (select_dials CountArtist true sv eq_refl) as E1.
  pose proof (select_fails CountArtist true sv) as F1.
  destruct (APP.execute_query schema_rejects CountArtist true sv) as [r1 sv1].
  simpl in E1, F1. subst sv1.
  pose proof (select_dials CountAlbum true (dialed sv) eq_refl) as E2.
  pose proof (select_fails CountAlbum true (dialed sv)) as F2.
  destruct (APP.execute_query schema_rejects CountAlbum true (dialed sv)) as [r2 sv2].
  simpl in E2, F2. subst sv2.
  pose proof (select_dials CountSong true (dialed (dialed sv)) eq_refl) as E3.
  pose proof (select_fails CountSong true (dialed (dialed sv))) as F3.
  destruct (APP.execute_query schema_rejects CountSong true (dialed (dialed sv))) as [r3 sv3].
  simpl in E3, F3. subst sv3.
  pose proof (select_dials CountHits true (dialed (dialed (dialed sv))) eq_refl) as E4.
  pose proof (select_fails CountHits true (dialed (dialed (dialed sv)))) as F4.
  destruct (APP.execute_query schema_rejects CountHits true (dialed (dialed (dialed sv))))
    as [r4 sv4].
  simpl in E4, F4. subst sv4.
  pose proof (select_dials SumStreams true (dialed (dialed (dialed (dialed sv)))) eq_refl) as E5.
  pose proof (select_fails SumStreams true (dialed (dialed (dialed (dialed sv))))) as F5.
  destruct (APP.execute_query schema_rejects SumStreams true
              (dialed (dialed (dialed (dialed sv))))) as [r5 sv5].
  simpl in E5, F5. subst sv5.
  pose proof (select_fails CountActiveArtists true
                (dialed (dialed (dialed (dialed (dialed sv)))))) as F6.
  destruct (APP.execute_query schema_rejects CountActiveArtists true
              (dialed (dialed (dialed (dialed (dialed sv)))))) as [r6 sv6].
  simpl in F6. cbn [fst snd].
  split; [done|]. split; [by rewrite !dom_insert_L, dom_empty_L; set_solver|].
  repeat split; intros Hf.
  - rewrite F1 by done. by simplify_map_eq.
  - rewrite F2 by (by apply query_fails_dialed). by simplify_map_eq.
  - rewrite F3 by (by do 2 apply query_fails_dialed). by simplify_map_eq.
  - rewrite F4 by (by do 3 apply query_fails_dialed). by simplify_map_eq.
  - rewrite F5 by (by do 4 apply query_fails_dialed). by simplify_map_eq.
  - rewrite F6 by (by do 5 apply query_fails_dialed). by simplify_map_eq.
Qed.

Lemma apply_sets_twice us (r : Row) :
  NoDup us.*1 -> apply_sets us (apply_sets us r) = apply_sets us r.
Proof.
  intros Hnd. apply map_eq. intros col.
  destruct (decide (col ∈ us.*1)) as [Hin|Hout].
  - apply list_elem_of_fmap in Hin as ([c v] & -> & Hin). simpl.
    by rewrite !(APP_facts.apply_sets_written us _ c v).
  - by rewrite !APP_facts.apply_sets_frame.
Qed.

Lemma alter_twice (g : Row -> Row) (id : Z) (t : gmap Z Row) :
  (forall r, g (g r) = g r) -> alter g id (alter g id t) = alter g id t.
Proof.
  intros Hg. apply map_eq. intros k. destruct (decide (k = id)) as [->|Hne].
  - rewrite !lookup_alter_eq. destruct (t !! id); simpl; by rewrite ?Hg.
  - by rewrite !lookup_alter_ne.
Qed.

(** X6. A PUT on an artist, or on an album, sent twice with the same
    payload and accepted both times leaves the storage after the second
    PUT as it was after the first. *)
Theorem update_twice_as_once (id : Z) (data : Row) (sv : Server) :
  ((update_artist schema_rejects id data sv).1.2 = 200 ->
   (update_artist schema_rejects id data (update_artist schema_rejects id data sv).2).1.2 = 200 ->
   store (update_artist schema_rejects id data (update_artist schema_rejects id data sv).2).2
   = store (update_artist schema_rejects id data sv).2) /\
  ((update_album schema_rejects id data sv).1.2 = 200 ->
   (update_album schema_rejects id data (update_album schema_rejects id data sv).2).1.2 = 200 ->
   store (update_album schema_rejects id data (update_album schema_rejects id data sv).2).2
   = store (update_album schema_rejects id data sv).2).
Proof.
  split.
  - rewrite (APP_facts.update_artist_run schema_rejects id data sv). cbv zeta.
    case_bool_decide; [done|].
    destruct (up sv (dials sv)); cbn [negb]; [|done].
    destruct (schema_rejects _ _); [done|]. intros _.
    rewrite APP_facts.update_artist_run. cbv zeta.
    rewrite bool_decide_eq_false_2 by done.
    cbn [with_store dialed store up dials fst snd].
    destruct (up sv (S (dials sv))); cbn [negb]; [|done].
    destruct (schema_rejects _ _); [done|]. intros _. cbn [with_store store snd artist album
      producer song contract artist_seq].
    f_equal. apply alter_twice. intros r. apply apply_sets_twice.
    apply APP_facts.collect_updates_NoDup, APP_facts.artist_allowed_NoDup.
  - rewrite (APP_facts.update_album_run schema_rejects id data sv). cbv zeta.
    case_bool_decide; [done|].
    destruct (up sv (dials sv)); cbn [negb]; [|done].
    destruct (schema_rejects _ _); [done|]. intros _.
    rewrite APP_facts.update_album_run. cbv zeta.
    rewrite bool_decide_eq_false_2 by done.
    cbn [with_store dialed store up dials fst snd].
    destruct (up sv (S (dials sv))); cbn [negb]; [|done].
    destruct (schema_rejects _ _); [done|]. intros _. cbn [with_store store snd artist album
      producer song contract artist_seq].
    f_equal. apply alter_twice. intros r. apply apply_sets_twice.
    apply APP_facts.collect_updates_NoDup, APP_facts.album_allowed_NoDup.
Qed.

(** X7. POST /api/artists never changes or removes a stored artist and
    never touches another table; when it answers 201 the artist_id it
    returns was not in use before, and the artist table is the old one
    with one row added under that id. *)
Theorem create_artist_keeps_existing_rows (data : Row) (sv : Server) :
  let out := create_artist schema_rejects data sv in
  keeps_rows (artist (store sv)) (artist (store out.2)) /\
  album (store out.2) = album (store sv) /\
  producer (store out.2) = producer (store sv) /\
  song (store out.2) = song (store sv) /\
  contract (store out.2) = contract (store sv) /\
  (out.1.2 = 201 ->
   exists id row,
     out.1.1 !! "artist_id" = Some (VInt id) /\
     artist (store sv) !! id = None /\
     artist (store out.2) = <[id := row]> (artist (store sv))).
Proof.
  cbv zeta. unfold create_artist, get_db_connection, APP.cur_execute, keeps_rows.
  destruct (has_all data artist_required_fields); cbn [negb]; [|done].
  cbn [store up dials].
  destruct (up sv (dials sv)); cbn [negb]; [|done].
  destruct (schema_rejects _ _); [done|].
  unfold insert_artist_query. cbn [sql_apply].
  destruct (artist (store sv) !! artist_seq (store sv)) as [old|] eqn:Hfree; [done|].
  unfold fetchone. simpl. rewrite lookup_singleton_eq. simpl.
  split.
  { intros k row Hk. rewrite lookup_insert_ne; [done|]. intros E. rewrite <- E in Hk. congruence. }
  repeat split; try done.
  intros _. eexists _, _. split; [apply lookup_insert_eq|]. done.
Qed.

Lemma listing_route (q : Query) (failure : string) (sv : Server) :
  is_select q = true ->
  lists executes q failure sv
    (let '(result, sv1) := execute_query executes q false sv in (listing failure result, sv1)).
Proof.
  intros Hsel. unfold lists, execute_query, get_db_connection, dialed.
  cbn [store up dials].
  destruct (up sv (dials sv)); cbn [negb].
  - destruct (executes (store sv) q) as [msg|[s' cur]].
    + repeat split; try done.
    + rewrite Hsel. repeat split; try done. intros s'' cur' _ ?. by simplify_eq.
  - repeat split; try done.
Qed.

(** X8. The list routes for artists, albums, hit songs and producers
    answer 500 with their own error message when the connection or the
    query fails, and 200 with the rows of the result otherwise, an
    empty result being answered 200 with an empty array; they make one
    connection attempt and never commit. *)
Theorem list_routes_tell_failure_from_empty (sv : Server) :
  lists executes ListArtists "Error al obtener artistas" sv (get_artists executes sv) /\
  lists executes ListAlbums "Error al obtener álbumes" sv (get_albums executes sv) /\
  lists executes ListHitSongs "Error al obtener canciones hit" sv (get_hit_songs executes sv) /\
  lists executes ListProducers "Error al obtener productores" sv (get_producers executes sv).
Proof. repeat split; by apply listing_route. Qed.

(** X23. GET /api/songs without an album_id parameter, or with an
    empty one, runs the query without WHERE clause; with a non-empty
    album_id it binds that text to the WHERE clause.  Either way the
    answer is 500 "Error al obtener canciones" when the connection or
    the query fails and 200 with the rows of the result otherwise, an
    empty result included. *)
Theorem get_songs_filters_by_album (album_id : string) (sv : Server) :
  lists executes (ListSongs None) "Error al obtener canciones" sv (get_songs executes None sv) /\
  get_songs executes (Some "") sv = get_songs executes None sv /\
  (album_id <> "" ->
   lists executes (ListSongs (Some album_id)) "Error al obtener canciones" sv
     (get_songs executes (Some album_id) sv)).
Proof.
  split; [by apply listing_route|]. split; [done|].
  intros Hne. unfold get_songs. apply String.eqb_neq in Hne. rewrite Hne.
  by apply listing_route.
Qed.

Lemma dict_get_insert_ne (data : Row) k k' v d :
  k <> k' -> dict_get (<[k := v]> data) k' d = dict_get data k' d.
Proof. intros Hne. unfold dict_get. by rewrite lookup_insert_ne. Qed.

Lemma dict_get_default (data : Row) k v :
  data !! k = None -> dict_get (<[k := v]> data) k v = dict_get data k v.
Proof. intros E. unfold dict_get. by rewrite lookup_insert_eq, E. Qed.

(** X9. Leaving an optional field out of a POST body is the same as
    sending its default, whatever the storage answers: status "draft"
    and label_name "" for albums, streams_count 0 and is_hit false for
    songs, contract_status "active" and biography "" for artists. *)
Theorem omitted_fields_equal_their_defaults (data : Row) (sv : Server) :
  (data !! "status" = None ->
   create_album executes (<["status" := VStr "draft"]> data) sv = create_album executes data sv) /\
  (data !! "label_name" = None ->
   create_album executes (<["label_name" := VStr ""]> data) sv = create_album executes data sv) /\
  (data !! "streams_count" = None ->
   create_song executes (<["streams_count" := VInt 0]> data) sv = create_song executes data sv) /\
  (data !! "is_hit" = None ->
   create_song executes (<["is_hit" := VBool false]> data) sv = create_song executes data sv) /\
  (data !! "contract_status" = None ->
   create_artist schema_rejects (<["contract_status" := VStr "active"]> data) sv
   = create_artist schema_rejects data sv) /\
  (data !! "biography" = None ->
   create_artist schema_rejects (<["biography" := VStr ""]> data) sv
   = create_artist schema_rejects data sv).
Proof.
  assert (forall k (fields : list string),
            bool_decide (k ∈ fields) = false -> k ∉ fields) as Hout
    by (intros k fields E; by apply bool_decide_eq_false in E).
  repeat split; intros Hnone.
  - unfold create_album. rewrite has_all_insert by (by apply Hout).
    unfold insert_album_query.
    rewrite dict_get_default by done. by rewrite !dict_get_insert_ne by done.
  - unfold create_album. rewrite has_all_insert by (by apply Hout).
    unfold insert_album_query.
    rewrite dict_get_default by done. by rewrite !dict_get_insert_ne by done.
  - unfold create_song. rewrite has_all_insert by (by apply Hout).
    unfold insert_song_query.
    rewrite dict_get_default by done. by rewrite !dict_get_insert_ne by done.
  - unfold create_song. rewrite has_all_insert by (by apply Hout).
    unfold insert_song_query.
    rewrite dict_get_default by done. by rewrite !dict_get_insert_ne by done.
  - unfold create_artist. rewrite has_all_insert by (by apply Hout).
    unfold insert_artist_query.
    rewrite dict_get_default by done. by rewrite !dict_get_insert_ne by done.
  - unfold create_artist. rewrite has_all_insert by (by apply Hout).
    unfold insert_artist_query.
    rewrite dict_get_default by done. by rewrite !dict_get_insert_ne by done.
Qed.

(** X10. POST /api/albums and POST /api/songs with a complete body:
    when the connection fails the answer is 500 "Error de conexión";
    when the INSERT raises, the answer is 400 with the text of the
    exception and nothing is stored; when the INSERT is executed, it is
    committed before the answer is built, so the storage is what the
    INSERT left whether the answer is 201 or 400, and the answer is 201
    exactly when the returned row has the key columns, which the answer
    repeats. *)
Theorem creation_commits_before_answering (data : Row) (sv : Server) :
  (has_all data album_required_fields = true ->
   let out := create_album executes data sv in
   (up sv (dials sv) = false -> out = ((error "Error de conexión", 500), dialed sv)) /\
   (up sv (dials sv) = true ->
    match executes (store sv) (insert_album_query data) with
    | inl msg => out = ((error msg, 400), dialed sv)
    | inr (s', cur) =>
        out.2 = with_store (dialed sv) s' /\
        (out.1.2 = 201 \/ out.1.2 = 400) /\
        (out.1.2 = 201 <->
         exists row id, fetchone cur = Some row /\ row !! "album_id" = Some id /\
                        out.1.1 !! "album_id" = Some id)
    end)) /\
  (has_all data song_required_fields = true ->
   let out := create_song executes data sv in
   (up sv (dials sv) = false -> out = ((error "Error de conexión", 500), dialed sv)) /\
   (up sv (dials sv) = true ->
    match executes (store sv) (insert_song_query data) with
    | inl msg => out = ((error msg, 400), dialed sv)
    | inr (s', cur) =>
        out.2 = with_store (dialed sv) s' /\
        (out.1.2 = 201 \/ out.1.2 = 400) /\
        (out.1.2 = 201 <->
         exists row song_id album_id,
           fetchone cur = Some row /\
           row !! "song_id" = Some song_id /\ row !! "album_id" = Some album_id /\
           out.1.1 !! "song_id" = Some song_id /\ out.1.1 !! "album_id" = Some album_id)
    end)).
Proof.
  split; intros Hall; cbv zeta.
  - unfold create_album, get_db_connection, dialed. rewrite Hall. cbn [negb store up dials].
    split; [by intros ->|]. intros ->. cbn [negb].
    destruct (executes (store sv) (insert_album_query data)) as [msg|[s' cur]]; [done|].
    destruct (fetchone cur) as [row|]; cbn [fst snd].
    + destruct (row !! "album_id") as [id|] eqn:Hid; cbn [fst snd].
      * split; [done|]. split; [by left|]. split; [|done]. intros _.
        exists row, id. by rewrite lookup_insert_eq.
      * split; [done|]. split; [by right|]. split; [done|].
        intros (row' & id & ? & ? & _). simplify_eq.
    + split; [done|]. split; [by right|]. split; [done|].
      intros (row' & id & ? & _). done.
  - unfold create_song, get_db_connection, dialed. rewrite Hall. cbn [negb store up dials].
    split; [by intros ->|]. intros ->. cbn [negb].
    destruct (executes (store sv) (insert_song_query data)) as [msg|[s' cur]]; [done|].
    destruct (fetchone cur) as [row|]; cbn [fst snd].
    + destruct (row !! "song_id") as [sid|] eqn:Hsid; cbn [fst snd].
      * destruct (row !! "album_id") as [aid|] eqn:Haid; cbn [fst snd].
        -- split; [done|]. split; [by left|]. split; [|done]. intros _.
           exists row, sid, aid. rewrite lookup_insert_eq.
           rewrite lookup_insert_ne by done. by rewrite lookup_insert_eq.
        -- split; [done|]. split; [by right|]. split; [done|].
           intros (row' & s & a & ? & ? & ? & _). simplify_eq.
      * split; [done|]. split; [by right|]. split; [done|].
        intros (row' & s & a & ? & ? & _). simplify_eq.
    + split; [done|]. split; [by right|]. split; [done|].
      intros (row' & s & a & ? & _). done.
Qed.

End RouteFacts.

(** ** The routes on concrete requests *)

Lemma incomplete_body_rejected_before_connecting_witness :
  put_body !! "name" = None /\ put_body !! "title" = None /\
  "name" ∈ artist_required_fields /\ "title" ∈ album_required_fields /\
  "title" ∈ song_required_fields /\
  create_artist accepts_all put_body (online demo_store)
  = ((error "Campos requeridos faltantes", 400), online demo_store) /\
  create_album (answers_with []) put_body (online demo_store)
  = ((error "Campos requeridos faltantes", 400), online demo_store) /\
  create_song (answers_with []) put_body (online demo_store)
  = ((error "Campos requeridos faltantes", 400), online demo_store).
Proof.
  assert (put_body !! "name" = None) as Hname by reflexivity.
  assert (put_body !! "title" = None) as Htitle by reflexivity.
  assert ("name" ∈ artist_required_fields) as H1 by repeat constructor.
  assert ("title" ∈ album_required_fields) as H2 by repeat constructor.
  assert ("title" ∈ song_required_fields) as H3 by repeat constructor.
  split; [exact Hname|]. split; [exact Htitle|]. split; [exact H1|]. split; [exact H2|].
  split; [exact H3|].
  split; [exact (proj1 (incomplete_body_rejected_before_connecting accepts_all (answers_with [])
                          put_body "name" (online demo_store) Hname) H1)|].
  split; [exact (proj1 (proj2 (incomplete_body_rejected_before_connecting accepts_all
                          (answers_with []) put_body "title" (online demo_store) Htitle)) H2)|].
  exact (proj2 (proj2 (incomplete_body_rejected_before_connecting accepts_all
                          (answers_with []) put_body "title" (online demo_store) Htitle)) H3).
Defined.

Lemma update_without_allowed_field_rejected_witness :
  (forall f, f ∈ artist_allowed_fields -> unknown_body !! f = None) /\
  (forall f, f ∈ album_allowed_fields -> unknown_body !! f = None) /\
  update_artist accepts_all 7 unknown_body (online demo_store)
  = ((error "No hay campos para actualizar", 400), online demo_store) /\
  update_album accepts_all 3 unknown_body (online demo_store)
  = ((error "No hay campos para actualizar", 400), online demo_store) /\
  "genre" ∈ artist_allowed_fields /\ "genre" ∈ album_allowed_fields /\
  is_Some (put_body !! "genre") /\
  dials (update_artist accepts_all 7 put_body (online demo_store)).2 = 1%nat /\
  dials (update_album accepts_all 3 put_body (online demo_store)).2 = 1%nat.
Proof.
  assert (forall f, f ∈ artist_allowed_fields -> unknown_body !! f = None) as Ha.
  { intros f Hf. unfold artist_allowed_fields in Hf.
    rewrite !elem_of_cons, elem_of_nil in Hf.
    destruct Hf as [->|[->|[->|[->|[->|[]]]]]]; reflexivity. }
  assert (forall f, f ∈ album_allowed_fields -> unknown_body !! f = None) as Hb.
  { intros f Hf. unfold album_allowed_fields in Hf.
    rewrite !elem_of_cons, elem_of_nil in Hf.
    destruct Hf as [->|[->|[->|[->|[]]]]]; reflexivity. }
  assert ("genre" ∈ artist_allowed_fields) as Hga by repeat constructor.
  assert ("genre" ∈ album_allowed_fields) as Hgb by repeat constructor.
  assert (is_Some (put_body !! "genre")) as Hsome by (eexists; reflexivity).
  destruct (update_without_allowed_field_rejected accepts_all 7 unknown_body (online demo_store))
    as (E1 & _ & _ & _).
  destruct (update_without_allowed_field_rejected accepts_all 3 unknown_body (online demo_store))
    as (_ & E2 & _ & _).
  destruct (update_without_allowed_field_rejected accepts_all 7 put_body (online demo_store))
    as (_ & _ & E3 & _).
  destruct (update_without_allowed_field_rejected accepts_all 3 put_body (online demo_store))
    as (_ & _ & _ & E4).
  split; [exact Ha|]. split; [exact Hb|]. split; [exact (E1 Ha)|]. split; [exact (E2 Hb)|].
  split; [exact Hga|]. split; [exact Hgb|]. split; [exact Hsome|].
  split; [exact (E3 "genre" Hga Hsome)|exact (E4 "genre" Hgb Hsome)].
Defined.

Lemma failed_write_leaves_storage_unchanged_witness :
  (create_artist rejects_all new_artist_body (online demo_store)).1.2 = 400 /\
  (delete_artist rejects_all 7 (online demo_store)).1.2 = 400 /\
  unchanged_unless 201 (online demo_store)
    (create_artist rejects_all new_artist_body (online demo_store)) /\
  unchanged_unless 200 (online demo_store)
    (update_artist rejects_all 7 new_artist_body (online demo_store)) /\
  unchanged_unless 200 (online demo_store)
    (update_album rejects_all 7 new_artist_body (online demo_store)) /\
  unchanged_unless 200 (online demo_store) (delete_artist rejects_all 7 (online demo_store)).
Proof.
  split; [reflexivity|]. split; [reflexivity|].
  exact (failed_write_leaves_storage_unchanged rejects_all 7 new_artist_body (online demo_store)).
Defined.

Lemma stats_figure_is_zero_when_its_query_fails_witness :
  query_fails accepts_all (offline demo_store) 0 CountArtist /\
  query_fails accepts_all (offline demo_store) 4 SumStreams /\
  song demo_store <> [] /\
  (get_stats accepts_all (offline demo_store)).1.2 = 200 /\
  (get_stats accepts_all (offline demo_store)).1.1 !! "total_artists" = Some (VInt 0) /\
  (get_stats accepts_all (offline demo_store)).1.1 !! "total_streams" = Some (VInt 0).
Proof.
  assert (query_fails accepts_all (offline demo_store) 0 CountArtist) as H0
    by (left; reflexivity).
  assert (query_fails accepts_all (offline demo_store) 4 SumStreams) as H4
    by (left; reflexivity).
  split; [exact H0|]. split; [exact H4|]. split; [discriminate|].
  destruct (stats_figure_is_zero_when_its_query_fails accepts_all (offline demo_store))
    as (E & _ & E0 & _ & _ & _ & E4 & _).
  split; [exact E|]. split; [exact (E0 H0)|exact (E4 H4)].
Defined.

Lemma update_twice_as_once_witness :
  (update_artist accepts_all 7 put_body (online demo_store)).1.2 = 200 /\
  (update_artist accepts_all 7 put_body
     (update_artist accepts_all 7 put_body (online demo_store)).2).1.2 = 200 /\
  store (update_artist accepts_all 7 put_body (online demo_store)).2 <> demo_store /\
  store (update_artist accepts_all 7 put_body
           (update_artist accepts_all 7 put_body (online demo_store)).2).2
  = store (update_artist accepts_all 7 put_body (online demo_store)).2 /\
  (update_album accepts_all 3 put_body (online demo_store)).1.2 = 200 /\
  store (update_album accepts_all 3 put_body
           (update_album accepts_all 3 put_body (online demo_store)).2).2
  = store (update_album accepts_all 3 put_body (online demo_store)).2.
Proof.
  assert ((update_artist accepts_all 7 put_body (online demo_store)).1.2 = 200) as H1
    by reflexivity.
  assert ((update_artist accepts_all 7 put_body
             (update_artist accepts_all 7 put_body (online demo_store)).2).1.2 = 200) as H2
    by reflexivity.
  assert ((update_album accepts_all 3 put_body (online demo_store)).1.2 = 200) as H3
    by reflexivity.
  assert ((update_album accepts_all 3 put_body
             (update_album accepts_all 3 put_body (online demo_store)).2).1.2 = 200) as H4
    by reflexivity.
  split; [exact H1|]. split; [exact H2|].
  split.
  { intros E. apply (f_equal (fun s => artist s !! 7 ≫= (.!! "genre"))) in E.
    vm_compute in E. discriminate E. }
  split; [exact (proj1 (update_twice_as_once accepts_all 7 put_body (online demo_store)) H1 H2)|].
  split; [exact H3|].
  exact (proj2 (update_twice_as_once accepts_all 3 put_body (online demo_store)) H3 H4).
Defined.

Lemma create_artist_keeps_existing_rows_witness :
  (create_artist accepts_all new_artist_body (online demo_store)).1.2 = 201 /\
  (let out := create_artist accepts_all new_artist_body (online demo_store) in
   keeps_rows (artist (store (online demo_store))) (artist (store out.2)) /\
   album (store out.2) = album (store (online demo_store)) /\
   producer (store out.2) = producer (store (online demo_store)) /\
   song (store out.2) = song (store (online demo_store)) /\
   contract (store out.2) = contract (store (online demo_store)) /\
   (out.1.2 = 201 ->
    exists id row,
      out.1.1 !! "artist_id" = Some (VInt id) /\
      artist (store (online demo_store)) !! id = None /\
      artist (store out.2) = <[id := row]> (artist (store (online demo_store))))).
Proof.
  split; [reflexivity|].
  exact (create_artist_keeps_existing_rows accepts_all new_artist_body (online demo_store)).
Defined.

Lemma get_songs_filters_by_album_witness :
  "3" <> "" /\
  (get_songs (answers_with []) (Some "3") (online demo_store)).1 = (JArray [], 200) /\
  (get_songs (answers_with []) (Some "3") (offline demo_store)).1
  = (JObject (error "Error al obtener canciones"), 500) /\
  lists (answers_with []) (ListSongs (Some "3")) "Error al obtener canciones" (online demo_store)
    (get_songs (answers_with []) (Some "3") (online demo_store)).
Proof.
  assert ("3" <> "") as Hne by discriminate.
  split; [exact Hne|]. split; [reflexivity|]. split; [reflexivity|].
  exact (proj2 (proj2 (get_songs_filters_by_album (answers_with []) "3" (online demo_store)))
           Hne).
Defined.

Lemma omitted_fields_equal_their_defaults_witness :
  new_album_body !! "status" = None /\ new_album_body !! "label_name" = None /\
  new_song_body !! "streams_count" = None /\ new_song_body !! "is_hit" = None /\
  new_artist_body !! "contract_status" = None /\ new_artist_body !! "biography" = None /\
  create_album returns_nothing (<["status" := VStr "draft"]> new_album_body) (online demo_store)
  = create_album returns_nothing new_album_body (online demo_store) /\
  create_album returns_nothing (<["label_name" := VStr ""]> new_album_body) (online demo_store)
  = create_album returns_nothing new_album_body (online demo_store) /\
  create_song returns_nothing (<["streams_count" := VInt 0]> new_song_body) (online demo_store)
  = create_song returns_nothing new_song_body (online demo_store) /\
  create_song returns_nothing (<["is_hit" := VBool false]> new_song_body) (online demo_store)
  = create_song returns_nothing new_song_body (online demo_store) /\
  create_artist accepts_all (<["contract_status" := VStr "active"]> new_artist_body)
    (online demo_store)
  = create_artist accepts_all new_artist_body (online demo_store) /\
  create_artist accepts_all (<["biography" := VStr ""]> new_artist_body) (online demo_store)
  = create_artist accepts_all new_artist_body (online demo_store).
Proof.
  split; [reflexivity|]. split; [reflexivity|]. split; [reflexivity|].
  split; [reflexivity|]. split; [reflexivity|]. split; [reflexivity|].
  destruct (omitted_fields_equal_their_defaults accepts_all returns_nothing new_album_body
              (online demo_store)) as (E1 & E2 & _).
  destruct (omitted_fields_equal_their_defaults accepts_all returns_nothing new_song_body
              (online demo_store)) as (_ & _ & E3 & E4 & _).
  destruct (omitted_fields_equal_their_defaults accepts_all returns_nothing new_artist_body
              (online demo_store)) as (_ & _ & _ & _ & E5 & E6).
  split; [exact (E1 eq_refl)|]. split; [exact (E2 eq_refl)|].
  split; [exact (E3 eq_refl)|]. split; [exact (E4 eq_refl)|].
  split; [exact (E5 eq_refl)|exact (E6 eq_refl)].
Defined.

Lemma creation_commits_before_answering_witness :
  has_all new_album_body album_required_fields = true /\
  has_all new_song_body song_required_fields = true /\
  up (online demo_store) (dials (online demo_store)) = true /\
  (create_album returns_nothing new_album_body (online demo_store)).1
  = (error "'NoneType' object is not subscriptable", 400) /\
  song (store (create_album returns_nothing new_album_body (online demo_store)).2)
  <> song demo_store /\
  (let out := create_album returns_nothing new_album_body (online demo_store) in
   (up (online demo_store) (dials (online demo_store)) = false ->
    out = ((error "Error de conexión", 500), dialed (online demo_store))) /\
   (up (online demo_store) (dials (online demo_store)) = true ->
    match returns_nothing (store (online demo_store)) (insert_album_query new_album_body) with
    | inl msg => out = ((error msg, 400), dialed (online demo_store))
    | inr (s', cur) =>
        out.2 = with_store (dialed (online demo_store)) s' /\
        (out.1.2 = 201 \/ out.1.2 = 400) /\
        (out.1.2 = 201 <->
         exists row id, fetchone cur = Some row /\ row !! "album_id" = Some id /\
                        out.1.1 !! "album_id" = Some id)
    end)).
Proof.
  assert (has_all new_album_body album_required_fields = true) as Ha by reflexivity.
  split; [exact Ha|]. split; [reflexivity|]. split; [reflexivity|]. split; [reflexivity|].
  split; [discriminate|].
  exact (proj1 (creation_commits_before_answering returns_nothing new_album_body
                  (online demo_store)) Ha).
Defined.

End APP_routes_facts.

(** * Further facts about the data generator *)
Module SEED_more_facts.

Import SEED_DATA SEED_vocabulary.

Section Rules.

Context `{Seeds} `{Session}.

Lemma grows_refl (w : World) : grows w w.
Proof. split; [done|]. intros t. done. Qed.

Lemma grows_trans (w1 w2 w3 : World) : grows w1 w2 -> grows w2 w3 -> grows w1 w3.
Proof.
  intros [T1 P1] [T2 P2]. split; [congruence|]. intros t. etrans; [apply P1|apply P2].
Qed.

Lemma grows_set_rng r (w : World) : grows w (set_rng r w).
Proof. split; [done|]. intros t. done. Qed.

Lemma grows_elem (w w' : World) t x :
  grows w w' -> x ∈ pool_of t (self w) -> x ∈ pool_of t (self w').
Proof. intros [_ Hp] Hin. destruct (Hp t) as [k ->]. apply elem_of_app. by left. Qed.

Lemma grows_length (w w' : World) t :
  grows w w' -> (length (pool_of t (self w)) <= length (pool_of t (self w')))%nat.
Proof. intros [_ Hp]. apply prefix_length, Hp. Qed.

Lemma grows_nonempty (w w' : World) t :
  grows w w' -> pool_of t (self w) <> [] -> pool_of t (self w') <> [].
Proof.
  intros Hg Hne E. pose proof (grows_length _ _ t Hg) as Hl. rewrite E in Hl.
  destruct (pool_of t (self w)); [done|simpl in Hl; lia].
Qed.

Lemma lasting_const (C : Prop) : lasting (fun _ => C).
Proof. by intros w w' _. Qed.

Lemma lasting_and (C D : World -> Prop) :
  lasting C -> lasting D -> lasting (fun w => C w /\ D w).
Proof. intros HC HD w w' Hg [? ?]. split; [by eapply HC | by eapply HD]. Qed.

Lemma lasting_known {A} C (f : World -> A) (a : A) : lasting (fun w => known C f w a).
Proof.
  intros w w' Hg (w0 & Hg0 & HC & ->). exists w0. split; [by eapply grows_trans|done].
Qed.

Section WithP.

Variable P : World -> Stmt -> Prop.
Hypothesis P_lasting : forall q, lasting (fun w => P w q).

Lemma triple_ret {A} Pre E (a : A) (Q : World -> A -> Prop) :
  (forall w, Pre w -> Q w a) -> triple Pre P E (ret a) Q.
Proof.
  intros HQ w Hpre. simpl. split; [apply grows_refl|].
  split; [exists []; by rewrite app_nil_r|]. by apply HQ.
Qed.

Lemma triple_raise {A} Pre (E : Exn -> Prop) e (Q : World -> A -> Prop) :
  (forall w, Pre w -> E e) -> triple Pre P E (raise e) Q.
Proof.
  intros HE w Hpre. simpl. split; [apply grows_refl|].
  split; [exists []; by rewrite app_nil_r|]. by eapply HE.
Qed.

Lemma triple_get {A} Pre E (f : World -> A) : triple Pre P E (get f) (known Pre f).
Proof.
  intros w Hpre. simpl. split; [apply grows_refl|].
  split; [exists []; by rewrite app_nil_r|]. exists w. split; [apply grows_refl|done].
Qed.

Lemma triple_draw {A} Pre E (f : Rng -> A * Rng) (Q : A -> Prop) :
  (forall r, Q (f r).1) -> triple Pre P E (draw f) (fun _ a => Q a).
Proof.
  intros HQ w Hpre. unfold draw. specialize (HQ (rng w)).
  destruct (f (rng w)) as [a r]. simpl in *. split; [apply grows_set_rng|].
  split; [exists []; by rewrite app_nil_r|]. done.
Qed.

Lemma triple_weaken {A} (Pre Pre' : World -> Prop) (E E' : Exn -> Prop) (m : M A)
    (Q Q' : World -> A -> Prop) :
  triple Pre P E m Q ->
  (forall w, Pre' w -> Pre w) ->
  (forall e, E e -> E' e) ->
  (forall w a, Q w a -> Q' w a) ->
  triple Pre' P E' m Q'.
Proof.
  intros Hm HPre HE HQ w Hpre. destruct (Hm w (HPre w Hpre)) as (Hg & Hl & Hr).
  split; [done|]. split; [done|].
  destruct (m w).1; [by apply HE | by apply HQ].
Qed.

Lemma triple_bind {A B} Pre E (m : M A) (k : A -> M B) (Q : World -> A -> Prop)
    (R : World -> B -> Prop) :
  lasting Pre ->
  triple Pre P E m Q ->
  (forall a, triple (fun w => Pre w /\ Q w a) P E (k a) R) ->
  triple Pre P E (bind m k) R.
Proof.
  intros HPre Hm Hk w Hpre. unfold bind.
  destruct (Hm w Hpre) as (Hg1 & (l1 & E1 & F1) & Hr1).
  destruct (m w) as [[e|a] w1]; simpl in *.
  - split; [done|]. split; [by exists l1|done].
  - destruct (Hk a w1) as (Hg2 & (l2 & E2 & F2) & Hr2); [split; [by eapply HPre|done]|].
    split; [by eapply grows_trans|]. split; [|done].
    exists (l1 ++ l2). rewrite E2, E1, app_assoc. split; [done|].
    apply Forall_app. split; [|done].
    eapply Forall_impl; [exact F1|]. intros q Hq. by eapply (P_lasting q).
Qed.

Lemma triple_try_except {A} Pre E (m : M A) (h : Exn -> M A) (Q : World -> A -> Prop) :
  lasting Pre ->
  triple Pre P (fun _ => True) m Q ->
  (forall e, triple Pre P E (h e) Q) ->
  (forall a, lasting (fun w => Q w a)) ->
  triple Pre P E (try_except m h) Q.
Proof.
  intros HPre Hm Hh HQ w Hpre. unfold try_except.
  destruct (Hm w Hpre) as (Hg1 & (l1 & E1 & F1) & Hr1).
  destruct (m w) as [[e|a] w1]; simpl in *.
  - destruct (Hh e w1) as (Hg2 & (l2 & E2 & F2) & Hr2); [by eapply HPre|].
    split; [by eapply grows_trans|]. split; [|done].
    exists (l1 ++ l2). rewrite E2, E1, app_assoc. split; [done|].
    apply Forall_app. split; [|done].
    eapply Forall_impl; [exact F1|]. intros q Hq. by eapply (P_lasting q).
  - split; [done|]. split; [by exists l1|done].
Qed.

Lemma triple_try_pass Pre E (m : M unit) (h : Exn -> M unit) :
  lasting Pre ->
  triple Pre P (fun _ => True) m (fun _ _ => True) ->
  (forall e, triple Pre P E (h e) (fun _ _ => True)) ->
  triple Pre P E (try_except m h) (fun _ _ => True).
Proof.
  intros HPre Hm Hh. apply triple_try_except; [done..|]. intros a. apply lasting_const.
Qed.

Lemma grows_disconnect (w : World) : grows w (disconnect w).2.
Proof.
  unfold disconnect. destruct (connected (self w)); simpl; [|apply grows_refl].
  split; [done|]. intros t. by destruct t.
Qed.

Lemma triple_finally_disconnect {A} Pre E (m : M A) (Q : World -> A -> Prop) :
  (forall a, lasting (fun w => Q w a)) ->
  triple Pre P E m Q -> triple Pre P E (try_finally m disconnect) Q.
Proof.
  intros HQ Hm w Hpre. unfold try_finally.
  destruct (Hm w Hpre) as (Hg1 & (l & Hi & Hl) & Hr1).
  destruct (m w) as [r w1]. simpl in *.
  pose proof (grows_disconnect w1) as Hg2.
  assert (exists w2, disconnect w1 = (inr tt, w2) /\ issued w2 = issued w1) as (w2 & E2 & Hi2).
  { unfold disconnect. destruct (connected (self w1)); by eexists. }
  rewrite E2 in *. simpl in *.
  split; [by eapply grows_trans|]. split.
  - exists l. split; [congruence|].
    eapply Forall_impl; [exact Hl|]. intros q Hq. by eapply (P_lasting q).
  - destruct r as [e|a]; [done|]. by eapply (HQ a).
Qed.

Lemma triple_for_each {A} Pre E (xs : list A) (body : A -> M unit) :
  lasting Pre ->
  (forall x, x ∈ xs -> triple Pre P E (body x) (fun _ _ => True)) ->
  triple Pre P E (for_each xs body) (fun _ _ => True).
Proof.
  intros HPre. induction xs as [|x xs IH]; intros Hb; simpl.
  - by apply triple_ret.
  - apply (triple_bind _ _ _ _ (fun _ _ => True)); [done|apply Hb; by left|].
    intros _. eapply triple_weaken; [apply IH|by intros w0 [? _]|done|done].
    intros y Hy. apply Hb. by right.
Qed.

Lemma triple_execute_query Pre (E : Exn -> Prop) q :
  (forall w, Pre w -> P w q) -> E DatabaseError -> E NoConnection ->
  triple Pre P E (execute_query q) (fun _ _ => True).
Proof.
  intros HP HE HA w Hpre. unfold execute_query.
  destruct (connected (self w)).
  - assert (forall d, P (set_db d (log_stmt q w)) q) as HP'.
    { intros d. eapply (P_lasting q); [|by apply HP]. split; [done|]. intros t. done. }
    destruct (db_exec q (db (log_stmt q w))) as [[| |rows] d]; simpl;
      (split; [split; [done|]; intros t; done|]);
      (split; [exists [q]; split; [done|]; constructor; [apply HP'|constructor]|done]).
  - simpl. split; [apply grows_refl|]. split; [exists []; by rewrite app_nil_r|done].
Qed.

Lemma triple_index {A} Pre (E : Exn -> Prop) (xs : list A) i :
  (forall w, Pre w -> xs !! i = None -> E IndexError) ->
  triple Pre P E (index xs i) (fun _ x => xs !! i = Some x).
Proof.
  intros HE. unfold index. destruct (xs !! i) as [x|] eqn:Hx.
  - by apply triple_ret.
  - apply triple_raise. intros w Hpre. by eapply HE.
Qed.

Lemma triple_random_choice {A} Pre (E : Exn -> Prop) (xs : list A) :
  (forall w, Pre w -> xs = [] -> E IndexError) ->
  triple Pre P E (random_choice xs) (fun _ x => x ∈ xs).
Proof.
  intros HE w Hpre. unfold random_choice. destruct xs as [|x0 xs].
  - simpl. split; [apply grows_refl|]. split; [exists []; by rewrite app_nil_r|].
    by eapply HE.
  - unfold bind, draw, index.
    pose proof (randbelow_lt (Z.of_nat (length (x0 :: xs))) (rng w)) as Hlt.
    destruct (randbelow (Z.of_nat (length (x0 :: xs))) (rng w)) as [i r]. simpl in Hlt.
    destruct ((x0 :: xs) !! Z.to_nat i) as [x|] eqn:Hx.
    + simpl. split; [apply grows_set_rng|]. split; [exists []; by rewrite app_nil_r|].
      by eapply list_elem_of_lookup_2.
    + apply lookup_ge_None in Hx. simpl in Hx. lia.
Qed.

Lemma triple_random_randint Pre E a b :
  a <= b -> triple Pre P E (random_randint a b) (fun _ z => a <= z <= b).
Proof.
  intros Hab w Hpre. unfold random_randint, bind, draw, ret.
  pose proof (randbelow_lt (b - a + 1) (rng w)) as Hlt.
  destruct (randbelow (b - a + 1) (rng w)) as [i r]. simpl in *.
  split; [apply grows_set_rng|]. split; [exists []; by rewrite app_nil_r|]. lia.
Qed.

Lemma triple_quiet {A} Pre E (m : M A) :
  (forall w, exists a r, m w = (inr a, set_rng r w)) ->
  triple Pre P E m (fun _ _ => True).
Proof.
  intros Hm w Hpre. destruct (Hm w) as (a & r & ->). simpl.
  split; [apply grows_set_rng|]. split; [exists []; by rewrite app_nil_r|done].
Qed.

Lemma date_between_run years (w : World) :
  exists z r, date_between years w = (inr z, set_rng r w).
Proof.
  unfold date_between. erewrite SEED_facts.bind_run by apply SEED_facts.get_run.
  rewrite SEED_facts.draw_run. by eexists _, _.
Qed.

Lemma triple_first_cell Pre (E : Exn -> Prop) r :
  E TypeError -> E IndexError -> triple Pre P E (first_cell r) (fun _ _ => True).
Proof.
  intros H1 H2. unfold first_cell.
  destruct r as [[|[|v ?] ?]|]; try (by apply triple_raise); by apply triple_ret.
Qed.

Lemma triple_unpack_pair Pre (E : Exn -> Prop) r :
  E ValueError -> triple Pre P E (unpack_pair r) (fun _ _ => True).
Proof.
  intros H1. unfold unpack_pair.
  destruct r as [|a [|b [|c r]]]; try (by apply triple_raise); by apply triple_ret.
Qed.

Lemma triple_connect Pre (E : Exn -> Prop) :
  E OperationalError -> triple Pre P E connect (fun _ _ => True).
Proof.
  intros HE w Hpre. unfold connect. destruct (reachable w); simpl.
  - split; [split; [done|]; intros t; by destruct t|].
    split; [exists []; by rewrite app_nil_r|done].
  - split; [apply grows_refl|]. split; [exists []; by rewrite app_nil_r|done].
Qed.

Lemma triple_push Pre E (f : World -> World) :
  (forall w, grows w (f w) /\ issued (f w) = issued w) ->
  triple Pre P E (modify f) (fun _ _ => True).
Proof.
  intros Hf w Hpre. destruct (Hf w) as [Hg Hi]. simpl.
  split; [done|]. split; [exists []; by rewrite app_nil_r|done].
Qed.

Lemma sends_bind {A B} (m : M A) (k : A -> M B) :
  sends P m -> (forall a, sends P (k a)) -> sends P (bind m k).
Proof.
  intros Hm Hk. unfold sends in *. eapply triple_bind; [apply lasting_const|exact Hm|].
  intros a. eapply triple_weaken; [apply Hk|done..].
Qed.

(** The calls of [generate_all] one after the other: what holds of the
    statements of each call holds of the statements of the script,
    which raises nothing. *)
Lemma sends_generate_all :
  sends P clean_database ->
  (forall n, sends P (generate_artists n)) ->
  (forall n, sends P (generate_producers n)) ->
  (forall n, sends P (generate_studios n)) ->
  (forall n, sends P (generate_albums n)) ->
  (forall n, sends P (generate_songs n)) ->
  (forall n, sends P (generate_recording_sessions n)) ->
  (forall n, sends P (generate_staff n)) ->
  (forall n, sends P (generate_engineers n)) ->
  (forall n, sends P (generate_managers n)) ->
  (forall n, sends P (generate_distributions n)) ->
  (forall n, sends P (generate_song_distributions n)) ->
  (forall n, sends P (generate_contracts n)) ->
  (forall n, sends P (generate_artist_albums n)) ->
  triple (fun _ => True) P (fun _ => False) generate_all (fun _ _ => True).
Proof.
  intros. unfold generate_all.
  apply triple_finally_disconnect; [intros a; apply lasting_const|].
  apply triple_try_except;
    [apply lasting_const| |intros e; by apply triple_ret|intros a; apply lasting_const].
  unfold mbind, M_bind. fold (sends P (bind connect (fun _ => bind clean_database (fun _ =>
    bind (generate_artists 60) (fun _ => bind (generate_producers 50) (fun _ =>
    bind (generate_studios 20) (fun _ => bind (generate_albums 100) (fun _ =>
    bind (generate_songs 500) (fun _ => bind (generate_recording_sessions 150) (fun _ =>
    bind (generate_staff 40) (fun _ => bind (generate_engineers 15) (fun _ =>
    bind (generate_managers 10) (fun _ => bind (generate_distributions 10) (fun _ =>
    bind (generate_song_distributions 300) (fun _ => bind (generate_contracts 50) (fun _ =>
    generate_artist_albums 150)))))))))))))))).
  repeat (apply sends_bind; [first [by apply triple_connect | done]|intros _]).
  done.
Qed.

Lemma triple_returns (m : M unit) (Q : World -> unit -> Prop) (w : World) :
  triple (fun _ => True) P (fun _ => False) m Q -> (m w).1 = inr tt.
Proof.
  intros Hm. destruct (Hm w I) as (_ & _ & Hr). by destruct (m w).1 as [e|[]].
Qed.

Lemma triple_trace {A} E (m : M A) (Q : World -> A -> Prop) (w : World) :
  triple (fun _ => True) P E m Q -> Forall (P (m w).2) (emitted w (m w).2).
Proof.
  intros Hm. destruct (Hm w I) as (_ & (l & El & Fl) & _).
  unfold emitted. by rewrite El, drop_app_length.
Qed.

End WithP.

Lemma grows_push (w : World) (g : DataGenerator) :
  (forall t, pool_of t (self w) `prefix_of` pool_of t g) ->
  grows w (set_self g w) /\ issued (set_self g w) = issued w.
Proof. intros Hp. split; [|done]. split; [done|]. exact Hp. Qed.

Lemma keys_in_pools_lasting q : lasting (fun w => keys_in_pools (self w) q).
Proof.
  intros w w' Hg. destruct q as [| | |t params|]; simpl; try done.
  intros Hq. eapply Forall_impl; [exact Hq|]. intros [t' v]. simpl. by apply grows_elem.
Qed.

End Rules.

Ltac lasting_tac :=
  repeat first
    [ progress cbv beta
    | assumption
    | apply lasting_known
    | apply lasting_const
    | apply lasting_and ].

Ltac push_tac :=
  apply triple_push; intros ?; apply grows_push; intros t; destruct t; simpl;
  first [done | by apply prefix_app_r].

(** [stmt] proves that a statement about to be sent satisfies the
    predicate, [exn] that an exception about to be raised is allowed. *)
Ltac triple_step stmt exn :=
  lazymatch goal with
  | |- triple _ _ _ (ret _) _ => apply triple_ret; intros; exact I
  | |- triple _ _ _ (raise _) _ => apply triple_raise; exn
  | |- triple _ _ _ (get _) _ => apply triple_get
  | |- triple _ _ _ (draw _) _ => apply (triple_draw _ _ _ _ (fun _ => True)); intros; exact I
  | |- triple _ _ _ (modify _) _ => push_tac
  | |- triple _ _ _ (index _ _) _ => apply triple_index; exn
  | |- triple _ _ _ (random_choice _) _ => apply triple_random_choice; exn
  | |- triple _ _ _ (random_randint _ _) _ => apply triple_random_randint; lia
  | |- triple _ _ _ (random_uniform2 _ _) _ =>
      apply triple_quiet; apply SEED_facts.random_uniform2_run
  | |- triple _ _ _ two_words _ => apply triple_quiet; apply SEED_facts.two_words_run
  | |- triple _ _ _ (date_between _) _ => apply triple_quiet; apply date_between_run
  | |- triple _ _ _ (first_cell _) _ => apply triple_first_cell; exn
  | |- triple _ _ _ (unpack_pair _) _ => apply triple_unpack_pair; exn
  | |- triple _ _ _ connect _ => apply triple_connect; exn
  | |- triple _ _ _ (execute_query _) _ =>
      apply triple_execute_query; [assumption | stmt | exn | exn]
  | |- triple _ _ _ (for_each _ _) _ =>
      apply triple_for_each; [assumption | lasting_tac | intros ? ?]
  | |- triple _ _ _ (try_except _ _) _ =>
      apply triple_try_pass; [assumption | lasting_tac | | intros ?]
  | |- triple _ _ _ (bind _ _) _ =>
      eapply triple_bind; [assumption | lasting_tac | | intros ?]
  | |- triple _ _ _ (let _ := _ in _) _ => cbv zeta
  | |- triple _ _ _ (match ?x with _ => _ end) _ => destruct x
  end.

Ltac unfold_more :=
  progress unfold mbind, M_bind, mret, M_ret, fake,
    push_artist_id, push_producer_id, push_studio_id,
    push_album_id, push_distribution_id, push_staff_id, push_engineer_id,
    push_manager_id, disconnect, song_body, engineer_body, manager_body.

Ltac triple_auto stmt exn := repeat first [unfold_more | triple_step stmt exn].

Ltac known_facts :=
  cbv beta in *;
  repeat match goal with
         | H : _ /\ _ |- _ => destruct H
         | H : True |- _ => clear H
         | H : known _ _ _ _ |- _ => destruct H as (? & ? & ? & ?); cbv beta in *
         end;
  subst.

Ltac keys_tac :=
  intros; known_facts;
  repeat match goal with
         | H : ?xs !! _ = Some _ |- _ => apply list_elem_of_lookup_2 in H
         end;
  cbn [keys_in_pools foreign_keys nth];
  repeat constructor; cbn [fst snd];
  match goal with
  | Hg : grows _ _ |- _ => apply (grows_elem _ _ _ _ Hg); simpl; assumption
  end.

Ltac unfold_method :=
  unfold sends, clean_database, generate_artists, generate_producers, generate_studios,
    generate_albums, generate_songs, generate_recording_sessions, generate_staff,
    generate_engineers, generate_managers, generate_distributions,
    generate_song_distributions, generate_contracts, generate_artist_albums.

(** Every call of [generate_all] with the statement predicate of the
    goal, each by the rules above. *)
Ltac each_method stmt :=
  apply sends_generate_all;
  [ assumption
  | unfold_method; triple_auto stmt ltac:(intros; exact I)
  | intros ?; unfold_method; triple_auto stmt ltac:(intros; exact I) .. ].

Section Keys.

Context `{Seeds} `{Session}.

(** X11. In every run of [generate_all], on any database and with any
    random source, every foreign key the script sends (the producer of
    an album, the album of a song, the artist, producer and studio of a
    recording session, the staff id and studio of an engineer, the
    staff id of a manager, the platform of a song distribution, the
    artist of a contract, the artist and album of an artist_album row)
    is an element of the corresponding id pool of the generator
    object. *)
Theorem generate_all_keys_come_from_pools (w : World) :
  Forall (keys_in_pools (self (generate_all w).2)) (emitted w (generate_all w).2).
Proof.
  apply (triple_trace (fun w q => keys_in_pools (self w) q) (fun _ => False) generate_all
           (fun _ _ => True)).
  assert (forall q, lasting (fun w => keys_in_pools (self w) q)) as HP
    by apply keys_in_pools_lasting.
  each_method ltac:(keys_tac).
Qed.

End Keys.

Ltac row_tac :=
  intros; known_facts; simpl; try exact I;
  repeat match goal with
         | Hg : grows _ _ |- _ => destruct Hg as [? _]
         end;
  repeat eexists;
  first [ lia
        | lazymatch goal with
          | |- [_; _; _; _; _; VStr (if today ?x <=? _ then _ else _)]
               = [_; _; _; _; _; VStr (if today ?y <=? _ then _ else _)] =>
              replace (today y) with (today x) by congruence; reflexivity
          end ].

Ltac index_tac :=
  intros; known_facts;
  repeat match goal with
         | H : _ ∈ range _ _ |- _ => apply SEED_facts.elem_of_range in H
         | H : _ !! _ = None |- _ => apply lookup_ge_None in H
         end;
  repeat match goal with
         | Hg : grows _ _ |- _ =>
             pose proof (grows_length _ _ t_staff Hg);
             pose proof (grows_length _ _ t_artist Hg);
             clear Hg
         end;
  simpl in *; lia.

Section Rows.

Context `{Seeds} `{Session}.

(** X12. Every insertion into song that [generate_all] sends has
    seven parameters, a song_id from 1 to 20, a duration from 120 to
    420, a streams_count from 0 to 10000000, and is_hit set exactly
    when streams_count is at least 1000000. *)
Theorem generate_all_song_rows (w : World) :
  Forall song_row_ok (emitted w (generate_all w).2).
Proof.
  apply (triple_trace (fun _ q => song_row_ok q) (fun _ => False) generate_all (fun _ _ => True)).
  assert (forall q, lasting (fun _ : World => song_row_ok q)) as HP
    by (intros q; apply lasting_const).
  each_method ltac:(row_tac).
Qed.

Lemma contract_row_lasting q : lasting (fun w => contract_row_ok (today w) q).
Proof. intros w w' [Ht _]. by rewrite Ht. Qed.

(** X13. Every insertion into contract that [generate_all] sends has
    an end_date between 365 and 1825 days after its start_date, and the
    status "active" when the end_date is not before the day of the run,
    "expired" otherwise. *)
Theorem generate_all_contract_rows (w : World) :
  Forall (contract_row_ok (today w)) (emitted w (generate_all w).2).
Proof.
  assert (forall q, lasting (fun w => contract_row_ok (today w) q)) as HP
    by apply contract_row_lasting.
  assert (triple (fun _ => True) (fun w q => contract_row_ok (today w) q) (fun _ => False)
            generate_all (fun _ _ => True)) as Hall
    by each_method ltac:(row_tac).
  pose proof (triple_trace _ _ _ _ w Hall) as Htrace. cbv beta in Htrace.
  destruct (Hall w I) as ([Ht _] & _). by rewrite Ht in Htrace.
Qed.

Ltac safe_tac := intros; first [exact I | discriminate | index_tac].

(** X14. [clean_database], [generate_managers],
    [generate_distributions], [generate_song_distributions],
    [generate_contracts] and [generate_artist_albums] never raise: they
    return normally from every state of the generator, whatever the
    database answers. *)
Theorem swallowing_steps_never_raise (n : nat) (w : World) :
  (clean_database w).1 = inr tt /\
  (generate_managers n w).1 = inr tt /\
  (generate_distributions n w).1 = inr tt /\
  (generate_song_distributions n w).1 = inr tt /\
  (generate_contracts n w).1 = inr tt /\
  (generate_artist_albums n w).1 = inr tt.
Proof.
  assert (forall q, lasting (fun _ : World => (fun _ : Stmt => True) q)) as HP
    by (intros q; apply lasting_const).
  repeat split;
    apply (triple_returns (fun _ _ => True) _ (fun _ _ => True));
    unfold_method; triple_auto ltac:(intros; exact I) ltac:(safe_tac).
Qed.

Lemma pool_nonempty_lasting t : lasting (fun w => pool_of t (self w) <> []).
Proof. intros w w' Hg. by apply grows_nonempty. Qed.

Ltac filled_tac :=
  intros; first [exact I | discriminate | (known_facts; congruence) | index_tac].

(** X15. [generate_songs] returns normally whenever the generator
    holds an album id, [generate_recording_sessions] whenever it holds
    an artist id, a producer id and a studio id, and
    [generate_engineers] whenever it holds a studio id, whatever the
    database answers. *)
Theorem filled_pools_suffice (n : nat) (w : World) :
  (album_ids (self w) <> [] -> (generate_songs n w).1 = inr tt) /\
  (artist_ids (self w) <> [] -> producer_ids (self w) <> [] -> studio_ids (self w) <> [] ->
   (generate_recording_sessions n w).1 = inr tt) /\
  (studio_ids (self w) <> [] -> (generate_engineers n w).1 = inr tt).
Proof.
  assert (forall q, lasting (fun _ : World => (fun _ : Stmt => True) q)) as HP
    by (intros q; apply lasting_const).
  pose proof (pool_nonempty_lasting t_album) as Hal.
  pose proof (pool_nonempty_lasting t_artist) as Har.
  pose proof (pool_nonempty_lasting t_producer) as Hpr.
  pose proof (pool_nonempty_lasting t_studio) as Hst.
  cbn [pool_of] in Hal, Har, Hpr, Hst.
  assert (forall (Pre : World -> Prop) (m : M unit),
            triple Pre (fun _ _ => True) (fun _ => False) m (fun _ _ => True) ->
            Pre w -> (m w).1 = inr tt) as Hret.
  { intros Pre m Hm Hpre. destruct (Hm w Hpre) as (_ & _ & Hr).
    by destruct (m w).1 as [e|[]]. }
  split; [|split].
  - apply (Hret (fun w => album_ids (self w) <> [])).
    unfold_method; triple_auto ltac:(intros; exact I) ltac:(filled_tac).
  - intros Ha Hp Hs.
    apply (Hret (fun w => artist_ids (self w) <> [] /\ producer_ids (self w) <> [] /\
                          studio_ids (self w) <> [])); [|done].
    unfold_method; triple_auto ltac:(intros; exact I) ltac:(filled_tac).
  - apply (Hret (fun w => studio_ids (self w) <> [])).
    unfold_method; triple_auto ltac:(intros; exact I) ltac:(filled_tac).
Qed.

End Rows.

Ltac domain_tac :=
  intros; known_facts; simpl; try exact I;
  repeat eexists; first [assumption | lia].

Section Domains.

Context `{Seeds} `{Session}.

(** X24. Every insertion [generate_all] sends keeps to the fixed sets
    and ranges of the script: an artist's genre is one of the ten
    genres and its contract_status is active, inactive or suspended; an
    album's status is draft, released or archived and its genre one of
    the ten; a producer's years_experience is from 1 to 40, a studio's
    capacity from 4 to 30, a manager's artists_managed from 1 to 10;
    the status of a distribution and of a song distribution is active,
    inactive or pending; the role of an artist_album row is one of the
    four roles; a recording session is sent with cost 0. *)
Theorem generate_all_column_domains (w : World) :
  Forall column_domains_ok (emitted w (generate_all w).2).
Proof.
  apply (triple_trace (fun _ q => column_domains_ok q) (fun _ => False) generate_all
           (fun _ _ => True)).
  assert (forall q, lasting (fun _ : World => column_domains_ok q)) as HP
    by (intros q; apply lasting_const).
  each_method ltac:(domain_tac).
Qed.

End Domains.

(** ** Where the ids in the pools come from *)

Section Tracks.

Context `{Seeds} `{Session}.

Lemma replies_app qs rs (d : DB) :
  replies (qs ++ rs) d = replies qs d ++ replies rs (run_stmts qs d).
Proof.
  revert d. induction qs as [|q qs IH]; intros d; [done|].
  simpl. by rewrite IH.
Qed.

Lemma replies_length qs (d : DB) : length (replies qs d) = length qs.
Proof. revert d. induction qs as [|q qs IH]; intros d; simpl; [done|by rewrite IH]. Qed.

Lemma recorded_all_app t qs rs (d : DB) :
  recorded_all t (qs ++ rs) d = recorded_all t qs d ++ recorded_all t rs (run_stmts qs d).
Proof.
  unfold recorded_all. rewrite replies_app, zip_with_app by (by rewrite replies_length).
  by rewrite omap_app.
Qed.

Lemma tracked_refl (w : World) : tracked w w.
Proof.
  exists []. rewrite app_nil_r. split; [done|]. split; [done|]. intros t.
  by rewrite app_nil_r.
Qed.

Lemma tracked_trans (w1 w2 w3 : World) : tracked w1 w2 -> tracked w2 w3 -> tracked w1 w3.
Proof.
  intros (l1 & I1 & D1 & P1) (l2 & I2 & D2 & P2). exists (l1 ++ l2).
  split; [by rewrite I2, I1, app_assoc|].
  split; [by rewrite D2, D1, SEED_facts.run_stmts_app|].
  intros t. by rewrite P2, P1, recorded_all_app, D1, app_assoc.
Qed.

Lemma tracked_silent (w w' : World) :
  issued w' = issued w -> db w' = db w -> (forall t, pool_of t (self w') = pool_of t (self w)) ->
  tracked w w'.
Proof.
  intros Hi Hd Hp. exists []. rewrite app_nil_r. split; [done|]. split; [done|].
  intros t. by rewrite Hp, app_nil_r.
Qed.

Lemma tracks_silent {A} (m : M A) : silent m -> tracks m.
Proof.
  intros Hm w. destruct (Hm w) as (Hi & Hd & Hs). apply tracked_silent; try done.
  intros t. by rewrite Hs.
Qed.

Lemma silent_ret {A} (a : A) : silent (ret a).
Proof. by intros w. Qed.

Lemma silent_raise {A} e : silent (@raise _ _ A e).
Proof. by intros w. Qed.

Lemma silent_get {A} (f : World -> A) : silent (get f).
Proof. by intros w. Qed.

Lemma silent_draw {A} (f : Rng -> A * Rng) : silent (draw f).
Proof. intros w. unfold draw. by destruct (f (rng w)). Qed.

Lemma silent_bind {A B} (m : M A) (k : A -> M B) :
  silent m -> (forall a, silent (k a)) -> silent (bind m k).
Proof.
  intros Hm Hk w. unfold bind. destruct (Hm w) as (Hi & Hd & Hs).
  destruct (m w) as [[e|a] w1]; simpl in *; [done|].
  destruct (Hk a w1) as (Hi2 & Hd2 & Hs2). by rewrite Hi2, Hd2, Hs2.
Qed.

Lemma silent_index {A} (xs : list A) i : silent (index xs i).
Proof. unfold index. destruct (xs !! i); [apply silent_ret|apply silent_raise]. Qed.

Lemma silent_random_choice {A} (xs : list A) : silent (random_choice xs).
Proof.
  unfold random_choice. destruct xs; [apply silent_raise|].
  apply silent_bind; [apply silent_draw|intros i; apply silent_index].
Qed.

Lemma silent_first_cell r : silent (first_cell r).
Proof.
  unfold first_cell. destruct r as [[|[|v ?] ?]|]; try apply silent_raise. apply silent_ret.
Qed.

Lemma silent_unpack_pair r : silent (unpack_pair r).
Proof.
  unfold unpack_pair. destruct r as [|a [|b [|c r]]]; try apply silent_raise.
  apply silent_ret.
Qed.

Lemma tracks_bind {A B} (m : M A) (k : A -> M B) :
  tracks m -> (forall a, tracks (k a)) -> tracks (bind m k).
Proof.
  intros Hm Hk w. unfold bind. specialize (Hm w).
  destruct (m w) as [[e|a] w1]; simpl in *; [done|].
  eapply tracked_trans; [exact Hm|apply Hk].
Qed.

Lemma tracks_try_except {A} (m : M A) (h : Exn -> M A) :
  tracks m -> (forall e, tracks (h e)) -> tracks (try_except m h).
Proof.
  intros Hm Hh w. unfold try_except. specialize (Hm w).
  destruct (m w) as [[e|a] w1]; simpl in *; [|done].
  eapply tracked_trans; [exact Hm|apply Hh].
Qed.

Lemma tracks_finally_disconnect {A} (m : M A) :
  tracks m -> tracks (try_finally m disconnect).
Proof.
  intros Hm w. unfold try_finally, disconnect. specialize (Hm w).
  destruct (m w) as [r w1]. destruct (connected (self w1)); [|done]. simpl in *.
  destruct Hm as (l & Hi & Hd & Hp). exists l. split; [done|]. split; [done|].
  intros t. specialize (Hp t). by destruct t.
Qed.

Lemma tracks_for_each {A} (xs : list A) (body : A -> M unit) :
  (forall x, tracks (body x)) -> tracks (for_each xs body).
Proof.
  intros Hb. induction xs as [|x xs IH]; simpl.
  - apply tracks_silent, silent_ret.
  - apply tracks_bind; [apply Hb|intros _; apply IH].
Qed.

Lemma tracks_connect : tracks connect.
Proof.
  intros w. unfold connect. destruct (reachable w); simpl; [|apply tracked_refl].
  apply tracked_silent; try done.
Qed.

Lemma recorded_one t q (d : DB) :
  recorded_all t [q] d = option_list (recorded t q (db_exec q d).1).
Proof. unfold recorded_all. simpl. by destruct (recorded t q _). Qed.

Lemma tracks_execute_query q :
  (forall t r, recorded t q r = None) -> tracks (execute_query q).
Proof.
  intros Hnone w. unfold execute_query.
  destruct (connected (self w)); [|apply tracked_refl]. exists [q].
  change (db (log_stmt q w)) with (db w).
  assert (forall t, recorded_all t [q] (db w) = []) as Hr
    by (intros t; by rewrite recorded_one, Hnone).
  destruct (db_exec q (db w)) as [[| |rows] d] eqn:Ex; simpl;
    (split; [done|]); (split; [by rewrite Ex|]); intros t; by rewrite Hr, app_nil_r.
Qed.

Lemma tracks_capture t params (push : Val -> M unit) :
  returning t = true -> pushes t push ->
  tracks (bind (execute_query (Insert t params))
               (fun result => bind (first_cell result) (fun id => push id))).
Proof.
  intros Hret Hpush w. unfold bind, execute_query.
  destruct (connected (self w)); [|apply tracked_refl].
  change (db (log_stmt (Insert t params) w)) with (db w).
  set (q := Insert t params).
  assert (forall t' r, t' <> t -> recorded t' q r = None) as Hother.
  { intros t' r Hne. unfold q, recorded. by rewrite decide_False. }
  assert (forall r, recorded t q r = match r with Rows ((v :: _) :: _) => Some v | _ => None end)
    as Hsame.
  { intros r. unfold q, recorded. by rewrite decide_True, Hret. }
  assert (forall w1 r, issued w1 = issued w ++ [q] -> db w1 = (db_exec q (db w)).2 ->
            (db_exec q (db w)).1 = r ->
            (forall t', pool_of t' (self w1)
                        = pool_of t' (self w) ++ option_list (recorded t' q r)) ->
            tracked w w1) as Hdone.
  { intros w1 r Hi Hd Hr Hp. exists [q]. split; [done|]. split; [done|].
    intros t'. by rewrite recorded_one, Hr. }
  destruct (db_exec q (db w)) as [r d] eqn:Ex.
  destruct r as [| |rows]; simpl.
  - apply (Hdone _ Failed); try done. intros t'.
    destruct (decide (t' = t)) as [->|Hne]; [rewrite Hsame|rewrite Hother by done];
      by rewrite app_nil_r.
  - apply (Hdone _ NoResult); try done. intros t'.
    destruct (decide (t' = t)) as [->|Hne]; [rewrite Hsame|rewrite Hother by done];
      by rewrite app_nil_r.
  - destruct rows as [|[|v cells] rows]; simpl.
    + apply (Hdone _ (Rows [])); try done. intros t'.
      destruct (decide (t' = t)) as [->|Hne]; [rewrite Hsame|rewrite Hother by done];
        by rewrite app_nil_r.
    + apply (Hdone _ (Rows ([] :: rows))); try done. intros t'.
      destruct (decide (t' = t)) as [->|Hne]; [rewrite Hsame|rewrite Hother by done];
        by rewrite app_nil_r.
    + destruct (Hpush v (set_db d (log_stmt q w))) as (w1 & -> & Hi & Hd & _ & Hp & Hrest).
      simpl. apply (Hdone _ (Rows ((v :: cells) :: rows))); try done.
      intros t'. destruct (decide (t' = t)) as [->|Hne].
      * by rewrite Hsame, Hp.
      * rewrite Hother by done. rewrite Hrest by done. by rewrite app_nil_r.
Qed.

Lemma tracks_accept t id rest (push : Val -> M unit) :
  t = t_engineer \/ t = t_manager -> pushes t push ->
  tracks (bind (execute_query (Insert t (id :: rest))) (fun _ => push id)).
Proof.
  intros Ht Hpush w. unfold bind, execute_query.
  destruct (connected (self w)); [|apply tracked_refl].
  change (db (log_stmt (Insert t (id :: rest)) w)) with (db w).
  set (q := Insert t (id :: rest)).
  assert (forall t' r, t' <> t -> recorded t' q r = None) as Hother.
  { intros t' r Hne. unfold q, recorded. by rewrite decide_False. }
  assert (forall r, recorded t q r = match r with Failed => None | _ => Some id end) as Hsame.
  { intros r. unfold q, recorded. rewrite decide_True by done.
    destruct Ht as [-> | ->]; by destruct r. }
  assert (forall w1 r, issued w1 = issued w ++ [q] -> db w1 = (db_exec q (db w)).2 ->
            (db_exec q (db w)).1 = r ->
            (forall t', pool_of t' (self w1)
                        = pool_of t' (self w) ++ option_list (recorded t' q r)) ->
            tracked w w1) as Hdone.
  { intros w1 r Hi Hd Hr Hp. exists [q]. split; [done|]. split; [done|].
    intros t'. by rewrite recorded_one, Hr. }
  destruct (db_exec q (db w)) as [r d] eqn:Ex.
  destruct r as [| |rows]; simpl.
  - apply (Hdone _ Failed); try done. intros t'.
    destruct (decide (t' = t)) as [->|Hne]; [rewrite Hsame|rewrite Hother by done];
      by rewrite app_nil_r.
  - destruct (Hpush id (set_db d (log_stmt q w))) as (w1 & -> & Hi & Hd & _ & Hp & Hrest).
    simpl. apply (Hdone _ NoResult); try done.
    intros t'. destruct (decide (t' = t)) as [->|Hne].
    + by rewrite Hsame, Hp.
    + rewrite Hother by done. rewrite Hrest by done. by rewrite app_nil_r.
  - destruct (Hpush id (set_db d (log_stmt q w))) as (w1 & -> & Hi & Hd & _ & Hp & Hrest).
    simpl. apply (Hdone _ (Rows rows)); try done.
    intros t'. destruct (decide (t' = t)) as [->|Hne].
    + by rewrite Hsame, Hp.
    + rewrite Hother by done. rewrite Hrest by done. by rewrite app_nil_r.
Qed.

Lemma pushes_all :
  pushes t_artist push_artist_id /\ pushes t_producer push_producer_id /\
  pushes t_studio push_studio_id /\ pushes t_album push_album_id /\
  pushes t_distribution push_distribution_id /\ pushes t_staff push_staff_id /\
  pushes t_engineer push_engineer_id /\ pushes t_manager push_manager_id.
Proof.
  repeat split; intros v w; (eexists; split; [reflexivity|]);
    (split; [done|]); (split; [done|]); (split; [done|]); (split; [done|]);
    intros t' Hne; by destruct t'.
Qed.

End Tracks.

Ltac pushes_tac :=
  first [ apply (proj1 pushes_all)
        | apply (proj1 (proj2 pushes_all))
        | apply (proj1 (proj2 (proj2 pushes_all)))
        | apply (proj1 (proj2 (proj2 (proj2 pushes_all))))
        | apply (proj1 (proj2 (proj2 (proj2 (proj2 pushes_all)))))
        | apply (proj1 (proj2 (proj2 (proj2 (proj2 (proj2 pushes_all))))))
        | apply (proj1 (proj2 (proj2 (proj2 (proj2 (proj2 (proj2 pushes_all)))))))
        | apply (proj2 (proj2 (proj2 (proj2 (proj2 (proj2 (proj2 pushes_all))))))) ].

Ltac silent_step :=
  lazymatch goal with
  | |- silent (ret _) => apply silent_ret
  | |- silent (raise _) => apply silent_raise
  | |- silent (get _) => apply silent_get
  | |- silent (draw _) => apply silent_draw
  | |- silent (index _ _) => apply silent_index
  | |- silent (random_choice _) => apply silent_random_choice
  | |- silent (first_cell _) => apply silent_first_cell
  | |- silent (unpack_pair _) => apply silent_unpack_pair
  | |- silent (bind _ _) => apply silent_bind; [|intros ?]
  end.

Ltac tracks_step :=
  lazymatch goal with
  | |- tracks (execute_query _) =>
      apply tracks_execute_query; intros t r; destruct t, r; reflexivity
  | |- tracks (bind (execute_query (Insert _ _)) _) =>
      first [ apply tracks_capture; [reflexivity|pushes_tac]
            | apply tracks_accept; [(by left) || (by right)|pushes_tac]
            | apply tracks_bind; [|intros ?] ]
  | |- tracks (bind _ _) => apply tracks_bind; [|intros ?]
  | |- tracks (try_except _ _) => apply tracks_try_except; [|intros ?]
  | |- tracks (for_each _ _) => apply tracks_for_each; intros ?
  | |- tracks connect => apply tracks_connect
  | |- tracks (try_finally _ disconnect) => apply tracks_finally_disconnect
  | |- tracks (let _ := _ in _) => cbv zeta
  | |- tracks (match ?x with _ => _ end) => destruct x
  | |- tracks _ =>
      apply tracks_silent;
      repeat first [ progress unfold random_randint, random_uniform2, fake, date_between,
                       two_words, mbind, M_bind, mret, M_ret
                   | silent_step ]
  end.

Ltac unfold_bodies :=
  progress unfold mbind, M_bind, mret, M_ret, song_body, engineer_body, manager_body.

Ltac tracks_auto := repeat first [unfold_bodies | tracks_step].

Section PoolContents.

Context `{Seeds} `{Session}.

Lemma generate_all_tracks : tracks generate_all.
Proof.
  unfold generate_all. unfold_method. tracks_auto.
Qed.

(** X16. After any run of [generate_all] each id pool is the pool the
    run started with followed by what the database's answers put
    there, in the order of the statements: for artist, producer,
    studio, album, staff and distribution the key handed back by each
    insertion into the table, and for engineer and manager the staff id
    of each insertion that did not fail. *)
Theorem pools_hold_what_the_database_returned (w : World) (t : Table) :
  let w' := (generate_all w).2 in
  pool_of t (self w') = pool_of t (self w) ++ recorded_all t (emitted w w') (db w).
Proof.
  cbv zeta. destruct (generate_all_tracks w) as (l & Hi & _ & Hp).
  unfold emitted. rewrite Hi, drop_app_length. apply Hp.
Qed.

End PoolContents.

(** ** Which rows are attempted *)

Section Attempts.

Context `{Seeds} `{Session}.

Lemma try_execute_then q (k : option (list (list Val)) -> M unit) (w : World) :
  connected (self w) = true ->
  (forall r d, let w0 := set_db d (log_stmt q w) in
     issued (k r w0).2 = issued w0 /\ db (k r w0).2 = db w0 /\
     connected (self (k r w0).2) = connected (self w0)) ->
  exists w',
    try_except (bind (execute_query q) k) (fun _ => ret tt) w = (inr tt, w') /\
    one_insert w w' q /\
    connected (self w') = true /\
    ((forall r d, self (k r (set_db d (log_stmt q w))).2 = self w) -> self w' = self w).
Proof.
  intros Hc Hk. unfold try_except, bind, execute_query, ret, one_insert. rewrite Hc.
  change (db (log_stmt q w)) with (db w).
  destruct (db_exec q (db w)) as [[| |rows] d]; simpl.
  - eexists. split; [done|]. done.
  - destruct (Hk None d) as (Hi & Hd & Hc1).
    destruct (k None (set_db d (log_stmt q w))) as [[e|[]] w1] eqn:Ek; simpl in *;
      (eexists; split; [done|]; split; [by rewrite Hi, Hd|]; split; [congruence|]);
      intros Hs; specialize (Hs None d); by rewrite Ek in Hs.
  - destruct (Hk (Some rows) d) as (Hi & Hd & Hc1).
    destruct (k (Some rows) (set_db d (log_stmt q w))) as [[e|[]] w1] eqn:Ek; simpl in *;
      (eexists; split; [done|]; split; [by rewrite Hi, Hd|]; split; [congruence|]);
      intros Hs; specialize (Hs (Some rows) d); by rewrite Ek in Hs.
Qed.

Lemma attempted_seq t staff a k qs :
  Forall2 (staff_insert t staff) (seq a k) qs ->
  attempted t qs = take k (drop a staff).
Proof.
  revert a qs. induction k as [|k IH]; intros a qs Hqs.
  - apply Forall2_nil_inv_l in Hqs as ->. done.
  - simpl in Hqs. apply Forall2_cons_inv_l in Hqs as (q & qs' & Hq & Hqs' & ->).
    destruct Hq as (id & rest & Hid & ->).
    rewrite (drop_S _ _ _ Hid). simpl. rewrite decide_True by done.
    f_equal. by apply IH.
Qed.

Lemma take_min {A} n (l : list A) : take (n `min` length l) l = take n l.
Proof.
  destruct (decide (n <= length l)%nat).
  - by rewrite Nat.min_l.
  - rewrite Nat.min_r by lia. by rewrite !take_ge by lia.
Qed.

Lemma contract_iteration (i : nat) (id : Val) (w : World) :
  connected (self w) = true ->
  artist_ids (self w) !! i = Some id ->
  exists w' rest,
    (artists ← get (fun w => artist_ids (self w));
     artist_id ← index artists i;
     start_date ← date_between 5;
     days ← random_randint 365 1825;
     let end_date := start_date + days in
     royalty_percentage ← random_uniform2 5 25;
     contract_terms ← fake (fake_paragraph 3);
     now ← get today;
     let status := if now <=? end_date then "active" else "expired" in
     try_except
       (execute_query
          (Insert t_contract [artist_id; VDate start_date; VDate end_date;
                              royalty_percentage; VStr contract_terms; VStr status]) ;;
        mret tt)
       (fun _ => mret tt)) w = (inr tt, w') /\
    one_insert w w' (Insert t_contract (id :: rest)) /\
    connected (self w') = true /\
    artist_ids (self w') = artist_ids (self w).
Proof.
  intros Hc Hid. unfold mbind, M_bind, mret, M_ret.
  erewrite SEED_facts.bind_run by apply SEED_facts.get_run.
  unfold index. rewrite Hid. erewrite SEED_facts.bind_run by reflexivity.
  destruct (date_between_run 5 w) as (sd & r1 & E1).
  erewrite SEED_facts.bind_run by exact E1.
  destruct (SEED_facts.random_randint_run 365 1825 (set_rng r1 w)) as (days & r2 & E2).
  erewrite SEED_facts.bind_run by exact E2. cbv zeta.
  destruct (SEED_facts.random_uniform2_run 5 25 (set_rng r2 (set_rng r1 w))) as (roy & r3 & E3).
  erewrite SEED_facts.bind_run by exact E3.
  destruct (SEED_facts.fake_run (fake_paragraph 3) (set_rng r3 (set_rng r2 (set_rng r1 w))))
    as (terms & r4 & E4).
  erewrite SEED_facts.bind_run by exact E4.
  erewrite SEED_facts.bind_run by apply SEED_facts.get_run.
  rewrite SEED_facts.try_execute by done. eexists _, _. split; [done|]. by repeat split.
Qed.

Lemma distribution_iteration (platform : string) (w : World) :
  connected (self w) = true ->
  exists w' rest,
    (commission_percentage ← random_uniform2 15 50;
     agreement_status ← random_choice (three_states "pending");
     try_except
       (result ← execute_query
          (Insert t_distribution [VStr platform; commission_percentage; VStr agreement_status]);
        id ← first_cell result;
        push_distribution_id id)
       (fun _ => mret tt)) w = (inr tt, w') /\
    one_insert w w' (Insert t_distribution (VStr platform :: rest)) /\
    connected (self w') = true.
Proof.
  intros Hc. unfold mbind, M_bind, mret, M_ret.
  destruct (SEED_facts.random_uniform2_run 15 50 w) as (c & r1 & E1).
  erewrite SEED_facts.bind_run by exact E1.
  destruct (SEED_facts.random_choice_nonempty (three_states "pending") (set_rng r1 w))
    as (s & r2 & E2 & _); [done|].
  erewrite SEED_facts.bind_run by exact E2.
  destruct (try_execute_then (Insert t_distribution [VStr platform; c; VStr s])
              (fun result => bind (first_cell result) (fun id => push_distribution_id id))
              (set_rng r2 (set_rng r1 w))) as (w' & E & Hone & Hc' & _).
  { exact Hc. }
  { intros r d. unfold bind, first_cell. by destruct r as [[|[|v ?] ?]|]. }
  exists w', [c; VStr s]. split; [exact E|]. by split.
Qed.

Lemma platform_inserts (xs : list string) qs :
  Forall2 (fun x q => exists rest, q = Insert t_distribution (VStr x :: rest)) xs qs ->
  attempted t_distribution qs = VStr <$> xs.
Proof.
  induction 1 as [|x q xs qs (rest & ->) _ IH]; [done|].
  cbn [fmap list_fmap]. rewrite <- IH. reflexivity.
Qed.

(** X17. On a connected generator, [generate_managers(n)] attempts a
    manager row for each of the staff ids at positions n to n+9 of the
    pool, in order (up to ten rows, whatever n is);
    [generate_engineers(n)], given a studio id, attempts one for each
    of the first n staff ids; [generate_contracts(n)] attempts a
    contract for each of the first n artist ids;
    [generate_distributions(n)] attempts the first n of the ten
    platforms.  Where the pool is shorter the attempts end with the
    pool. *)
Theorem attempts_follow_the_pools (n : nat) (w : World) :
  connected (self w) = true ->
  attempted t_manager (emitted w (generate_managers n w).2)
  = take 10 (drop n (staff_ids (self w))) /\
  (studio_ids (self w) <> [] ->
   attempted t_engineer (emitted w (generate_engineers n w).2) = take n (staff_ids (self w))) /\
  attempted t_contract (emitted w (generate_contracts n w).2) = take n (artist_ids (self w)) /\
  attempted t_distribution (emitted w (generate_distributions n w).2)
  = VStr <$> take n platforms.
Proof.
  intros Hc. split; [|split; [|split]].
  - destruct (SEED_facts.generate_managers_run n w Hc) as (w' & qs & E & _ & _ & Hi & Hqs).
    rewrite E. simpl. unfold emitted. rewrite Hi, drop_app_length.
    unfold range in Hqs. rewrite (attempted_seq _ _ _ _ _ Hqs).
    destruct (decide (n <= length (staff_ids (self w)))%nat).
    + replace ((n + 10) `min` length (staff_ids (self w)) - n)%nat
        with (10 `min` length (drop n (staff_ids (self w))))%nat
        by (rewrite length_drop; lia).
      apply take_min.
    + rewrite drop_ge by lia. by rewrite !take_nil.
  - intros Hstudio.
    destruct (SEED_facts.generate_engineers_run n w Hc Hstudio)
      as (w' & qs & E & _ & _ & Hi & Hqs).
    rewrite E. simpl. unfold emitted. rewrite Hi, drop_app_length.
    unfold range in Hqs. rewrite (attempted_seq _ _ _ _ _ Hqs).
    rewrite Nat.sub_0_r, drop_0. apply take_min.
  - unfold generate_contracts, mbind at 1, M_bind at 1.
    erewrite SEED_facts.bind_run by apply SEED_facts.get_run.
    match goal with
    | |- context [for_each ?xs ?body] =>
        destruct (SEED_facts.for_each_log
                    (fun w0 => connected (self w0) = true /\
                               artist_ids (self w0) = artist_ids (self w))
                    (staff_insert t_contract (artist_ids (self w))) body xs)
          with (w := w) as (w' & qs & E & _ & Hi & _ & Hqs); [|done|]
    end.
    + intros i w0 Hin [Hc0 Hs]. apply SEED_facts.elem_of_range in Hin.
      destruct (lookup_lt_is_Some_2 (artist_ids (self w)) i) as [id Hid]; [lia|].
      destruct (contract_iteration i id w0) as (w1 & rest & E & Hone & Hc1 & Hs1);
        [done|by rewrite Hs|].
      exists w1, (Insert t_contract (id :: rest)). split; [exact E|].
      split; [split; congruence|]. split; [done|]. by exists id, rest.
    + rewrite E. simpl. unfold emitted. rewrite Hi, drop_app_length.
      unfold range in Hqs. rewrite (attempted_seq _ _ _ _ _ Hqs).
      rewrite Nat.sub_0_r, drop_0. apply take_min.
  - unfold generate_distributions.
    match goal with
    | |- context [for_each ?xs ?body] =>
        destruct (SEED_facts.for_each_log (fun w0 => connected (self w0) = true)
                    (fun x q => exists rest, q = Insert t_distribution (VStr x :: rest))
                    body xs)
          with (w := w) as (w' & qs & E & _ & Hi & _ & Hqs); [|done|]
    end.
    + intros x w0 _ Hc0.
      destruct (distribution_iteration x w0 Hc0) as (w1 & rest & E & Hone & Hc1).
      exists w1, (Insert t_distribution (VStr x :: rest)). split; [exact E|].
      split; [done|]. split; [done|]. by exists rest.
    + rewrite E. simpl. unfold emitted. rewrite Hi, drop_app_length.
      by apply platform_inserts.
Qed.

End Attempts.

(** ** Failures: what is swallowed and what ends a step *)

Section Failures.

Context `{Seeds} `{Session}.

Lemma truncate_step (x : Table) (w : World) :
  connected (self w) = true ->
  bind (execute_query (Truncate x)) (fun _ => ret tt) w
  = (match (db_exec (Truncate x) (db w)).1 with
     | Failed => inl DatabaseError
     | _ => inr tt
     end, set_db (db_exec (Truncate x) (db w)).2 (log_stmt (Truncate x) w)).
Proof.
  intros Hc. unfold bind, execute_query, ret. rewrite Hc.
  change (db (log_stmt (Truncate x) w)) with (db w).
  by destruct (db_exec (Truncate x) (db w)) as [[| |rows] d].
Qed.

Lemma bind_unfold {A B} (m : M A) (k : A -> M B) (w : World) :
  bind m k w = match m w with
               | (inr a, w') => k a w'
               | (inl e, w') => (inl e, w')
               end.
Proof. reflexivity. Qed.

Lemma truncate_loop (xs : list Table) (w : World) :
  connected (self w) = true ->
  let out := for_each xs (fun table => bind (execute_query (Truncate table)) (fun _ => ret tt)) w in
  issued out.2 = issued w ++ until_failure (Truncate <$> xs) (db w) /\
  self out.2 = self w.
Proof.
  revert w. induction xs as [|x xs IH]; intros w Hc; cbv zeta.
  - simpl. by rewrite app_nil_r.
  - cbn [for_each fmap list_fmap until_failure]. rewrite bind_unfold, truncate_step by done.
    destruct (IH (set_db (db_exec (Truncate x) (db w)).2 (log_stmt (Truncate x) w)) Hc)
      as [Hi Hs]. cbv zeta in Hi, Hs.
    destruct (db_exec (Truncate x) (db w)) as [[| |rows] d] eqn:Ex; simpl in *; [done|..].
    + rewrite Hi, Hs. by rewrite <- app_assoc.
    + rewrite Hi, Hs. by rewrite <- app_assoc.
Qed.

Lemma until_failure_prefix qs (d : DB) : until_failure qs d `prefix_of` qs.
Proof.
  revert d. induction qs as [|q qs IH]; intros d; [done|]. simpl.
  destruct (db_exec q d) as [[| |rows] d']; [by exists qs|by apply prefix_cons..].
Qed.

Lemma until_failure_all qs (d : DB) :
  Forall (fun r => r <> Failed) (replies qs d) -> until_failure qs d = qs.
Proof.
  revert d. induction qs as [|q qs IH]; intros d Hok; [done|]. simpl in *.
  apply Forall_cons in Hok as [Hq Hok].
  destruct (db_exec q d) as [[| |rows] d']; simpl in *; [done|by rewrite IH..].
Qed.

(** X18. On a connected generator [clean_database] sends the
    TRUNCATE statements in the order of its table list and stops after
    the first one that fails: the statements sent are a prefix of the
    list, all thirteen when none fails.  The id pools of the generator
    object are not cleared. *)
Theorem clean_database_stops_at_first_failure (w : World) :
  connected (self w) = true ->
  let w' := (clean_database w).2 in
  emitted w w' = until_failure (Truncate <$> tables) (db w) /\
  emitted w w' `prefix_of` (Truncate <$> tables) /\
  (Forall (fun r => r <> Failed) (replies (Truncate <$> tables) (db w)) ->
   emitted w w' = Truncate <$> tables) /\
  self w' = self w.
Proof.
  intros Hc. cbv zeta. unfold clean_database.
  assert (forall (m : M unit), (try_except m (fun _ => ret tt) w).2 = (m w).2) as Hpass.
  { intros m. unfold try_except, ret. by destruct (m w) as [[e|a] w1]. }
  rewrite Hpass. destruct (truncate_loop tables w Hc) as [Hi Hs]. cbv zeta in Hi, Hs.
  unfold emitted. rewrite Hi, drop_app_length.
  split; [done|]. split; [apply until_failure_prefix|]. split; [apply until_failure_all|done].
Qed.

(** X19. [generate_all] always returns normally; when the server
    cannot be reached it sends no statement and leaves the id pools,
    the random sources and the database as they were, and the
    generator is without connection afterwards: one it still held is
    closed, and a generator that held none is left exactly as it
    was. *)
Theorem generate_all_always_returns (w : World) :
  (generate_all w).1 = inr tt /\
  (reachable w = false ->
   let w' := (generate_all w).2 in
   issued w' = issued w /\ db w' = db w /\ rng w' = rng w /\
   (forall t, pool_of t (self w') = pool_of t (self w)) /\
   connected (self w') = false) /\
  (reachable w = false -> connected (self w) = false -> generate_all w = (inr tt, w)).
Proof.
  split; [|split].
  - unfold generate_all. generalize (connect ;; clean_database ;; generate_artists 60 ;;
      generate_producers 50 ;; generate_studios 20 ;; generate_albums 100 ;;
      generate_songs 500 ;; generate_recording_sessions 150 ;; generate_staff 40 ;;
      generate_engineers 15 ;; generate_managers 10 ;; generate_distributions 10 ;;
      generate_song_distributions 300 ;; generate_contracts 50 ;;
      generate_artist_albums 150). intros m.
    unfold try_finally, try_except, disconnect, mret, M_ret, ret.
    destruct (m w) as [[e|[]] w1]; by destruct (connected (self w1)).
  - intros Hdown. cbv zeta.
    unfold generate_all, try_finally, try_except, mbind, M_bind, bind, connect, disconnect.
    rewrite Hdown. cbn [mret M_ret ret fst snd].
    destruct (connected (self w)) eqn:Hc; simpl; [|done].
    repeat split; try done.
  - intros Hdown Hc.
    unfold generate_all, try_finally, try_except, mbind, M_bind, bind, connect, disconnect.
    rewrite Hdown. cbn [mret M_ret ret fst snd]. by rewrite Hc.
Qed.

Lemma bind_raise {A B} (m : M A) (k : A -> M B) (w w' : World) e :
  m w = (inl e, w') -> bind m k w = (inl e, w').
Proof. intros E. unfold bind. by rewrite E. Qed.

Lemma range_first (n : nat) : range 0 (S n) = 0%nat :: range 1 (S n).
Proof. unfold range. simpl. by rewrite Nat.sub_0_r. Qed.

Lemma album_iteration_empty (i : nat) (w : World) :
  producer_ids (self w) = [] ->
  exists r,
    (title ← two_words;
     release_date ← date_between 3;
     ids ← get (fun w => producer_ids (self w));
     producer_id ← random_choice ids;
     status ← random_choice ["draft"; "released"; "archived"];
     genre ← random_choice genres;
     label_name ← fake fake_company;
     result ← execute_query
       (Insert t_album [VStr title; VDate release_date; producer_id; VStr status;
                        VStr genre; VStr label_name]);
     id ← first_cell result;
     push_album_id id) w = (inl IndexError, set_rng r w).
Proof.
  intros Hempty. unfold mbind, M_bind.
  destruct (SEED_facts.two_words_run w) as (title & r1 & E1).
  erewrite SEED_facts.bind_run by exact E1.
  destruct (date_between_run 3 (set_rng r1 w)) as (date & r2 & E2).
  erewrite SEED_facts.bind_run by exact E2.
  erewrite SEED_facts.bind_run by apply SEED_facts.get_run.
  cbn [self set_rng]. rewrite Hempty. by exists r2.
Qed.

Lemma session_iteration_empty (i : nat) (w : World) :
  artist_ids (self w) = [] \/ producer_ids (self w) = [] \/ studio_ids (self w) = [] ->
  exists w',
    (a_ids ← get (fun w => artist_ids (self w));
     artist_id ← random_choice a_ids;
     p_ids ← get (fun w => producer_ids (self w));
     producer_id ← random_choice p_ids;
     s_ids ← get (fun w => studio_ids (self w));
     studio_id ← random_choice s_ids;
     session_date ← date_between 2;
     hh ← random_randint 9 18;
     mm ← random_randint 0 59;
     let start_time :=
       String.append (fmt02 hh) (String.append ":" (String.append (fmt02 mm) ":00")) in
     duration_hours ← random_uniform2 1 8;
     try_except
       (execute_query
          (Insert t_recording_session
                  [artist_id; producer_id; studio_id; VDate session_date;
                   VStr start_time; duration_hours; VInt 0]) ;;
        mret tt)
       (fun _ => mret tt)) w = (inl IndexError, w') /\
    issued w' = issued w /\ self w' = self w /\ db w' = db w.
Proof.
  intros Hempty. unfold mbind, M_bind.
  erewrite SEED_facts.bind_run by apply SEED_facts.get_run.
  destruct (decide (artist_ids (self w) = [])) as [Ha|Ha].
  { rewrite Ha. by eexists. }
  destruct (SEED_facts.random_choice_nonempty (artist_ids (self w)) w Ha) as (a & r1 & E1 & _).
  erewrite SEED_facts.bind_run by exact E1.
  erewrite SEED_facts.bind_run by apply SEED_facts.get_run. cbn [self set_rng].
  destruct (decide (producer_ids (self w) = [])) as [Hp|Hp].
  { rewrite Hp. by eexists. }
  destruct (SEED_facts.random_choice_nonempty (producer_ids (self w)) (set_rng r1 w) Hp)
    as (p & r2 & E2 & _).
  erewrite SEED_facts.bind_run by exact E2.
  erewrite SEED_facts.bind_run by apply SEED_facts.get_run. cbn [self set_rng].
  destruct Hempty as [?|[?|Hs]]; [done..|]. rewrite Hs. by eexists.
Qed.

Lemma engineer_iteration_empty (id : Val) (w : World) :
  staff_ids (self w) !! 0%nat = Some id -> studio_ids (self w) = [] ->
  exists r, engineer_body 0 w = (inl IndexError, set_rng r w).
Proof.
  intros Hid Hempty. unfold engineer_body, mbind, M_bind.
  erewrite SEED_facts.bind_run by apply SEED_facts.get_run.
  unfold index. rewrite Hid. erewrite SEED_facts.bind_run by reflexivity.
  destruct (SEED_facts.random_choice_nonempty certifications w) as (c & r1 & E1 & _); [done|].
  erewrite SEED_facts.bind_run by exact E1.
  destruct (SEED_facts.fake_run (fake_paragraph 2) (set_rng r1 w)) as (t & r2 & E2).
  erewrite SEED_facts.bind_run by exact E2.
  erewrite SEED_facts.bind_run by apply SEED_facts.get_run. cbn [self set_rng].
  rewrite Hempty. by exists r2.
Qed.

(** X20. With an empty pool to draw from, the first iteration of
    [generate_albums] (no producer id), of
    [generate_recording_sessions] (no artist, producer or studio id)
    and of [generate_engineers] (staff but no studio id) raises
    IndexError, which leaves the method: no statement was sent and the
    generator object and the database are as before. *)
Theorem empty_pool_ends_the_step (n : nat) (w : World) :
  (producer_ids (self w) = [] ->
   exists w', generate_albums (S n) w = (inl IndexError, w') /\
              issued w' = issued w /\ self w' = self w /\ db w' = db w) /\
  (artist_ids (self w) = [] \/ producer_ids (self w) = [] \/ studio_ids (self w) = [] ->
   exists w', generate_recording_sessions (S n) w = (inl IndexError, w') /\
              issued w' = issued w /\ self w' = self w /\ db w' = db w) /\
  (studio_ids (self w) = [] -> staff_ids (self w) <> [] ->
   exists w', generate_engineers (S n) w = (inl IndexError, w') /\
              issued w' = issued w /\ self w' = self w /\ db w' = db w).
Proof.
  split; [|split].
  - intros Hempty. unfold generate_albums. rewrite range_first. cbn [for_each].
    destruct (album_iteration_empty 0 w Hempty) as (r & E).
    erewrite bind_raise by exact E. by eexists.
  - intros Hempty. unfold generate_recording_sessions. rewrite range_first. cbn [for_each].
    destruct (session_iteration_empty 0 w Hempty) as (w' & E & Hrest).
    erewrite bind_raise by exact E. by eexists.
  - intros Hempty Hstaff. unfold generate_engineers, mbind, M_bind.
    erewrite SEED_facts.bind_run by apply SEED_facts.get_run.
    destruct (staff_ids (self w)) as [|id staff] eqn:Es; [done|].
    change (S n `min` length (id :: staff))%nat with (S (n `min` length staff)).
    rewrite range_first. cbn [for_each].
    destruct (engineer_iteration_empty id w) as (r & E); [by rewrite Es|done|].
    erewrite bind_raise by exact E. by eexists.
Qed.

Lemma for_each_keep {A} (Inv : World -> Prop) (body : A -> M unit) (xs : list A) :
  (forall x w, Inv w -> exists w', body x w = (inr tt, w') /\ Inv w' /\ issued w' = issued w) ->
  forall w, Inv w ->
    exists w', for_each xs body w = (inr tt, w') /\ Inv w' /\ issued w' = issued w.
Proof.
  intros Hbody. induction xs as [|x xs IH]; intros w Hinv.
  - by exists w.
  - destruct (Hbody x w Hinv) as (w1 & E1 & Hinv1 & Hi1).
    destruct (IH w1 Hinv1) as (w2 & E2 & Hinv2 & Hi2).
    exists w2. cbn [for_each]. erewrite SEED_facts.bind_run by exact E1.
    split; [done|]. split; [done|congruence].
Qed.

Lemma artist_album_iteration_empty (w : World) :
  artist_ids (self w) = [] \/ album_ids (self w) = [] ->
  exists w',
    try_except
      (a_ids ← get (fun w => artist_ids (self w));
       artist_id ← random_choice a_ids;
       b_ids ← get (fun w => album_ids (self w));
       album_id ← random_choice b_ids;
       role ← random_choice ["featured"; "collaborator"; "featured artist"; "guest"];
       execute_query (Insert t_artist_album [artist_id; album_id; VStr role]) ;;
       mret tt)
      (fun _ => mret tt) w = (inr tt, w') /\
    self w' = self w /\ issued w' = issued w.
Proof.
  intros Hempty. unfold try_except, mbind, M_bind, mret, M_ret.
  erewrite SEED_facts.bind_run by apply SEED_facts.get_run.
  destruct (decide (artist_ids (self w) = [])) as [Ha|Ha].
  { rewrite Ha. by eexists. }
  destruct (SEED_facts.random_choice_nonempty (artist_ids (self w)) w Ha) as (a & r1 & E1 & _).
  erewrite SEED_facts.bind_run by exact E1.
  erewrite SEED_facts.bind_run by apply SEED_facts.get_run. cbn [self set_rng].
  destruct Hempty as [?|Hb]; [done|]. rewrite Hb. by eexists.
Qed.

Lemma song_distribution_iteration_empty (w : World) :
  connected (self w) = true ->
  distribution_ids (self w) = [] ->
  exists w',
    try_except
      (result ← execute_query SelectRandomSong;
       match result with
       | Some (row :: _) =>
           '(album_id, song_id) ← unpack_pair row;
           d_ids ← get (fun w => distribution_ids (self w));
           distribution_id ← random_choice d_ids;
           publish_date ← date_between 2;
           status ← random_choice (three_states "pending");
           execute_query
             (Insert t_song_distribution
                     [song_id; album_id; distribution_id; VDate publish_date; VStr status]) ;;
           mret tt
       | _ => mret tt
       end)
      (fun _ => mret tt) w = (inr tt, w') /\
    one_insert w w' SelectRandomSong /\ self w' = self w.
Proof.
  intros Hc Hempty.
  assert (forall (r : option (list (list Val))) (w0 : World),
            self w0 = self w ->
            let out := match r with
                       | Some (row :: _) =>
                           '(album_id, song_id) ← unpack_pair row;
                           d_ids ← get (fun w => distribution_ids (self w));
                           distribution_id ← random_choice d_ids;
                           publish_date ← date_between 2;
                           status ← random_choice (three_states "pending");
                           execute_query
                             (Insert t_song_distribution
                                [song_id; album_id; distribution_id; VDate publish_date;
                                 VStr status]) ;;
                           mret tt
                       | _ => mret tt
                       end w0 in
            issued out.2 = issued w0 /\ db out.2 = db w0 /\ self out.2 = self w) as Hk.
  { intros r w0 Hs. cbv zeta. destruct r as [[|row rows]|]; try done.
    unfold mbind, M_bind, unpack_pair.
    destruct row as [|a [|b [|c row]]]; try done.
    unfold mret, M_ret. erewrite SEED_facts.bind_run by reflexivity. cbv beta iota.
    erewrite SEED_facts.bind_run by apply SEED_facts.get_run.
    rewrite Hs, Hempty. done. }
  unfold mbind at 1, M_bind at 1.
  match goal with
  | |- context [try_except (bind (execute_query ?q) ?k) _ _] =>
      destruct (try_execute_then q k w) as (w' & E & Hone & _ & Hself)
  end.
  { exact Hc. }
  { intros r d. cbv zeta. destruct (Hk r (set_db d (log_stmt SelectRandomSong w)) eq_refl)
      as (Hi & Hd & Hs). by rewrite Hs. }
  exists w'. split; [exact E|]. split; [exact Hone|]. apply Hself.
  intros r d. by destruct (Hk r (set_db d (log_stmt SelectRandomSong w)) eq_refl) as (_ & _ & Hs).
Qed.

(** X21. [generate_artist_albums] without artist ids or without album
    ids returns normally and sends nothing; on a connected generator
    without distribution ids [generate_song_distributions(n)] returns
    normally having sent only its n SELECT statements, whatever they
    bring back. *)
Theorem empty_pool_is_swallowed (n : nat) (w : World) :
  (artist_ids (self w) = [] \/ album_ids (self w) = [] ->
   (generate_artist_albums n w).1 = inr tt /\
   emitted w (generate_artist_albums n w).2 = []) /\
  (connected (self w) = true -> distribution_ids (self w) = [] ->
   (generate_song_distributions n w).1 = inr tt /\
   emitted w (generate_song_distributions n w).2 = replicate n SelectRandomSong).
Proof.
  split.
  - intros Hempty. unfold generate_artist_albums.
    match goal with
    | |- context [for_each ?xs ?body] =>
        destruct (for_each_keep (fun w0 => self w0 = self w) body xs) with (w := w)
          as (w' & E & _ & Hi); [|done|]
    end.
    + intros x w0 Hs. destruct (artist_album_iteration_empty w0) as (w1 & E & Hs1 & Hi1);
        [by rewrite Hs|].
      exists w1. split; [exact E|]. split; [congruence|done].
    + rewrite E. simpl. split; [done|]. unfold emitted. rewrite Hi. apply drop_all.
  - intros Hc Hempty. unfold generate_song_distributions.
    match goal with
    | |- context [for_each ?xs ?body] =>
        destruct (SEED_facts.for_each_log (fun w0 => self w0 = self w)
                    (fun (_ : nat) q => q = SelectRandomSong) body xs) with (w := w)
          as (w' & qs & E & _ & Hi & _ & Hqs); [|done|]
    end.
    + intros x w0 _ Hs. destruct (song_distribution_iteration_empty w0) as (w1 & E & Hone & Hs1);
        [by rewrite Hs|by rewrite Hs|].
      exists w1, SelectRandomSong. split; [exact E|]. split; [congruence|]. done.
    + rewrite E. simpl. split; [done|]. unfold emitted. rewrite Hi, drop_app_length.
      assert (length qs = n) as <-.
      { apply Forall2_length in Hqs. rewrite <- Hqs. unfold range.
        rewrite length_seq. lia. }
      clear -Hqs. induction Hqs as [|x q xs qs -> _ IH]; [done|]. simpl. by rewrite <- IH.
Qed.

Lemma capture_outcome t params (push : Val -> M unit) (w : World) :
  pushes t push ->
  connected (self w) = true ->
  let q := Insert t params in
  let out := bind (execute_query q) (fun result => bind (first_cell result) (fun id => push id)) w in
  issued out.2 = issued w ++ [q] /\
  connected (self out.2) = true /\
  ((exists v, out.1 = inr tt /\ pool_of t (self out.2) = pool_of t (self w) ++ [v]) \/
   (exists e, out.1 = inl e /\ self out.2 = self w)).
Proof.
  intros Hpush Hc. cbv zeta. unfold bind, execute_query. rewrite Hc.
  change (db (log_stmt (Insert t params) w)) with (db w).
  destruct (db_exec (Insert t params) (db w)) as [[| |rows] d]; simpl.
  - split; [done|]. split; [done|]. right. by eexists.
  - split; [done|]. split; [done|]. right. by eexists.
  - destruct rows as [|[|v cells] rows]; simpl.
    + split; [done|]. split; [done|]. right. by eexists.
    + split; [done|]. split; [done|]. right. by eexists.
    + destruct (Hpush v (set_db d (log_stmt (Insert t params) w)))
        as (w1 & -> & Hi & _ & Hc1 & Hp & _). simpl.
      split; [done|]. split; [by rewrite Hc1|]. left. exists v. done.
Qed.

Lemma capture_loop {A} t (push : Val -> M unit) (body : A -> M unit) (xs : list A) :
  pushes t push ->
  (forall x w, exists params r,
     body x w = bind (execute_query (Insert t params))
                     (fun result => bind (first_cell result) (fun id => push id))
                     (set_rng r w)) ->
  forall w, connected (self w) = true ->
    all_or_stopped t (length xs) w (for_each xs body w).
Proof.
  intros Hpush Hbody. induction xs as [|x xs IH]; intros w Hc.
  - exists [], []. simpl. rewrite !app_nil_r. by repeat split.
  - cbn [for_each]. rewrite bind_unfold.
    destruct (Hbody x w) as (params & r & ->).
    destruct (capture_outcome t params push (set_rng r w) Hpush Hc) as (Hi & Hc1 & Hcase).
    cbv zeta in Hi, Hc1, Hcase.
    destruct (bind (execute_query (Insert t params)) _ (set_rng r w)) as [res w1].
    simpl in Hi, Hc1, Hcase.
    destruct Hcase as [(v & -> & Hp)|(e & -> & Hs)].
    + destruct (IH w1 Hc1) as (new & l & Hp2 & Hi2 & Hl & Hres).
      exists (v :: new), (Insert t params :: l).
      split; [rewrite Hp2, Hp; by rewrite <- app_assoc|].
      split; [rewrite Hi2, Hi; by rewrite <- app_assoc|].
      split; [constructor; [simpl; by rewrite bool_decide_eq_true_2|done]|].
      destruct (for_each xs body w1).1; simpl; destruct Hres; split; lia.
    + exists [], [Insert t params]. simpl.
      split; [by rewrite Hs, app_nil_r|]. split; [done|].
      split; [constructor; [simpl; by rewrite bool_decide_eq_true_2|done]|].
      split; [lia|done].
Qed.

Ltac shape_tac :=
  intros ? w0; unfold mbind, M_bind;
  repeat first
    [ erewrite SEED_facts.bind_run by apply SEED_facts.get_run
    | match goal with
      | |- context [bind (fake ?f) _ ?w] =>
          let E := fresh "E" in
          destruct (SEED_facts.fake_run f w) as (? & ? & E);
          erewrite SEED_facts.bind_run by exact E
      | |- context [bind (random_choice ?xs) _ ?w] =>
          let E := fresh "E" in
          destruct (SEED_facts.random_choice_nonempty xs w) as (? & ? & E & _); [done|];
          erewrite SEED_facts.bind_run by exact E
      | |- context [bind (date_between ?y) _ ?w] =>
          let E := fresh "E" in
          destruct (date_between_run y w) as (? & ? & E);
          erewrite SEED_facts.bind_run by exact E
      | |- context [bind (random_randint ?a ?b) _ ?w] =>
          let E := fresh "E" in
          destruct (SEED_facts.random_randint_run a b w) as (? & ? & E);
          erewrite SEED_facts.bind_run by exact E
      | |- context [bind (random_uniform2 ?a ?b) _ ?w] =>
          let E := fresh "E" in
          destruct (SEED_facts.random_uniform2_run a b w) as (? & ? & E);
          erewrite SEED_facts.bind_run by exact E
      end
    | progress cbv zeta ];
  eexists _, _; reflexivity.

(** X22. On a connected generator [generate_artists(n)],
    [generate_producers(n)], [generate_studios(n)] and
    [generate_staff(n)] either send n insertions and append n keys to
    their pool, or raise right after the first insertion that brings no
    key back: then one statement more was sent than keys were appended,
    fewer than n. *)
Theorem strict_steps_stop_at_first_failure (n : nat) (w : World) :
  connected (self w) = true ->
  all_or_stopped t_artist n w (generate_artists n w) /\
  all_or_stopped t_producer n w (generate_producers n w) /\
  all_or_stopped t_studio n w (generate_studios n w) /\
  all_or_stopped t_staff n w (generate_staff n w).
Proof.
  intros Hc.
  assert (length (range 0 n) = n) as Hlen by (unfold range; rewrite length_seq; lia).
  destruct pushes_all as (Ha & Hp & Hs & _ & _ & Hst & _).
  split; [|split; [|split]].
  - unfold generate_artists. rewrite <- Hlen at 1.
    apply (capture_loop t_artist push_artist_id); [exact Ha| |exact Hc]. shape_tac.
  - unfold generate_producers. rewrite <- Hlen at 1.
    apply (capture_loop t_producer push_producer_id); [exact Hp| |exact Hc]. shape_tac.
  - unfold generate_studios. rewrite <- Hlen at 1.
    apply (capture_loop t_studio push_studio_id); [exact Hs| |exact Hc]. shape_tac.
  - unfold generate_staff. rewrite <- Hlen at 1.
    apply (capture_loop t_staff push_staff_id); [exact Hst| |exact Hc]. shape_tac.
Qed.

End Failures.

(** ** The song of a song distribution *)

Section SongPicks.

Context `{Seeds} `{Session}.

Lemma picks_ok_select rest (d : DB) :
  picks_ok rest (db_exec SelectRandomSong d).2 -> picks_ok (SelectRandomSong :: rest) d.
Proof.
  intros Hrest. cbn [picks_ok]. cbv zeta.
  destruct rest as [|q rest]; [done|].
  by destruct q as [| | |t params|].
Qed.

Lemma picks_ok_pair params rest (d : DB) album_id song_id more others :
  (db_exec SelectRandomSong d).1 = Rows ([album_id; song_id] :: more) ->
  params = song_id :: album_id :: others ->
  picks_ok rest (db_exec (Insert t_song_distribution params)
                         (db_exec SelectRandomSong d).2).2 ->
  picks_ok (SelectRandomSong :: Insert t_song_distribution params :: rest) d.
Proof.
  intros Hr Hp Hrest. cbn [picks_ok]. cbv zeta. split; [|done].
  by exists album_id, song_id, more, others.
Qed.

Lemma song_distribution_iteration (w : World) :
  exists w',
    try_except
      (result ← execute_query SelectRandomSong;
       match result with
       | Some (row :: _) =>
           '(album_id, song_id) ← unpack_pair row;
           d_ids ← get (fun w => distribution_ids (self w));
           distribution_id ← random_choice d_ids;
           publish_date ← date_between 2;
           status ← random_choice (three_states "pending");
           execute_query
             (Insert t_song_distribution
                     [song_id; album_id; distribution_id; VDate publish_date; VStr status]) ;;
           mret tt
       | _ => mret tt
       end)
      (fun _ => mret tt) w = (inr tt, w') /\
    ((issued w' = issued w /\ db w' = db w) \/
     (issued w' = issued w ++ [SelectRandomSong] /\
      db w' = (db_exec SelectRandomSong (db w)).2) \/
     (exists album_id song_id more others,
        (db_exec SelectRandomSong (db w)).1 = Rows ([album_id; song_id] :: more) /\
        let q := Insert t_song_distribution (song_id :: album_id :: others) in
        issued w' = issued w ++ [SelectRandomSong; q] /\
        db w' = (db_exec q (db_exec SelectRandomSong (db w)).2).2)).
Proof.
  unfold try_except, mbind at 1, M_bind at 1. rewrite bind_unfold.
  unfold execute_query at 1. destruct (connected (self w)) eqn:Hc.
  2: { eexists. split; [reflexivity|]. by left. }
  change (db (log_stmt SelectRandomSong w)) with (db w).
  destruct (db_exec SelectRandomSong (db w)) as [r d1] eqn:Ex. cbn [fst snd].
  set (w1 := set_db d1 (log_stmt SelectRandomSong w)).
  assert (issued w1 = issued w ++ [SelectRandomSong] /\ db w1 = d1) as Hw1 by done.
  destruct r as [| |rows].
  { eexists. split; [reflexivity|]. right. by left. }
  { eexists. split; [reflexivity|]. right. by left. }
  destruct rows as [|row more].
  { eexists. split; [reflexivity|]. right. by left. }
  unfold mbind, M_bind, mret, M_ret. rewrite bind_unfold.
  destruct row as [|a [|s [|c row]]]; cbn [unpack_pair]; unfold mret, M_ret;
    try (eexists; split; [reflexivity|]; right; by left).
  cbn [ret]. cbv beta iota.
  erewrite SEED_facts.bind_run by apply SEED_facts.get_run.
  rewrite bind_unfold.
  destruct (decide (distribution_ids (self w1) = [])) as [He|Hne].
  { rewrite He. cbn [random_choice raise]. eexists. split; [reflexivity|]. right. by left. }
  destruct (SEED_facts.random_choice_nonempty (distribution_ids (self w1)) w1 Hne)
    as (dist & r1 & -> & _).
  destruct (date_between_run 2 (set_rng r1 w1)) as (date & r2 & E2).
  erewrite SEED_facts.bind_run by exact E2.
  destruct (SEED_facts.random_choice_nonempty (three_states "pending")
              (set_rng r2 (set_rng r1 w1))) as (st & r3 & E3 & _); [done|].
  erewrite SEED_facts.bind_run by exact E3.
  pose proof (SEED_facts.try_execute
                (Insert t_song_distribution [s; a; dist; VDate date; VStr st])
                (set_rng r3 (set_rng r2 (set_rng r1 w1))) Hc) as Htry.
  unfold try_except in Htry. rewrite Htry.
  eexists. split; [reflexivity|]. right. right.
  exists a, s, more, [dist; VDate date; VStr st]. split; [done|]. cbv zeta.
  split; [simpl; by rewrite <- app_assoc|done].
Qed.

(** X25. In [generate_song_distributions], on any database, every
    SELECT of a random song is followed by at most one insertion into
    song_distribution before the next SELECT, and that insertion
    carries the song the SELECT returned: the row's (album_id, song_id)
    is bound as (song_id, album_id), the order of the INSERT's
    columns.  Nothing else is sent. *)
Theorem song_distributions_carry_the_selected_song (n : nat) (w : World) :
  picks_ok (emitted w (generate_song_distributions n w).2) (db w).
Proof.
  unfold generate_song_distributions.
  match goal with
  | |- context [for_each ?xs ?body] =>
      enough (forall w0, exists l, issued (for_each xs body w0).2 = issued w0 ++ l /\
                                   picks_ok l (db w0)) as Hloop
  end.
  { destruct (Hloop w) as (l & Hi & Hl). unfold emitted. by rewrite Hi, drop_app_length. }
  generalize (range 0 n). intros xs. induction xs as [|x xs IH]; intros w0.
  - exists []. simpl. by rewrite app_nil_r.
  - cbn [for_each]. rewrite bind_unfold.
    destruct (song_distribution_iteration w0) as (w1 & -> & Hcase).
    destruct (IH w1) as (l & Hi & Hl).
    destruct Hcase as [[Hi1 Hd1]|[[Hi1 Hd1]|(a & s & more & others & Hr & Hi1 & Hd1)]].
    + exists l. split; [by rewrite Hi, Hi1|]. by rewrite <- Hd1.
    + exists (SelectRandomSong :: l). split; [rewrite Hi, Hi1; by rewrite <- app_assoc|].
      apply picks_ok_select. by rewrite <- Hd1.
    + cbv zeta in Hi1, Hd1.
      exists (SelectRandomSong :: Insert t_song_distribution (s :: a :: others) :: l).
      split; [rewrite Hi, Hi1; by rewrite <- app_assoc|].
      eapply picks_ok_pair; [exact Hr|done|]. by rewrite <- Hd1.
Qed.

End SongPicks.

(** ** A generator without connection *)

Section Unconnected.

Context `{Seeds} `{Session}.

Lemma idle_silent {A} (m : M A) : silent m -> idle m.
Proof. intros Hm w _. apply Hm. Qed.

Lemma idle_bind {A B} (m : M A) (k : A -> M B) :
  idle m -> (forall a, idle (k a)) -> idle (bind m k).
Proof.
  intros Hm Hk w Hc. unfold bind. destruct (Hm w Hc) as (Hi & Hd & Hs).
  destruct (m w) as [[e|a] w1]; simpl in *; [done|].
  destruct (Hk a w1) as (Hi2 & Hd2 & Hs2); [by rewrite Hs|]. by rewrite Hi2, Hd2, Hs2.
Qed.

Lemma idle_try_except {A} (m : M A) (h : Exn -> M A) :
  idle m -> (forall e, idle (h e)) -> idle (try_except m h).
Proof.
  intros Hm Hh w Hc. unfold try_except. destruct (Hm w Hc) as (Hi & Hd & Hs).
  destruct (m w) as [[e|a] w1]; simpl in *; [|done].
  destruct (Hh e w1) as (Hi2 & Hd2 & Hs2); [by rewrite Hs|]. by rewrite Hi2, Hd2, Hs2.
Qed.

Lemma idle_for_each {A} (xs : list A) (body : A -> M unit) :
  (forall x, idle (body x)) -> idle (for_each xs body).
Proof.
  intros Hb. induction xs as [|x xs IH]; simpl.
  - apply idle_silent, silent_ret.
  - apply idle_bind; [apply Hb|intros _; apply IH].
Qed.

(** The statement is not sent, and what would follow it is not run. *)
Lemma idle_execute_then {B} q (k : option (list (list Val)) -> M B) :
  idle (bind (execute_query q) k).
Proof. intros w Hc. unfold bind, execute_query. by rewrite Hc. Qed.

End Unconnected.

Ltac idle_step :=
  lazymatch goal with
  | |- idle (bind (execute_query _) _) => apply idle_execute_then
  | |- idle (bind _ _) => apply idle_bind; [|intros ?]
  | |- idle (try_except _ _) => apply idle_try_except; [|intros ?]
  | |- idle (for_each _ _) => apply idle_for_each; intros ?
  | |- idle (let _ := _ in _) => cbv zeta
  | |- idle (match ?x with _ => _ end) => destruct x
  | |- idle _ =>
      apply idle_silent;
      repeat first [ progress unfold random_randint, random_uniform2, fake, date_between,
                       two_words, mbind, M_bind, mret, M_ret
                   | silent_step ]
  end.

Ltac idle_auto := repeat first [unfold_bodies | idle_step].

Section UnconnectedSteps.

Context `{Seeds} `{Session}.

(** X26. On a generator without open connection (never connected, or
    disconnected) no step of the script sends anything: each of the
    calls that follow [connect] in [generate_all] leaves the record of
    statements, the database and the generator object, its id pools
    included, as they were, whether it returns or raises. *)
Theorem steps_without_connection_send_nothing (n : nat) (w : World) (m : M unit) :
  connected (self w) = false ->
  m ∈ steps n ->
  issued (m w).2 = issued w /\ db (m w).2 = db w /\ self (m w).2 = self w.
Proof.
  intros Hc Hm. revert w Hc. change (idle m).
  unfold steps in Hm.
  repeat (apply elem_of_cons in Hm as [->|Hm]); [..|by apply elem_of_nil in Hm];
    unfold_method; idle_auto.
Qed.

End UnconnectedSteps.

(** ** The steps on concrete generators *)

Lemma filled_pools_suffice_witness :
  let d := fresh_pg random_a no_failure in
  album_ids (self (songs_world [VInt 1] d)) <> [] /\
  (@generate_songs lcg_seeds pg 3 (songs_world [VInt 1] d)).1 = inr tt /\
  artist_ids (self (booked_world [VInt 1] [VInt 2] [VInt 3] d)) <> [] /\
  producer_ids (self (booked_world [VInt 1] [VInt 2] [VInt 3] d)) <> [] /\
  studio_ids (self (booked_world [VInt 1] [VInt 2] [VInt 3] d)) <> [] /\
  (@generate_recording_sessions lcg_seeds pg 3 (booked_world [VInt 1] [VInt 2] [VInt 3] d)).1
  = inr tt /\
  studio_ids (self (staffed_world [VInt 1; VInt 2] [VInt 7] d)) <> [] /\
  (@generate_engineers lcg_seeds pg 3 (staffed_world [VInt 1; VInt 2] [VInt 7] d)).1 = inr tt.
Proof.
  cbv zeta.
  assert (album_ids (self (songs_world [VInt 1] (fresh_pg random_a no_failure))) <> [])
    as H1 by discriminate.
  assert (artist_ids (self (booked_world [VInt 1] [VInt 2] [VInt 3]
                              (fresh_pg random_a no_failure))) <> []) as H2 by discriminate.
  assert (producer_ids (self (booked_world [VInt 1] [VInt 2] [VInt 3]
                                (fresh_pg random_a no_failure))) <> []) as H3 by discriminate.
  assert (studio_ids (self (booked_world [VInt 1] [VInt 2] [VInt 3]
                              (fresh_pg random_a no_failure))) <> []) as H4 by discriminate.
  assert (studio_ids (self (staffed_world [VInt 1; VInt 2] [VInt 7]
                              (fresh_pg random_a no_failure))) <> []) as H5 by discriminate.
  split; [exact H1|].
  split; [exact (proj1 (@filled_pools_suffice lcg_seeds pg 3 _) H1)|].
  split; [exact H2|]. split; [exact H3|]. split; [exact H4|].
  split; [exact (proj1 (proj2 (@filled_pools_suffice lcg_seeds pg 3 _)) H2 H3 H4)|].
  split; [exact H5|].
  exact (proj2 (proj2 (@filled_pools_suffice lcg_seeds pg 3 _)) H5).
Defined.

Lemma attempts_follow_the_pools_witness :
  let w := staffed_world (VInt <$> [1; 2; 3; 4; 5; 6; 7; 8; 9; 10; 11; 12; 13; 14]) [VInt 7]
             (fresh_pg random_a no_failure) in
  connected (self w) = true /\
  studio_ids (self w) <> [] /\
  attempted t_manager (emitted w (@generate_managers lcg_seeds pg 3 w).2)
  = VInt <$> [4; 5; 6; 7; 8; 9; 10; 11; 12; 13] /\
  attempted t_engineer (emitted w (@generate_engineers lcg_seeds pg 3 w).2)
  = VInt <$> [1; 2; 3].
Proof.
  cbv zeta.
  set (w := staffed_world (VInt <$> [1; 2; 3; 4; 5; 6; 7; 8; 9; 10; 11; 12; 13; 14]) [VInt 7]
              (fresh_pg random_a no_failure)).
  assert (connected (self w) = true) as Hc by reflexivity.
  assert (studio_ids (self w) <> []) as Hs by discriminate.
  split; [exact Hc|]. split; [exact Hs|].
  split; [exact (proj1 (@attempts_follow_the_pools lcg_seeds pg 3 w Hc))|].
  exact (proj1 (proj2 (@attempts_follow_the_pools lcg_seeds pg 3 w Hc)) Hs).
Defined.

Lemma clean_database_stops_at_first_failure_witness :
  let w := connected_start 739000 (fresh_pg random_a no_failure) in
  let v := connected_start 739000 (fresh_pg random_a (fails_at 2)) in
  connected (self w) = true /\ connected (self v) = true /\
  Forall (fun r => r <> Failed) (@replies pg (Truncate <$> tables) (db w)) /\
  emitted w (@clean_database lcg_seeds pg w).2 = Truncate <$> tables /\
  emitted v (@clean_database lcg_seeds pg v).2
  = [Truncate t_song_distribution; Truncate t_artist_album; Truncate t_contract].
Proof.
  cbv zeta.
  set (w := connected_start 739000 (fresh_pg random_a no_failure)).
  set (v := connected_start 739000 (fresh_pg random_a (fails_at 2))).
  assert (connected (self w) = true) as Hw by reflexivity.
  assert (connected (self v) = true) as Hv by reflexivity.
  assert (Forall (fun r => r <> Failed) (@replies pg (Truncate <$> tables) (db w))) as Hok
    by (repeat constructor; discriminate).
  split; [exact Hw|]. split; [exact Hv|]. split; [exact Hok|].
  split;
    [exact (proj1 (proj2 (proj2 (@clean_database_stops_at_first_failure lcg_seeds pg w Hw)))
              Hok)|].
  exact (proj1 (@clean_database_stops_at_first_failure lcg_seeds pg v Hv)).
Defined.

Lemma strict_steps_stop_at_first_failure_witness :
  let w := connected_start 739000 (fresh_pg random_a (fails_at 2)) in
  connected (self w) = true /\
  all_or_stopped t_artist 5 w (@generate_artists lcg_seeds pg 5 w) /\
  all_or_stopped t_producer 5 w (@generate_producers lcg_seeds pg 5 w) /\
  all_or_stopped t_studio 5 w (@generate_studios lcg_seeds pg 5 w) /\
  all_or_stopped t_staff 5 w (@generate_staff lcg_seeds pg 5 w).
Proof.
  cbv zeta.
  assert (connected (self (connected_start 739000 (fresh_pg random_a (fails_at 2)))) = true)
    as Hc by reflexivity.
  split; [exact Hc|].
  exact (@strict_steps_stop_at_first_failure lcg_seeds pg 5 _ Hc).
Defined.

(** [generate_all] on a generator that holds a connection, the server
    down: [connect] raises, the finally block closes the connection
    that was held, and the object is not what it was. *)
Lemma generate_all_closes_a_held_connection :
  let w := stranded 739000 (fresh_pg random_a no_failure) in
  reachable w = false /\ connected (self w) = true /\
  (@generate_all lcg_seeds pg w).1 = inr tt /\
  issued (@generate_all lcg_seeds pg w).2 = [] /\
  connected (self (@generate_all lcg_seeds pg w).2) = false /\
  @generate_all lcg_seeds pg w <> (inr tt, w).
Proof.
  cbv zeta. repeat split.
  intros E. apply (f_equal (fun out => connected (self out.2))) in E. discriminate E.
Qed.

(** Before [connect]: the song step, the manager step on a pool of
    staff ids and the reset send nothing; the trigger and the pools
    are as before. *)
Lemma steps_without_connection_send_nothing_witness :
  let w := start 739000 (fresh_pg random_a no_failure) in
  let v := (@disconnect lcg_seeds pg
              (staffed_world [VInt 1; VInt 2] [VInt 7] (fresh_pg random_a no_failure))).2 in
  connected (self w) = false /\ connected (self v) = false /\
  @generate_songs lcg_seeds pg 1 ∈ @steps lcg_seeds pg 1 /\
  @clean_database lcg_seeds pg ∈ @steps lcg_seeds pg 1 /\
  @generate_managers lcg_seeds pg 0 ∈ @steps lcg_seeds pg 0 /\
  (issued (@generate_songs lcg_seeds pg 1 w).2 = issued w /\
   db (@generate_songs lcg_seeds pg 1 w).2 = db w /\
   self (@generate_songs lcg_seeds pg 1 w).2 = self w) /\
  (issued (@clean_database lcg_seeds pg w).2 = issued w /\
   db (@clean_database lcg_seeds pg w).2 = db w /\
   self (@clean_database lcg_seeds pg w).2 = self w) /\
  (issued (@generate_managers lcg_seeds pg 0 v).2 = issued v /\
   db (@generate_managers lcg_seeds pg 0 v).2 = db v /\
   self (@generate_managers lcg_seeds pg 0 v).2 = self v).
Proof.
  cbv zeta.
  set (w := start 739000 (fresh_pg random_a no_failure)).
  set (v := (@disconnect lcg_seeds pg
               (staffed_world [VInt 1; VInt 2] [VInt 7] (fresh_pg random_a no_failure))).2).
  assert (connected (self w) = false) as Hw by reflexivity.
  assert (connected (self v) = false) as Hv by reflexivity.
  assert (@generate_songs lcg_seeds pg 1 ∈ @steps lcg_seeds pg 1) as Hs
    by (unfold steps; repeat constructor).
  assert (@clean_database lcg_seeds pg ∈ @steps lcg_seeds pg 1) as Hc
    by (unfold steps; repeat constructor).
  assert (@generate_managers lcg_seeds pg 0 ∈ @steps lcg_seeds pg 0) as Hm
    by (unfold steps; repeat constructor).
  split; [exact Hw|]. split; [exact Hv|]. split; [exact Hs|]. split; [exact Hc|].
  split; [exact Hm|].
  split; [exact (@steps_without_connection_send_nothing lcg_seeds pg 1 w _ Hw Hs)|].
  split; [exact (@steps_without_connection_send_nothing lcg_seeds pg 1 w _ Hw Hc)|].
  exact (@steps_without_connection_send_nothing lcg_seeds pg 0 v _ Hv Hm).
Defined.

Lemma generate_all_always_returns_witness :
  let w := start_offline 739000 (fresh_pg random_a no_failure) in
  reachable w = false /\ connected (self w) = false /\
  @generate_all lcg_seeds pg w = (inr tt, w) /\
  connected (self (@generate_all lcg_seeds pg w).2) = false.
Proof.
  cbv zeta.
  assert (reachable (start_offline 739000 (fresh_pg random_a no_failure)) = false) as Hdown
    by reflexivity.
  assert (connected (self (start_offline 739000 (fresh_pg random_a no_failure))) = false)
    as Hc by reflexivity.
  split; [exact Hdown|]. split; [exact Hc|].
  split; [exact (proj2 (proj2 (@generate_all_always_returns lcg_seeds pg _)) Hdown Hc)|].
  exact (proj2 (proj2 (proj2 (proj2 (proj1 (proj2 (@generate_all_always_returns lcg_seeds pg _))
                                       Hdown))))).
Defined.

Lemma empty_pool_ends_the_step_witness :
  let w := start 739000 (fresh_pg random_a no_failure) in
  let v := staffed_world [VInt 1] [] (fresh_pg random_a no_failure) in
  producer_ids (self w) = [] /\ studio_ids (self v) = [] /\ staff_ids (self v) <> [] /\
  (exists w', @generate_albums lcg_seeds pg 1 w = (inl IndexError, w') /\
              issued w' = issued w /\ self w' = self w /\ db w' = db w) /\
  (exists w', @generate_recording_sessions lcg_seeds pg 1 w = (inl IndexError, w') /\
              issued w' = issued w /\ self w' = self w /\ db w' = db w) /\
  (exists v', @generate_engineers lcg_seeds pg 1 v = (inl IndexError, v') /\
              issued v' = issued v /\ self v' = self v /\ db v' = db v).
Proof.
  cbv zeta.
  set (w := start 739000 (fresh_pg random_a no_failure)).
  set (v := staffed_world [VInt 1] [] (fresh_pg random_a no_failure)).
  assert (producer_ids (self w) = []) as Hp by reflexivity.
  assert (studio_ids (self v) = []) as Hs by reflexivity.
  assert (staff_ids (self v) <> []) as Hst by discriminate.
  split; [exact Hp|]. split; [exact Hs|]. split; [exact Hst|].
  split; [exact (proj1 (@empty_pool_ends_the_step lcg_seeds pg 0 w) Hp)|].
  split; [exact (proj1 (proj2 (@empty_pool_ends_the_step lcg_seeds pg 0 w))
                   (or_intror (or_introl Hp)))|].
  exact (proj2 (proj2 (@empty_pool_ends_the_step lcg_seeds pg 0 v)) Hs Hst).
Defined.

(** A connected generator that holds one album id, over a database
    that stores one song of that album: each SELECT brings the song
    back, and the draw from the empty pool of distribution ids is what
    ends the iteration. *)
Lemma empty_pool_is_swallowed_witness :
  let w := songs_world [VInt 1] (set_song_keys [(VInt 1, VInt 5)]
                                   (fresh_pg random_a no_failure)) in
  connected (self w) = true /\
  artist_ids (self w) = [] /\ distribution_ids (self w) = [] /\
  (@db_exec pg SelectRandomSong (db w)).1 = Rows [[VInt 1; VInt 5]] /\
  (@generate_artist_albums lcg_seeds pg 3 w).1 = inr tt /\
  emitted w (@generate_artist_albums lcg_seeds pg 3 w).2 = [] /\
  (@generate_song_distributions lcg_seeds pg 3 w).1 = inr tt /\
  emitted w (@generate_song_distributions lcg_seeds pg 3 w).2
  = [SelectRandomSong; SelectRandomSong; SelectRandomSong].
Proof.
  cbv zeta.
  set (w := songs_world [VInt 1] (set_song_keys [(VInt 1, VInt 5)]
                                    (fresh_pg random_a no_failure))).
  assert (connected (self w) = true) as Hc by reflexivity.
  assert (artist_ids (self w) = []) as Ha by reflexivity.
  assert (distribution_ids (self w) = []) as Hd by reflexivity.
  split; [exact Hc|]. split; [exact Ha|]. split; [exact Hd|]. split; [reflexivity|].
  destruct (proj1 (@empty_pool_is_swallowed lcg_seeds pg 3 w) (or_introl Ha)) as [E1 E2].
  destruct (proj2 (@empty_pool_is_swallowed lcg_seeds pg 3 w) Hc Hd) as [E3 E4].
  split; [exact E1|]. split; [exact E2|]. split; [exact E3|exact E4].
Defined.

End SEED_more_facts.
